(** * DRM display backend: mode selection, CRTC allocation, hotplug state
      machine and page-flip bookkeeping of [backend/drm/drm.c].

    The development is a shallow embedding: every C function of the file
    that the verified properties depend on is written as a Rocq function of
    the same name, arrays are lists addressed by index, a pointer into an
    array is the index, [NULL] is [None], and the replies of the kernel
    (libdrm, GBM, EGL, the allocator) are explicit arguments. *)

From Stdlib Require Import ZArith Lia Ascii String DecimalString DecimalN DecimalPos.
From stdpp Require Import base numbers list strings gmap.

Local Open Scope string_scope.
Local Open Scope list_scope.
Local Open Scope Z_scope.

(** ** Results of a call that may hit [assert(0)]

    Assertions are taken as compiled in ([NDEBUG] is not defined): a failed
    assertion ends the process. *)

Inductive outcome (A : Type) : Type :=
| Returns (a : A)
| AssertFails.
Arguments Returns {A} a.
Arguments AssertFails {A}.

(** ** libdrm data, as the fields of [xf86drmMode.h] *)

Record drmModeModeInfo : Type := MkMode {
  clock : Z;
  hdisplay : Z; hsync_start : Z; hsync_end : Z; htotal : Z; hskew : Z;
  vdisplay : Z; vsync_start : Z; vsync_end : Z; vtotal : Z; vscan : Z;
  vrefresh : Z;
  flags : Z;
  type : Z;
  mode_name : string
}.

Record drmModeCrtc : Type := MkCrtc {
  crtc_id : Z;
  buffer_id : Z;
  crtc_x : Z; crtc_y : Z;
  crtc_width : Z; crtc_height : Z;
  mode_valid : Z;
  mode : drmModeModeInfo;
  gamma_size : Z
}.

(** [memcmp(a, b, sizeof *a) == 0] on two mode records: the structure has
    no padding, so the bytes agree exactly when all fields agree. *)
Global Instance drmModeModeInfo_eq_dec : EqDecision drmModeModeInfo.
Proof. solve_decision. Defined.

Definition memcmp_mode_eq (a b : drmModeModeInfo) : bool := bool_decide (a = b).

(** ** [sscanf(str, "%ux%u@%u", &width, &height, &rate)] *)

Module Scanf.

(** [isspace] in the C locale. *)
Definition isspace (c : ascii) : bool :=
  let n := nat_of_ascii c in
  (n =? 32)%nat || ((9 <=? n)%nat && (n <=? 13)%nat).

Definition digit_of (c : ascii) : option Z :=
  let n := Z.of_nat (nat_of_ascii c) in
  if (48 <=? n) && (n <=? 57) then Some (n - 48) else None.

Fixpoint skip_space (s : string) : string :=
  match s with
  | String c r => if isspace c then skip_space r else s
  | EmptyString => s
  end.

(** The longest run of decimal digits, accumulated in base ten. *)
Fixpoint scan_digits (acc : Z) (s : string) : Z * string :=
  match s with
  | String c r =>
      match digit_of c with
      | Some d => scan_digits (10 * acc + d) r
      | None => (acc, s)
      end
  | EmptyString => (acc, s)
  end.

(** Storing into an [unsigned]: the value is kept modulo [2^32] (a minus
    sign negates in unsigned arithmetic, as [strtoul] does).  For numerals
    that do not fit, C leaves the stored value undefined. *)
Definition to_unsigned (v : Z) : Z := v mod 2 ^ 32.

(** One [%u] directive: white space is skipped, an optional sign is
    read, and at least one digit is required. *)
Definition scan_uint (s : string) : option (Z * string) :=
  let s1 := skip_space s in
  let '(neg, s2) :=
    match s1 with
    | String "-" r => (true, r)
    | String "+" r => (false, r)
    | _ => (false, s1)
    end in
  match s2 with
  | String c _ =>
      match digit_of c with
      | Some _ =>
          let '(v, rest) := scan_digits 0 s2 in
          Some (to_unsigned (if neg then - v else v), rest)
      | None => None
      end
  | EmptyString => None
  end.

(** The whole call.  The result is the return value of [sscanf] (the
    number of converted items, [-1] for [EOF]) and the three variables,
    which keep their initial [0] where no conversion stored into them. *)
Definition sscanf_uxu_at_u (str : string) : Z * Z * Z * Z :=
  match scan_uint str with
  | None =>
      (match skip_space str with EmptyString => -1 | _ => 0 end, 0, 0, 0)
  | Some (width, s1) =>
      match s1 with
      | String "x" s2 =>
          match scan_uint s2 with
          | None => (1, width, 0, 0)
          | Some (height, s3) =>
              match s3 with
              | String "@" s4 =>
                  match scan_uint s4 with
                  | None => (2, width, height, 0)
                  | Some (rate, _) => (3, width, height, rate)
                  end
              | _ => (2, width, height, 0)
              end
          end
      | _ => (1, width, 0, 0)
      end
  end.

End Scanf.

(** ** [select_mode] *)

(** Both loops of [select_mode] have the shape
    [for (i = 0; i < num_modes; ++i) if (test(modes[i])) return &modes[i];].
    [mode_loop test modes i] runs it from index [i] on the modes that are
    left, and gives the index returned, or [None] when the loop falls
    through. *)
Fixpoint mode_loop (test : drmModeModeInfo -> bool)
    (modes : list drmModeModeInfo) (i : nat) : option nat :=
  match modes with
  | [] => None
  | m :: rest => if test m then Some i else mode_loop test rest (S i)
  end.

Definition numeric_test (width height rate : Z) (m : drmModeModeInfo) : bool :=
  (hdisplay m =? width) && (vdisplay m =? height) &&
  ((rate =? 0) || (vrefresh m =? rate)).

(** The returned pointer [&modes[i]] is the index [i]; [NULL] is [None]. *)
Definition select_mode (modes : list drmModeModeInfo)
    (old_crtc : option drmModeCrtc) (str : string) : outcome (option nat) :=
  if String.eqb str "preferred" then Returns (Some 0%nat)
  else if String.eqb str "current" then
    match old_crtc with
    | None => Returns None
    | Some crtc =>
        match mode_loop (fun m => memcmp_mode_eq m (mode crtc)) modes 0 with
        | Some i => Returns (Some i)
        | None => AssertFails
        end
    end
  else
    let '(ret, width, height, rate) := Scanf.sscanf_uxu_at_u str in
    if negb (ret =? 2) && negb (ret =? 3) then Returns None
    else Returns (mode_loop (numeric_test width height rate) modes 0).

(** *** Requests in the numeric form *)

(** A decimal numeral: a non-empty string of digits, with its value. *)
Fixpoint numeral_from (acc : Z) (s : string) : option Z :=
  match s with
  | EmptyString => Some acc
  | String c r =>
      match Scanf.digit_of c with
      | Some d => numeral_from (10 * acc + d) r
      | None => None
      end
  end.

Definition numeral (s : string) : option Z :=
  match s with
  | EmptyString => None
  | _ => numeral_from 0 s
  end.

(** The request ["<width>x<height>"] or ["<width>x<height>@<rate>"]. *)
Definition numeric_request (w h : string) (r : option string) : string :=
  (w ++ "x" ++ h ++ match r with Some r => "@" ++ r | None => "" end)%string.

(** [first_match P modes r]: [r] is the index of the first mode in list
    order that satisfies [P], or [None] when no mode satisfies [P]. *)
Definition first_match (P : drmModeModeInfo -> Prop)
    (modes : list drmModeModeInfo) (r : option nat) : Prop :=
  match r with
  | Some i =>
      (exists m, modes !! i = Some m /\ P m) /\
      (forall j m, (j < i)%nat -> modes !! j = Some m -> ~ P m)
  | None => forall m, m ∈ modes -> ~ P m
  end.

(** A mode with the given size and refresh rate, other fields zero. *)
Definition plain_mode (w h r : Z) : drmModeModeInfo :=
  MkMode 0 w 0 0 0 0 h 0 0 0 0 r 0 0 "".

(** ** Connectors, encoders and resources, as libdrm reports them *)

Inductive drmModeConnection : Type :=
| DRM_MODE_CONNECTED
| DRM_MODE_DISCONNECTED
| DRM_MODE_UNKNOWNCONNECTION.

Global Instance drmModeConnection_eq_dec : EqDecision drmModeConnection.
Proof. solve_decision. Defined.

Record drmModeEncoder : Type := MkEncoder {
  encoder_crtc_id : Z;
  possible_crtcs : Z
}.

(** [count_modes] and [count_encoders] are the lengths of the two lists. *)
Record drmModeConnector : Type := MkConnector {
  encoder_id : Z;
  connector_type : nat;
  connector_type_id : Z;
  connection : drmModeConnection;
  conn_modes : list drmModeModeInfo;
  encoders : list Z
}.

(** [count_connectors] and [count_crtcs] are the lengths of the two lists. *)
Record drmModeRes : Type := MkRes {
  connectors : list Z;
  crtcs : list Z
}.

(** What the kernel and the allocators answer during one call into the
    backend: the libdrm queries by object id, whether [realloc]/[malloc]
    succeed, whether the GBM and EGL surfaces can be created, and the
    framebuffer id that [get_fb_for_bo] obtains for the locked buffer. *)
Record drm_replies : Type := MkReplies {
  drmModeGetResources : option drmModeRes;
  drmModeGetConnector : Z -> option drmModeConnector;
  drmModeGetEncoder : Z -> option drmModeEncoder;
  drmModeGetCrtc : Z -> option drmModeCrtc;
  alloc_ok : bool;
  gbm_surface_create : bool;
  create_platform_window_surface : bool;
  get_fb_for_bo : Z
}.

Definition conn_name : list string :=
  [ "Unknown"; "VGA"; "DVI-I"; "DVI-D"; "DVI-A"; "Composite"; "SVIDEO";
    "LVDS"; "Component"; "DIN"; "DP"; "HDMI-A"; "HDMI-B"; "TV"; "eDP";
    "Virtual"; "DSI" ].

(** ** Displays, events and the backend *)

(** Modelled from the spec: the enumeration is declared in drm.h; its four
    states are those of the display state machine, and drm.c names them
    all. *)
Inductive wlr_drm_display_state : Type :=
| DRM_DISP_INVALID
| DRM_DISP_DISCONNECTED
| DRM_DISP_NEEDS_MODESET
| DRM_DISP_CONNECTED.

Global Instance wlr_drm_display_state_eq_dec : EqDecision wlr_drm_display_state.
Proof. solve_decision. Defined.

(** Modelled from the spec: the event kinds are declared in event.h; these
    are the three kinds that reach the event sink. *)
Inductive wlr_drm_event_type : Type :=
| DRM_EV_RENDER
| DRM_EV_DISPLAY_REM
| DRM_EV_DISPLAY_ADD.

Global Instance wlr_drm_event_type_eq_dec : EqDecision wlr_drm_event_type.
Proof. solve_decision. Defined.

(** Modelled from the spec: [struct wlr_drm_display] is declared in drm.h;
    the members are those of the spec's data model, under the names by
    which drm.c accesses them (the back pointer to the renderer is left
    out: there is one renderer and one backend).  [modes] and [old_crtc]
    are pointers ([None] is [NULL]); [active_mode] points into [modes] and
    is the index; [gbm] and [egl] say whether the surface handle is a valid
    one. *)
Record wlr_drm_display : Type := MkDisplay {
  state : wlr_drm_display_state;
  connector : Z;
  name : string;
  crtc : Z;
  num_modes : nat;
  modes : option (list drmModeModeInfo);
  active_mode : option nat;
  width : Z;
  height : Z;
  old_crtc : option drmModeCrtc;
  gbm : bool;
  egl : bool;
  pageflip_pending : bool;
  cleanup : bool
}.

(** The requests sent to the device that change what it scans out. *)
Inductive drm_request : Type :=
| SetCrtc (crtc_id fb_id x y : Z) (conns : list Z) (m : option drmModeModeInfo)
| PageFlip (crtc_id fb_id : Z) (user : nat).

(** Modelled from the spec: [struct wlr_drm_backend] is declared in
    backend.h; it owns the display table ([display_len] is its length; a
    display pointer [&backend->displays[i]] is the index [i]), the mask of
    CRTCs in use, taken as 32 bits wide, and the pending-event queue.
    [requests] is the device's side: the mode-setting requests it has
    received, oldest first. *)
Record wlr_drm_backend : Type := MkBackend {
  displays : list wlr_drm_display;
  taken_crtcs : Z;
  events : list (nat * wlr_drm_event_type);
  requests : list drm_request
}.

(** *** Field assignments *)

Definition set_state (v : wlr_drm_display_state) (d : wlr_drm_display) :=
  MkDisplay v (connector d) (name d) (crtc d) (num_modes d) (modes d)
    (active_mode d) (width d) (height d) (old_crtc d) (gbm d) (egl d)
    (pageflip_pending d) (cleanup d).

Definition set_connector_name (c : Z) (n : string) (d : wlr_drm_display) :=
  MkDisplay (state d) c n (crtc d) (num_modes d) (modes d)
    (active_mode d) (width d) (height d) (old_crtc d) (gbm d) (egl d)
    (pageflip_pending d) (cleanup d).

Definition set_crtc (v : Z) (d : wlr_drm_display) :=
  MkDisplay (state d) (connector d) (name d) v (num_modes d) (modes d)
    (active_mode d) (width d) (height d) (old_crtc d) (gbm d) (egl d)
    (pageflip_pending d) (cleanup d).

Definition set_modes (n : nat) (v : option (list drmModeModeInfo))
    (d : wlr_drm_display) :=
  MkDisplay (state d) (connector d) (name d) (crtc d) n v
    (active_mode d) (width d) (height d) (old_crtc d) (gbm d) (egl d)
    (pageflip_pending d) (cleanup d).

Definition set_active_mode (v : option nat) (d : wlr_drm_display) :=
  MkDisplay (state d) (connector d) (name d) (crtc d) (num_modes d) (modes d)
    v (width d) (height d) (old_crtc d) (gbm d) (egl d)
    (pageflip_pending d) (cleanup d).

Definition set_size (w h : Z) (d : wlr_drm_display) :=
  MkDisplay (state d) (connector d) (name d) (crtc d) (num_modes d) (modes d)
    (active_mode d) w h (old_crtc d) (gbm d) (egl d)
    (pageflip_pending d) (cleanup d).

Definition set_old_crtc (v : option drmModeCrtc) (d : wlr_drm_display) :=
  MkDisplay (state d) (connector d) (name d) (crtc d) (num_modes d) (modes d)
    (active_mode d) (width d) (height d) v (gbm d) (egl d)
    (pageflip_pending d) (cleanup d).

Definition set_gbm (v : bool) (d : wlr_drm_display) :=
  MkDisplay (state d) (connector d) (name d) (crtc d) (num_modes d) (modes d)
    (active_mode d) (width d) (height d) (old_crtc d) v (egl d)
    (pageflip_pending d) (cleanup d).

Definition set_egl (v : bool) (d : wlr_drm_display) :=
  MkDisplay (state d) (connector d) (name d) (crtc d) (num_modes d) (modes d)
    (active_mode d) (width d) (height d) (old_crtc d) (gbm d) v
    (pageflip_pending d) (cleanup d).

Definition set_pageflip_pending (v : bool) (d : wlr_drm_display) :=
  MkDisplay (state d) (connector d) (name d) (crtc d) (num_modes d) (modes d)
    (active_mode d) (width d) (height d) (old_crtc d) (gbm d) (egl d)
    v (cleanup d).

Definition set_cleanup (v : bool) (d : wlr_drm_display) :=
  MkDisplay (state d) (connector d) (name d) (crtc d) (num_modes d) (modes d)
    (active_mode d) (width d) (height d) (old_crtc d) (gbm d) (egl d)
    (pageflip_pending d) v.

(** [backend->displays[i] = d] *)
Definition set_display (i : nat) (d : wlr_drm_display) (b : wlr_drm_backend) :=
  MkBackend (<[i := d]> (displays b)) (taken_crtcs b) (events b) (requests b).

Definition set_displays (ds : list wlr_drm_display) (b : wlr_drm_backend) :=
  MkBackend ds (taken_crtcs b) (events b) (requests b).

Definition set_taken_crtcs (v : Z) (b : wlr_drm_backend) :=
  MkBackend (displays b) v (events b) (requests b).

Definition send_request (r : drm_request) (b : wlr_drm_backend) :=
  MkBackend (displays b) (taken_crtcs b) (events b) (requests b ++ [r]).

(** Modelled from the spec: [wlr_drm_add_event] is defined in event.c; it
    enqueues the pair of the display and the event kind on the backend's
    pending-event queue.  The queue is kept as the list of these calls, in
    the order in which they were made. *)
Definition wlr_drm_add_event (b : wlr_drm_backend) (disp : nat)
    (ty : wlr_drm_event_type) : wlr_drm_backend :=
  MkBackend (displays b) (taken_crtcs b) (events b ++ [(disp, ty)]) (requests b).

(** ** [wlr_drm_scan_connectors] *)

(** A slot as the compound literal of the growth loop leaves it: state
    INVALID and every other member zero. *)
Definition new_display : wlr_drm_display :=
  MkDisplay DRM_DISP_INVALID 0 "" 0 0 None None 0 0 None false false false false.

(** ["%s-%u"] of the connector type's name and the type index.  The text
    is kept whole: the size of the buffer [name], at which [snprintf] cuts,
    is declared in drm.h. *)
Definition display_name (conn : drmModeConnector) : string :=
  (nth (connector_type conn) conn_name "" ++ "-" ++
   NilZero.string_of_uint (N.to_uint (Z.to_N (connector_type_id conn))))%string.

(** The body of the connector loop for index [i] and connector id [id].
    The loop runs after the table has grown, so slot [i] exists. *)
Definition scan_connector (k : drm_replies) (i : nat) (id : Z)
    (b : wlr_drm_backend) : wlr_drm_backend :=
  match displays b !! i with
  | None => b
  | Some disp0 =>
      match drmModeGetConnector k id with
      | None => b
      | Some conn =>
          let disp :=
            if decide (state disp0 = DRM_DISP_INVALID)
            then set_connector_name id (display_name conn)
                   (set_state DRM_DISP_DISCONNECTED disp0)
            else disp0 in
          if decide (state disp = DRM_DISP_DISCONNECTED /\
                     connection conn = DRM_MODE_CONNECTED) then
            wlr_drm_add_event
              (set_display i (set_state DRM_DISP_NEEDS_MODESET disp) b)
              i DRM_EV_DISPLAY_ADD
          else if decide (state disp = DRM_DISP_CONNECTED /\
                          connection conn <> DRM_MODE_CONNECTED) then
            wlr_drm_add_event
              (set_display i (set_state DRM_DISP_DISCONNECTED disp) b)
              i DRM_EV_DISPLAY_REM
          else set_display i disp b
      end
  end.

(** [for (int i = ...; i < res->count_connectors; ++i)], from index [i] on
    the connector ids that are left. *)
Fixpoint scan_loop (k : drm_replies) (i : nat) (ids : list Z)
    (b : wlr_drm_backend) : wlr_drm_backend :=
  match ids with
  | [] => b
  | id :: rest => scan_loop k (S i) rest (scan_connector k i id b)
  end.

Definition wlr_drm_scan_connectors (k : drm_replies)
    (b : wlr_drm_backend) : wlr_drm_backend :=
  match drmModeGetResources k with
  | None => b
  | Some res =>
      let count_connectors := length (connectors res) in
      if decide (length (displays b) < count_connectors)%nat then
        if alloc_ok k then
          scan_loop k 0 (connectors res)
            (set_displays
               (displays b ++
                replicate (count_connectors - length (displays b)) new_display)
               b)
        else b
      else scan_loop k 0 (connectors res) b
  end.

(** ** [display_init_renderer] *)

(** The mode a display's [active_mode] pointer designates. *)
Definition active_mode_info (d : wlr_drm_display) : option drmModeModeInfo :=
  match active_mode d, modes d with
  | Some i, Some ms => ms !! i
  | _, _ => None
  end.

Definition display_init_renderer (k : drm_replies) (i : nat)
    (b : wlr_drm_backend) : bool * wlr_drm_backend :=
  match displays b !! i with
  | None => (false, b)
  | Some disp =>
      let disp := set_gbm (gbm_surface_create k) disp in
      if negb (gbm disp) then (false, set_display i disp b)
      else
        let disp := set_egl (create_platform_window_surface k) disp in
        if negb (egl disp) then (false, set_display i disp b)
        else
          let fb_id := get_fb_for_bo k in
          let b := set_display i disp b in
          let b := send_request
                     (SetCrtc (crtc disp) fb_id 0 0 [connector disp]
                        (active_mode_info disp)) b in
          let b := send_request (PageFlip (crtc disp) fb_id i) b in
          (true, b)
  end.

(** ** [wlr_drm_display_modeset] *)

(** [1 << j]; the shift is defined in C for [j < 31]. *)
Definition crtc_bit (j : nat) : Z := Z.shiftl 1 (Z.of_nat j).

(** The value stored into the 32-bit [taken_crtcs]. *)
Definition to_uint32 (v : Z) : Z := v mod 2 ^ 32.

(** The inner loop [for (j = 0; j < res->count_crtcs; ++j)], from index [j]
    on the CRTC ids that are left: the index and the id of the CRTC taken,
    if the loop reaches the [break]. *)
Fixpoint crtc_loop (possible taken : Z) (j : nat) (ids : list Z)
    : option (nat * Z) :=
  match ids with
  | [] => None
  | id :: rest =>
      if Z.land possible (crtc_bit j) =? 0 then
        crtc_loop possible taken (S j) rest
      else if Z.land taken (crtc_bit j) =? 0 then Some (j, id)
      else crtc_loop possible taken (S j) rest
  end.

(** The outer loop over [conn->encoders], which stops at the first
    success. *)
Fixpoint encoder_loop (k : drm_replies) (taken : Z) (crtc_ids : list Z)
    (encs : list Z) : option (nat * Z) :=
  match encs with
  | [] => None
  | e :: rest =>
      match drmModeGetEncoder k e with
      | None => encoder_loop k taken crtc_ids rest
      | Some enc =>
          match crtc_loop (possible_crtcs enc) taken 0 crtc_ids with
          | Some r => Some r
          | None => encoder_loop k taken crtc_ids rest
          end
      end
  end.

(** [curr_enc = drmModeGetEncoder(...); if (curr_enc) disp->old_crtc = ...]:
    the snapshot is replaced only when the connector's current encoder can
    be fetched. *)
Definition refresh_old_crtc (k : drm_replies) (conn : drmModeConnector)
    (disp : wlr_drm_display) : wlr_drm_display :=
  match drmModeGetEncoder k (encoder_id conn) with
  | Some curr_enc =>
      set_old_crtc (drmModeGetCrtc k (encoder_crtc_id curr_enc)) disp
  | None => disp
  end.

(** The [error:] label. *)
Definition modeset_error (i : nat) (disp : wlr_drm_display)
    (b : wlr_drm_backend) : outcome (bool * wlr_drm_backend) :=
  Returns (false,
           wlr_drm_add_event
             (set_display i (set_state DRM_DISP_DISCONNECTED disp) b)
             i DRM_EV_DISPLAY_REM).

(** The display is given by its index [i] in the table.  A caller can only
    hold pointers to slots of the table; for an index outside it the model
    leaves the backend as it is. *)
Definition wlr_drm_display_modeset (k : drm_replies) (b : wlr_drm_backend)
    (i : nat) (str : string) : outcome (bool * wlr_drm_backend) :=
  match displays b !! i with
  | None => Returns (false, b)
  | Some disp =>
      match drmModeGetConnector k (connector disp) with
      | None => modeset_error i disp b
      | Some conn =>
          if decide (connection conn <> DRM_MODE_CONNECTED \/
                     length (conn_modes conn) = 0%nat)
          then modeset_error i disp b
          else if negb (alloc_ok k)
          then modeset_error i
                 (set_modes (length (conn_modes conn)) None disp) b
          else
            let disp := set_modes (length (conn_modes conn))
                          (Some (conn_modes conn)) disp in
            let disp := refresh_old_crtc k conn disp in
            match select_mode (conn_modes conn) (old_crtc disp) str with
            | AssertFails => AssertFails
            | Returns am =>
                let disp := set_active_mode am disp in
                match am with
                | None => modeset_error i disp b
                | Some _ =>
                    match drmModeGetResources k with
                    | None => modeset_error i disp b
                    | Some res =>
                        match encoder_loop k (taken_crtcs b) (crtcs res)
                                (encoders conn) with
                        | None => modeset_error i disp b
                        | Some (j, id) =>
                            let b := set_taken_crtcs
                                       (to_uint32
                                          (Z.lor (taken_crtcs b) (crtc_bit j)))
                                       b in
                            let disp := set_crtc id disp in
                            let disp := set_state DRM_DISP_CONNECTED disp in
                            let disp :=
                              match active_mode_info disp with
                              | Some m => set_size (hdisplay m) (vdisplay m) disp
                              | None => disp
                              end in
                            Returns
                              (true,
                               snd (display_init_renderer k i
                                      (set_display i disp b)))
                        end
                    end
                end
            end
      end
  end.

(** ** Page flips: the completion handler, the event pump and [end] *)

(** [user] is the display pointer that was given to [drmModePageFlip]. *)
Definition page_flip_handler (user : nat) (b : wlr_drm_backend)
    : wlr_drm_backend :=
  match displays b !! user with
  | None => b
  | Some disp =>
      let b := set_display user (set_pageflip_pending true disp) b in
      if cleanup disp then b
      else wlr_drm_add_event b user DRM_EV_RENDER
  end.

(** [drmHandleEvent] reads the completion events that are ready on the
    descriptor and calls the handler for each; [flips] are their [user]
    pointers, in order. *)
Definition drmHandleEvent (flips : list nat) (b : wlr_drm_backend)
    : wlr_drm_backend :=
  foldl (fun b user => page_flip_handler user b) b flips.

Definition wlr_drm_event (flips : list nat) (b : wlr_drm_backend)
    : wlr_drm_backend :=
  drmHandleEvent flips b.

(** [fb_id] is what [get_fb_for_bo] gives for the locked front buffer. *)
Definition wlr_drm_display_end (fb_id : Z) (i : nat) (b : wlr_drm_backend)
    : wlr_drm_backend :=
  match displays b !! i with
  | None => b
  | Some disp =>
      let b := send_request (PageFlip (crtc disp) fb_id i) b in
      set_display i (set_pageflip_pending false disp) b
  end.

(** ** [wlr_drm_display_free] *)

Definition pending (i : nat) (b : wlr_drm_backend) : bool :=
  match displays b !! i with
  | Some disp => pageflip_pending disp
  | None => false
  end.

(** [while (disp->pageflip_pending) drmHandleEvent(...)].  [pumps] lists
    what the successive calls of [drmHandleEvent] deliver; the result is
    [None] when the loop is still spinning after all of them. *)
Fixpoint wait_for_flips (pumps : list (list nat)) (i : nat)
    (b : wlr_drm_backend) : option wlr_drm_backend :=
  if pending i b then
    match pumps with
    | [] => None
    | flips :: rest => wait_for_flips rest i (drmHandleEvent flips b)
    end
  else Some b.

(** The [drmModeSetCrtc] request that puts the snapshot [crtc] back on
    the connector of [disp]. *)
Definition restore_request (crtc : drmModeCrtc) (disp : wlr_drm_display)
    : drm_request :=
  SetCrtc (crtc_id crtc) (buffer_id crtc) (crtc_x crtc) (crtc_y crtc)
    [connector disp] (Some (mode crtc)).

(** [!disp] is a lookup that finds no display.  The surfaces and the mode
    list are destroyed and freed; the members that pointed to them keep
    their stale values, as in the C code. *)
Definition wlr_drm_display_free (pumps : list (list nat)) (i : nat)
    (b : wlr_drm_backend) : option wlr_drm_backend :=
  match displays b !! i with
  | None => Some b
  | Some disp =>
      if decide (state disp <> DRM_DISP_CONNECTED) then Some b
      else
        match old_crtc disp with
        | Some crtc =>
            let b := set_display i (set_cleanup true disp) b in
            match wait_for_flips pumps i b with
            | None => None
            | Some b => Some (send_request (restore_request crtc disp) b)
            end
        | None => Some b
        end
  end.

(** ** Sequences of calls into the backend *)

Inductive op : Type :=
| Scan (k : drm_replies)
| Modeset (k : drm_replies) (i : nat) (str : string)
| Free (pumps : list (list nat)) (i : nat)
| Pump (flips : list nat)
| End (fb_id : Z) (i : nat).

(** One call.  [None]: the call does not return (the assertion of
    [select_mode] fails, or the wait of [wlr_drm_display_free] is still
    spinning). *)
Definition step (o : op) (b : wlr_drm_backend) : option wlr_drm_backend :=
  match o with
  | Scan k => Some (wlr_drm_scan_connectors k b)
  | Modeset k i str =>
      match wlr_drm_display_modeset k b i str with
      | Returns r => Some (snd r)
      | AssertFails => None
      end
  | Free pumps i => wlr_drm_display_free pumps i b
  | Pump flips => Some (wlr_drm_event flips b)
  | End fb_id i => Some (wlr_drm_display_end fb_id i b)
  end.

Fixpoint run (ops : list op) (b : wlr_drm_backend) : option wlr_drm_backend :=
  match ops with
  | [] => Some b
  | o :: rest =>
      match step o b with
      | Some b' => run rest b'
      | None => None
      end
  end.

(** The zero-initialised backend: no display, no CRTC taken, no event. *)
Definition initial_backend : wlr_drm_backend := MkBackend [] 0 [] [].

(** ** The CRTC mask and the CONNECTED displays *)

(** Number of set bits among the [n] low bits of [v]. *)
Fixpoint count_bits (v : Z) (n : nat) : nat :=
  match n with
  | O => O
  | S n' => ((if Z.testbit v (Z.of_nat n') then 1 else 0) + count_bits v n')%nat
  end.

(** Number of set bits of a 32-bit mask. *)
Definition popcount32 (v : Z) : nat := count_bits v 32.

Definition connected_count (b : wlr_drm_backend) : nat :=
  length (filter (fun d => state d = DRM_DISP_CONNECTED) (displays b)).

(** No CRTC is assigned to two CONNECTED displays. *)
Definition crtcs_exclusive (b : wlr_drm_backend) : Prop :=
  forall i j di dj,
    i <> j ->
    displays b !! i = Some di -> displays b !! j = Some dj ->
    state di = DRM_DISP_CONNECTED -> state dj = DRM_DISP_CONNECTED ->
    crtc di <> crtc dj.

(** The replies a call receives. *)
Definition op_replies (o : op) : option drm_replies :=
  match o with
  | Scan k | Modeset k _ _ => Some k
  | _ => None
  end.

(** The device has the fixed CRTC list [ids]: every resource query that
    succeeds reports it. *)
Definition reports_crtcs (ids : list Z) (o : op) : Prop :=
  forall k res,
    op_replies o = Some k -> drmModeGetResources k = Some res ->
    crtcs res = ids.

(** A call that takes no CRTC and makes no display CONNECTED: the mask is
    unchanged, and a display that is CONNECTED afterwards was CONNECTED
    before, on the same CRTC. *)
Definition releases_only (b b' : wlr_drm_backend) : Prop :=
  taken_crtcs b' = taken_crtcs b /\
  forall j d',
    displays b' !! j = Some d' -> state d' = DRM_DISP_CONNECTED ->
    exists d, displays b !! j = Some d /\
              state d = DRM_DISP_CONNECTED /\ crtc d = crtc d'.

(** ** The display state machine *)

Inductive edge :
  wlr_drm_display_state -> option wlr_drm_event_type ->
  wlr_drm_display_state -> Prop :=
| edge_first_seen :
    edge DRM_DISP_INVALID None DRM_DISP_DISCONNECTED
| edge_plugged :
    edge DRM_DISP_DISCONNECTED (Some DRM_EV_DISPLAY_ADD) DRM_DISP_NEEDS_MODESET
| edge_modeset_done :
    edge DRM_DISP_NEEDS_MODESET None DRM_DISP_CONNECTED
| edge_modeset_failed :
    edge DRM_DISP_NEEDS_MODESET (Some DRM_EV_DISPLAY_REM) DRM_DISP_DISCONNECTED
| edge_unplugged :
    edge DRM_DISP_CONNECTED (Some DRM_EV_DISPLAY_REM) DRM_DISP_DISCONNECTED.

(** A walk of the graph, with the ADD and REM events of its edges in
    order. *)
Inductive walk :
  wlr_drm_display_state -> list wlr_drm_event_type ->
  wlr_drm_display_state -> Prop :=
| walk_stay s : walk s [] s
| walk_edge s1 e s2 evs s3 :
    edge s1 e s2 -> walk s2 evs s3 -> walk s1 (option_list e ++ evs) s3.

(** The state of slot [i]; a slot that the table does not have yet has
    never been seen. *)
Definition state_at (b : wlr_drm_backend) (i : nat) : wlr_drm_display_state :=
  match displays b !! i with
  | Some d => state d
  | None => DRM_DISP_INVALID
  end.

(** The ADD and REM events of display [i] among [evs], in order. *)
Definition hotplug_events (i : nat) (evs : list (nat * wlr_drm_event_type))
    : list wlr_drm_event_type :=
  snd <$> filter (fun e => fst e = i /\ snd e <> DRM_EV_RENDER) evs.

(** A call that takes the backend from [b] to [b'] is legal when it only
    adds events to the queue and moves every display along a walk of the
    graph whose events are the ADD and REM events added for it. *)
Definition legal_step (b b' : wlr_drm_backend) : Prop :=
  exists evs,
    events b' = events b ++ evs /\
    forall i, walk (state_at b i) (hotplug_events i evs) (state_at b' i).

(** ** What one call does to one display *)

(** The move of a display over one call, with the ADD and REM events added
    for it: the call takes no edge, or one edge of the graph, or the edge
    out of INVALID followed by one more edge (a scan stores DISCONNECTED
    into a slot it sees for the first time and, when the connector is
    connected, NEEDS_MODESET right after). *)
Inductive call_move :
  wlr_drm_display_state -> list wlr_drm_event_type ->
  wlr_drm_display_state -> Prop :=
| move_none s : call_move s [] s
| move_edge s e s' : edge s e s' -> call_move s (option_list e) s'
| move_first_seen s e s' :
    edge DRM_DISP_INVALID None s -> edge s e s' ->
    call_move DRM_DISP_INVALID (option_list e) s'.

(** A call that takes the backend from [b] to [b'] stays on the edges when
    it only adds events to the queue, and the state of every display and
    the ADD and REM events added for it are a move of that kind. *)
Definition on_edges (b b' : wlr_drm_backend) : Prop :=
  exists evs,
    events b' = events b ++ evs /\
    forall i, call_move (state_at b i) (hotplug_events i evs) (state_at b' i).

Fixpoint all_steps_on_edges (b : wlr_drm_backend) (ops : list op) : Prop :=
  match ops with
  | [] => True
  | o :: rest =>
      match step o b with
      | Some b' => on_edges b b' /\ all_steps_on_edges b' rest
      | None => True
      end
  end.

(** Every modeset of the sequence is asked for a display that is in state
    NEEDS_MODESET at that moment. *)
Fixpoint modesets_when_needed (b : wlr_drm_backend) (ops : list op) : Prop :=
  match ops with
  | [] => True
  | o :: rest =>
      match o with
      | Modeset _ i _ => state_at b i = DRM_DISP_NEEDS_MODESET
      | _ => True
      end /\
      match step o b with
      | Some b' => modesets_when_needed b' rest
      | None => True
      end
  end.

Definition scan_or_modeset (o : op) : Prop :=
  match o with
  | Scan _ | Modeset _ _ _ => True
  | _ => False
  end.

(** ** Why a modeset fails *)

Inductive modeset_failure (k : drm_replies) (b : wlr_drm_backend)
    (disp : wlr_drm_display) (str : string) : Prop :=
| connector_query_failed :
    drmModeGetConnector k (connector disp) = None ->
    modeset_failure k b disp str
| connector_not_connected conn :
    drmModeGetConnector k (connector disp) = Some conn ->
    connection conn <> DRM_MODE_CONNECTED ->
    modeset_failure k b disp str
| connector_without_modes conn :
    drmModeGetConnector k (connector disp) = Some conn ->
    conn_modes conn = [] ->
    modeset_failure k b disp str
| mode_list_allocation_failed conn :
    drmModeGetConnector k (connector disp) = Some conn ->
    alloc_ok k = false ->
    modeset_failure k b disp str
| no_matching_mode conn :
    drmModeGetConnector k (connector disp) = Some conn ->
    select_mode (conn_modes conn)
      (old_crtc (refresh_old_crtc k conn disp)) str = Returns None ->
    modeset_failure k b disp str
| resource_query_failed conn am :
    drmModeGetConnector k (connector disp) = Some conn ->
    select_mode (conn_modes conn)
      (old_crtc (refresh_old_crtc k conn disp)) str = Returns am ->
    drmModeGetResources k = None ->
    modeset_failure k b disp str
| no_free_crtc conn am res :
    drmModeGetConnector k (connector disp) = Some conn ->
    select_mode (conn_modes conn)
      (old_crtc (refresh_old_crtc k conn disp)) str = Returns am ->
    drmModeGetResources k = Some res ->
    encoder_loop k (taken_crtcs b) (crtcs res) (encoders conn) = None ->
    modeset_failure k b disp str.

(** ** Statements of the mode-selection properties *)

(** A numeral that fits an [unsigned]. *)
Definition fits_unsigned (v : Z) : Prop := v < 2 ^ 32.

(** The rate of a request: [Some None] when it is left out, [Some (Some r)]
    when the numeral [r] is given. *)
Definition requested_rate (rs : option string) : option (option Z) :=
  match rs with
  | None => Some None
  | Some s =>
      match numeral s with
      | Some r => Some (Some r)
      | None => None
      end
  end.

(** A mode has the requested size and, when a rate is given, that rate. *)
Definition matches_request (w h : Z) (rate : option Z)
    (m : drmModeModeInfo) : Prop :=
  hdisplay m = w /\ vdisplay m = h /\
  match rate with
  | Some r => vrefresh m = r
  | None => True
  end.

(** The same, where a rate of zero stands for no rate at all. *)
Definition matches_request_nonzero (w h : Z) (rate : option Z)
    (m : drmModeModeInfo) : Prop :=
  hdisplay m = w /\ vdisplay m = h /\
  match rate with
  | Some r => r = 0 \/ vrefresh m = r
  | None => True
  end.

(** The selection of a numeric request, for a way [matches] of reading the
    request: the first matching mode is returned, and [NULL] if there is
    none. *)
Definition numeric_selection
    (matches : Z -> Z -> option Z -> drmModeModeInfo -> Prop) : Prop :=
  forall (ms : list drmModeModeInfo) (old : option drmModeCrtc)
         (ws hs : string) (rs : option string) (w h : Z) (rate : option Z),
    ms <> [] ->
    numeral ws = Some w -> numeral hs = Some h ->
    requested_rate rs = Some rate ->
    fits_unsigned w -> fits_unsigned h ->
    (forall r, rate = Some r -> fits_unsigned r) ->
    exists res,
      select_mode ms old (numeric_request ws hs rs) = Returns res /\
      first_match (matches w h rate) ms res.

(** ** Sample data *)

(** A monitor with three modes. *)
Definition sample_modes : list drmModeModeInfo :=
  [plain_mode 1920 1080 60; plain_mode 1280 720 60; plain_mode 1920 1080 30].

(** A one-mode list: 1920x1080 at 60 Hz. *)
Definition full_hd_60 : list drmModeModeInfo := [plain_mode 1920 1080 60].

(** A previous configuration that scanned out 1280x720 at 60 Hz. *)
Definition sample_crtc : drmModeCrtc :=
  MkCrtc 40 7 0 0 1280 720 1 (plain_mode 1280 720 60) 0.

(** A connected HDMI connector that offers [sample_modes] through
    encoder 7. *)
Definition sample_connector : drmModeConnector :=
  MkConnector 7 11 1 DRM_MODE_CONNECTED sample_modes [7].

(** A device with one connector (id 20) and the CRTCs 40 and 41, both
    reachable from encoder 7.  The monitor is plugged in and nothing was
    configured before: the current CRTC cannot be fetched. *)
Definition plugged : drm_replies :=
  MkReplies (Some (MkRes [20] [40; 41]))
    (fun id => if id =? 20 then Some sample_connector else None)
    (fun id => if id =? 7 then Some (MkEncoder 0 3) else None)
    (fun _ => None)
    true true true 99.

(** The same device when the firmware had already configured CRTC 40. *)
Definition plugged_configured : drm_replies :=
  MkReplies (Some (MkRes [20] [40; 41]))
    (fun id => if id =? 20 then Some sample_connector else None)
    (fun id => if id =? 7 then Some (MkEncoder 40 3) else None)
    (fun id => if id =? 40 then Some sample_crtc else None)
    true true true 99.

(** The same device after the monitor is unplugged. *)
Definition unplugged : drm_replies :=
  MkReplies (Some (MkRes [20] [40; 41]))
    (fun id =>
       if id =? 20
       then Some (MkConnector 0 11 1 DRM_MODE_DISCONNECTED [] [7])
       else None)
    (fun id => if id =? 7 then Some (MkEncoder 0 3) else None)
    (fun _ => None)
    true true true 99.

(** The display of that device once it is configured with its preferred
    mode on CRTC 40, with the given snapshot and flags. *)
Definition sample_display (snapshot : option drmModeCrtc)
    (flag tearing_down : bool) : wlr_drm_display :=
  MkDisplay DRM_DISP_CONNECTED 20 "HDMI-A-1" 40 3 (Some sample_modes)
    (Some 0%nat) 1920 1080 snapshot true true flag tearing_down.

(** The requests of [display_init_renderer] for that display. *)
Definition sample_requests : list drm_request :=
  [SetCrtc 40 99 0 0 [20] (Some (plain_mode 1920 1080 60)); PageFlip 40 99 0].

(** The backend after a scan and a modeset of the plugged device. *)
Definition fresh_backend : wlr_drm_backend :=
  MkBackend [sample_display None false false] 1
    [(0%nat, DRM_EV_DISPLAY_ADD)] sample_requests.

(** The same after the completion of the first flip was delivered. *)
Definition flipped_backend : wlr_drm_backend :=
  MkBackend [sample_display None true false] 1
    [(0%nat, DRM_EV_DISPLAY_ADD); (0%nat, DRM_EV_RENDER)] sample_requests.

(** The backend after a scan and a modeset of the device that the firmware
    had configured. *)
Definition restorable_backend : wlr_drm_backend :=
  MkBackend [sample_display (Some sample_crtc) false false] 1
    [(0%nat, DRM_EV_DISPLAY_ADD)] sample_requests.

(** That backend after its display is freed. *)
Definition restored_backend : wlr_drm_backend :=
  MkBackend [sample_display (Some sample_crtc) false true] 1
    [(0%nat, DRM_EV_DISPLAY_ADD)]
    (sample_requests ++
     [SetCrtc 40 7 0 0 [20] (Some (plain_mode 1280 720 60))]).

(** The backend of the device that the firmware had configured, after the
    completion of the first flip was delivered. *)
Definition waiting_backend : wlr_drm_backend :=
  MkBackend [sample_display (Some sample_crtc) true false] 1
    [(0%nat, DRM_EV_DISPLAY_ADD); (0%nat, DRM_EV_RENDER)] sample_requests.

(** The display of the plugged device as the first scan leaves it. *)
Definition detected_display : wlr_drm_display :=
  MkDisplay DRM_DISP_NEEDS_MODESET 20 "HDMI-A-1" 0 0 None None 0 0 None
    false false false false.

(** The backend after the first scan of the plugged device. *)
Definition scanned_backend : wlr_drm_backend :=
  MkBackend [detected_display] 0 [(0%nat, DRM_EV_DISPLAY_ADD)] [].

(** ** Statement of the teardown property *)


(** The backend after the modeset of the detected display was refused for
    want of a matching mode. *)
Definition rejected_backend : wlr_drm_backend :=
  MkBackend
    [MkDisplay DRM_DISP_DISCONNECTED 20 "HDMI-A-1" 0 3 (Some sample_modes)
       None 0 0 None false false false false]
    0 [(0%nat, DRM_EV_DISPLAY_ADD); (0%nat, DRM_EV_DISPLAY_REM)] [].

(** The backend after a second modeset of that display succeeded. *)
Definition retried_backend : wlr_drm_backend :=
  MkBackend [sample_display None false false] 1
    [(0%nat, DRM_EV_DISPLAY_ADD); (0%nat, DRM_EV_DISPLAY_REM)] sample_requests.

(** The backend after the configured display was unplugged. *)
Definition released_backend : wlr_drm_backend :=
  MkBackend
    [MkDisplay DRM_DISP_DISCONNECTED 20 "HDMI-A-1" 40 3 (Some sample_modes)
       (Some 0%nat) 1920 1080 None true true false false]
    1 [(0%nat, DRM_EV_DISPLAY_ADD); (0%nat, DRM_EV_DISPLAY_REM)]
    sample_requests.

(** ** Statements of the state-machine and allocation properties *)

(** Every sequence of scans and modesets, started on the initial backend,
    moves the displays along the edges of the graph only. *)
Definition scans_and_modesets_legal : Prop :=
  forall ops : list op,
    Forall scan_or_modeset ops -> all_steps_on_edges initial_backend ops.

(** In every reachable backend the set bits of the mask are as many as the
    CONNECTED displays, and no CRTC is assigned twice. *)
Definition mask_counts_connected : Prop :=
  forall (ops : list op) (b : wlr_drm_backend),
    run ops initial_backend = Some b ->
    popcount32 (taken_crtcs b) = connected_count b /\ crtcs_exclusive b.

(** Every CONNECTED display holds a CRTC of the list [ids] whose bit is
    set in the mask. *)
Definition owns_taken_crtc (ids : list Z) (b : wlr_drm_backend) : Prop :=
  forall i d,
    displays b !! i = Some d -> state d = DRM_DISP_CONNECTED ->
    exists j, ids !! j = Some (crtc d) /\
              Z.testbit (taken_crtcs b) (Z.of_nat j) = true.

Definition allocation_invariant (ids : list Z) (b : wlr_drm_backend) : Prop :=
  (connected_count b <= popcount32 (taken_crtcs b))%nat /\
  owns_taken_crtc ids b /\
  crtcs_exclusive b.

(** ** Auxiliary notions of the proofs *)

(** What follows a numeral in a request does not continue it. *)
Definition ends_numeral (rest : string) : Prop :=
  match rest with
  | EmptyString => True
  | String c _ => Scanf.digit_of c = None
  end.

(** A call that leaves every state alone and adds only RENDER events. *)
Definition quiet_step (b b' : wlr_drm_backend) : Prop :=
  (exists evs, events b' = events b ++ evs /\
               Forall (fun e => snd e = DRM_EV_RENDER) evs) /\
  taken_crtcs b' = taken_crtcs b /\
  length (displays b') = length (displays b) /\
  forall i d, displays b !! i = Some d ->
    exists d', displays b' !! i = Some d' /\
      state d' = state d /\ crtc d' = crtc d.

(** The events [tys] of display [i], as they stand in the queue. *)
Definition tag (i : nat) (tys : list wlr_drm_event_type)
    : list (nat * wlr_drm_event_type) :=
  (fun ty => (i, ty)) <$> tys.

(** ** What a scan does, slot by slot *)

(** The move of the hotplug state machine for a slot in state [s] whose
    connector reports [c], with the events of the move. *)
Definition hotplug_transition (s : wlr_drm_display_state)
    (c : drmModeConnection)
    : wlr_drm_display_state * list wlr_drm_event_type :=
  match s with
  | DRM_DISP_INVALID | DRM_DISP_DISCONNECTED =>
      if decide (c = DRM_MODE_CONNECTED)
      then (DRM_DISP_NEEDS_MODESET, [DRM_EV_DISPLAY_ADD])
      else (DRM_DISP_DISCONNECTED, [])
  | DRM_DISP_NEEDS_MODESET => (DRM_DISP_NEEDS_MODESET, [])
  | DRM_DISP_CONNECTED =>
      if decide (c = DRM_MODE_CONNECTED)
      then (DRM_DISP_CONNECTED, [])
      else (DRM_DISP_DISCONNECTED, [DRM_EV_DISPLAY_REM])
  end.

(** The body of the connector loop, seen from the display it works on: the
    display it stores back and the events it adds. *)
Definition scan_slot (k : drm_replies) (id : Z) (d : wlr_drm_display)
    : wlr_drm_display * list wlr_drm_event_type :=
  match drmModeGetConnector k id with
  | None => (d, [])
  | Some conn =>
      let disp :=
        if decide (state d = DRM_DISP_INVALID)
        then set_connector_name id (display_name conn)
               (set_state DRM_DISP_DISCONNECTED d)
        else d in
      if decide (state disp = DRM_DISP_DISCONNECTED /\
                 connection conn = DRM_MODE_CONNECTED)
      then (set_state DRM_DISP_NEEDS_MODESET disp, [DRM_EV_DISPLAY_ADD])
      else if decide (state disp = DRM_DISP_CONNECTED /\
                      connection conn <> DRM_MODE_CONNECTED)
      then (set_state DRM_DISP_DISCONNECTED disp, [DRM_EV_DISPLAY_REM])
      else (disp, [])
  end.

(** The table and the events that the connector loop leaves, from index
    [j] on the connector ids that are left. *)
Fixpoint scan_displays (k : drm_replies) (j : nat) (ids : list Z)
    (ds : list wlr_drm_display) : list wlr_drm_display :=
  match ids with
  | [] => ds
  | id :: rest =>
      scan_displays k (S j) rest
        match ds !! j with
        | Some d => <[j := fst (scan_slot k id d)]> ds
        | None => ds
        end
  end.

Fixpoint scan_events (k : drm_replies) (j : nat) (ids : list Z)
    (ds : list wlr_drm_display) : list (nat * wlr_drm_event_type) :=
  match ids with
  | [] => []
  | id :: rest =>
      match ds !! j with
      | Some d =>
          tag j (snd (scan_slot k id d)) ++
          scan_events k (S j) rest (<[j := fst (scan_slot k id d)]> ds)
      | None => scan_events k (S j) rest ds
      end
  end.

(** The scan gets as far as its connector loop: the resources are
    reported, and the table is large enough or can be grown. *)
Definition scan_proceeds (k : drm_replies) (b : wlr_drm_backend)
    (res : drmModeRes) : Prop :=
  drmModeGetResources k = Some res /\
  ((length (connectors res) <= length (displays b))%nat \/ alloc_ok k = true).

(** The table as the growth step of the scan leaves it. *)
Definition grown_table (b : wlr_drm_backend) (res : drmModeRes)
    : list wlr_drm_display :=
  displays b ++
  replicate (length (connectors res) - length (displays b)) new_display.

(** ** The CRTC allocator, in words *)

(** Encoder [enc] can drive the CRTC at index [j]; the CRTC at index [j]
    is not taken. *)
Definition crtc_compatible (enc : drmModeEncoder) (j : nat) : Prop :=
  Z.land (possible_crtcs enc) (crtc_bit j) <> 0.

Definition crtc_free (taken : Z) (j : nat) : Prop :=
  Z.land taken (crtc_bit j) = 0.

(** Encoder [enc] has a CRTC among the first [n] that it can drive and
    that is not taken. *)
Definition encoder_can_take (enc : drmModeEncoder) (taken : Z) (n : nat) : Prop :=
  exists j, (j < n)%nat /\ crtc_compatible enc j /\ crtc_free taken j.

(** ** Displays that are being torn down *)

(** Display [i] has its cleanup-in-progress flag set. *)
Definition tearing_down (i : nat) (b : wlr_drm_backend) : Prop :=
  exists d, displays b !! i = Some d /\ cleanup d = true.

(** A flip completion for [user] makes the handler add a RENDER event:
    the display exists and is not being torn down. *)
Definition renders (b : wlr_drm_backend) (user : nat) : Prop :=
  match displays b !! user with
  | Some d => cleanup d = false
  | None => False
  end.

Global Instance renders_dec (b : wlr_drm_backend) (user : nat) :
  Decision (renders b user).
Proof. unfold renders. destruct (displays b !! user); apply _. Defined.

(** A call that keeps every cleanup flag that is set, and adds no RENDER
    event for a display whose flag is set. *)
Definition mute_step (b b' : wlr_drm_backend) : Prop :=
  (forall i, tearing_down i b -> tearing_down i b') /\
  exists evs,
    events b' = events b ++ evs /\
    forall i, tearing_down i b -> (i, DRM_EV_RENDER) ∉ evs.

(** ** The renderer: [egl_exts], [egl_get_config],
       [wlr_drm_renderer_init] and [wlr_drm_renderer_free] *)

Module Renderer.

(** The fourcc code 'XR24' of gbm.h. *)
Definition GBM_FORMAT_XRGB8888 : Z := 875713112.

(** What EGL and GBM answer during one call of the renderer: whether an
    entry point resolves, the handles that are created ([None] for [NULL],
    [EGL_NO_DISPLAY] and [EGL_NO_CONTEXT]), the number of configurations
    ([None] for [EGL_FALSE]), the configurations that [eglChooseConfig] has
    to offer, and the native visual id of a configuration. *)
Record egl_replies : Type := MkEglReplies {
  eglGetProcAddress : string -> bool;
  gbm_create_device : option Z;
  eglBindAPI : bool;
  get_platform_display : option Z;
  eglInitialize : bool;
  eglGetConfigs : option nat;
  eglChooseConfig : option (list Z);
  eglGetConfigAttrib : Z -> option Z;
  eglCreateContext : option Z
}.

(** Modelled from the spec: [struct wlr_drm_renderer] is declared in
    drm.h; it holds the buffer-manager device, the rendering display,
    configuration and context, the descriptor and the back pointer to the
    backend ([backend] says whether that pointer is set). *)
Record wlr_drm_renderer : Type := MkRenderer {
  fd : option Z;
  gbm : option Z;
  egl_disp : option Z;
  egl_conf : option Z;
  egl_context : option Z;
  backend : bool
}.

(** The calls that create or release something, as the libraries see
    them. *)
Inductive renderer_call : Type :=
| GbmCreateDevice (dev : Z)
| EglGetPlatformDisplay (disp : Z)
| EglCreateContext (disp : option Z) (ctx : Z)
| EglDestroyContext (disp ctx : option Z)
| EglTerminate (disp : option Z)
| EglReleaseThread
| EglMakeCurrentNone
| GbmDeviceDestroy (dev : option Z).

Definition egl_exts (k : egl_replies) : bool :=
  eglGetProcAddress k "eglGetPlatformDisplayEXT" &&
  eglGetProcAddress k "eglCreatePlatformWindowSurfaceEXT".

(** [for (int i = 0; i < matched; ++i)] on the configurations that are
    left. *)
Fixpoint config_loop (k : egl_replies) (configs : list Z) : option Z :=
  match configs with
  | [] => None
  | c :: rest =>
      match eglGetConfigAttrib k c with
      | None => config_loop k rest
      | Some gbm_format =>
          if gbm_format =? GBM_FORMAT_XRGB8888 then Some c
          else config_loop k rest
      end
  end.

(** [eglChooseConfig] fills at most [count] entries of the array, and
    [matched] is the number it has filled.  The result is the
    configuration stored into [*out], if the function returns true. *)
Definition egl_get_config (k : egl_replies) : option Z :=
  match eglGetConfigs k with
  | None => None
  | Some count =>
      if decide (count = 0%nat) then None
      else
        match eglChooseConfig k with
        | None => None
        | Some configs => config_loop k (take count configs)
        end
  end.

(** The labels [error_gbm:] and [error_egl:]. *)
Definition error_gbm (r : wlr_drm_renderer) (log : list renderer_call)
    : bool * wlr_drm_renderer * list renderer_call :=
  (false, r, log ++ [GbmDeviceDestroy (gbm r)]).

Definition error_egl (r : wlr_drm_renderer) (log : list renderer_call)
    : bool * wlr_drm_renderer * list renderer_call :=
  error_gbm r
    (log ++ [EglTerminate (egl_disp r); EglReleaseThread; EglMakeCurrentNone]).

(** The result, the renderer as the call leaves it, and the calls made. *)
Definition wlr_drm_renderer_init (k : egl_replies) (r : wlr_drm_renderer)
    (descriptor : Z) : bool * wlr_drm_renderer * list renderer_call :=
  if negb (egl_exts k) then (false, r, [])
  else
    let r := MkRenderer (fd r) (gbm_create_device k) (egl_disp r)
               (egl_conf r) (egl_context r) (backend r) in
    match gbm r with
    | None => (false, r, [])
    | Some dev =>
        let log := [GbmCreateDevice dev] in
        if negb (eglBindAPI k) then error_gbm r log
        else
          let r := MkRenderer (fd r) (gbm r) (get_platform_display k)
                     (egl_conf r) (egl_context r) (backend r) in
          match egl_disp r with
          | None => error_gbm r log
          | Some disp =>
              let log := log ++ [EglGetPlatformDisplay disp] in
              if negb (eglInitialize k) then error_egl r log
              else
                match egl_get_config k with
                | None => error_egl r log
                | Some conf =>
                    let r := MkRenderer (fd r) (gbm r) (egl_disp r)
                               (Some conf) (eglCreateContext k) (backend r) in
                    match egl_context r with
                    | None => error_egl r log
                    | Some ctx =>
                        (true,
                         MkRenderer (Some descriptor) (gbm r) (egl_disp r)
                           (egl_conf r) (egl_context r) true,
                         log ++ [EglCreateContext (egl_disp r) ctx])
                    end
                end
          end
    end.

(** [renderer] is the pointer given: [None] is [NULL]. *)
Definition wlr_drm_renderer_free (renderer : option wlr_drm_renderer)
    : list renderer_call :=
  match renderer with
  | None => []
  | Some r =>
      [EglDestroyContext (egl_disp r) (egl_context r);
       EglTerminate (egl_disp r);
       EglReleaseThread;
       EglMakeCurrentNone;
       GbmDeviceDestroy (gbm r)]
  end.

(** *** What is held after a sequence of calls *)

Inductive resource : Type :=
| Device (dev : Z)
| Display (disp : Z)
| Context (ctx : Z).

Global Instance resource_eq_dec : EqDecision resource.
Proof. solve_decision. Defined.

Definition release (x : resource) (held : list resource) : list resource :=
  filter (fun y => y <> x) held.

(** The effect of one call on what is held: a creation adds the handle, a
    destruction of a handle that is held removes it. *)
Definition after_call (held : list resource) (c : renderer_call)
    : list resource :=
  match c with
  | GbmCreateDevice dev => held ++ [Device dev]
  | EglGetPlatformDisplay disp => held ++ [Display disp]
  | EglCreateContext _ ctx => held ++ [Context ctx]
  | EglDestroyContext _ (Some ctx) => release (Context ctx) held
  | EglTerminate (Some disp) => release (Display disp) held
  | GbmDeviceDestroy (Some dev) => release (Device dev) held
  | _ => held
  end.

Definition held_after (log : list renderer_call) : list resource :=
  foldl after_call [] log.

(** A renderer that has nothing yet. *)
Definition blank : wlr_drm_renderer :=
  MkRenderer None None None None None false.

(** Replies with which every step of the initialisation succeeds. *)
Definition all_fine : egl_replies :=
  MkEglReplies (fun _ => true) (Some 1) true (Some 2) true (Some 3%nat)
    (Some [10; 11; 12])
    (fun c => if c =? 11 then Some GBM_FORMAT_XRGB8888 else Some 0)
    (Some 4).

(** The same, except that no context can be created. *)
Definition no_context : egl_replies :=
  MkEglReplies (fun _ => true) (Some 1) true (Some 2) true (Some 3%nat)
    (Some [10; 11; 12])
    (fun c => if c =? 11 then Some GBM_FORMAT_XRGB8888 else Some 0)
    None.

End Renderer.

(** ** Framebuffers of buffer objects: [get_fb_for_bo] and [free_fb] *)

Module Framebuffer.

(** The user data of the buffer objects (a buffer object is a number; its
    user data, when set, points to one [uint32_t], the value of which is
    kept here) and, on the device's side, the framebuffers that are
    registered. *)
Record fb_state : Type := MkFbState {
  user_data : gmap nat Z;
  framebuffers : gset Z
}.

(** Whether [calloc] succeeds, and the id that [drmModeAddFB] stores
    ([None] when it fails and stores nothing). *)
Record fb_replies : Type := MkFbReplies {
  calloc_ok : bool;
  drmModeAddFB : option Z
}.

(** The id returned, and the state the call leaves. *)
Definition get_fb_for_bo (k : fb_replies) (bo : nat) (s : fb_state)
    : Z * fb_state :=
  match user_data s !! bo with
  | Some id => (id, s)
  | None =>
      if negb (calloc_ok k) then (0, s)
      else
        let id := match drmModeAddFB k with Some new => new | None => 0 end in
        (id,
         MkFbState (<[bo := id]> (user_data s))
           match drmModeAddFB k with
           | Some new => {[new]} ∪ framebuffers s
           | None => framebuffers s
           end)
  end.








Definition no_buffers : fb_state := MkFbState ∅ ∅.

End Framebuffer.

(** ** The order of the hotplug events of a display *)

(** A display that has been announced with ADD and not yet withdrawn with
    REM. *)
Definition announced (s : wlr_drm_display_state) : bool :=
  match s with
  | DRM_DISP_NEEDS_MODESET | DRM_DISP_CONNECTED => true
  | DRM_DISP_INVALID | DRM_DISP_DISCONNECTED => false
  end.

(** Every modeset of the sequence is asked for a display that is in state
    NEEDS_MODESET or CONNECTED at that moment. *)
Fixpoint modesets_when_announced (b : wlr_drm_backend) (ops : list op) : Prop :=
  match ops with
  | [] => True
  | o :: rest =>
      match o with
      | Modeset _ i _ => announced (state_at b i) = true
      | _ => True
      end /\
      match step o b with
      | Some b' => modesets_when_announced b' rest
      | None => True
      end
  end.

(** [alternates a tys]: starting from a display that is announced or not
    ([a]), the events [tys] are ADD and REM in turn, an ADD only for a
    display that is not announced and a REM only for one that is; the
    result says whether the display is announced after them. *)
Fixpoint alternates (a : bool) (tys : list wlr_drm_event_type) : option bool :=
  match tys with
  | [] => Some a
  | DRM_EV_DISPLAY_ADD :: rest => if a then None else alternates true rest
  | DRM_EV_DISPLAY_REM :: rest => if a then alternates false rest else None
  | DRM_EV_RENDER :: _ => None
  end.

(** ** Modeset and the surface replies *)

(** The replies [k], except that the creation of the GBM surface answers
    [g] and the creation of the EGL window surface answers [w]. *)
Definition with_surfaces (g w : bool) (k : drm_replies) : drm_replies :=
  MkReplies (drmModeGetResources k) (drmModeGetConnector k)
    (drmModeGetEncoder k) (drmModeGetCrtc k) (alloc_ok k) g w
    (get_fb_for_bo k).

(** ** The mode as the backend prints it *)

(** [%u] of a value that fits an unsigned. *)
Definition decimal (v : Z) : string :=
  NilZero.string_of_uint (N.to_uint (Z.to_N v)).

(** The mode in the message ["Configuring %s with mode %ux%u@%u\n"] that a
    modeset prints for the mode it has selected. *)
Definition mode_text (m : drmModeModeInfo) : string :=
  (decimal (hdisplay m) ++ "x" ++ decimal (vdisplay m) ++ "@" ++
   decimal (vrefresh m))%string.

(** The members that the message prints fit an unsigned. *)
Definition printable (m : drmModeModeInfo) : Prop :=
  0 <= hdisplay m < 2 ^ 32 /\ 0 <= vdisplay m < 2 ^ 32 /\
  0 <= vrefresh m < 2 ^ 32.

(** * Proofs *)

(** ** Mode selection *)

Lemma mode_loop_spec (test : drmModeModeInfo -> bool)
    (ms : list drmModeModeInfo) (i0 : nat) :
  match mode_loop test ms i0 with
  | Some i =>
      exists n m, i = (i0 + n)%nat /\ ms !! n = Some m /\ test m = true /\
        forall j m', (j < n)%nat -> ms !! j = Some m' -> test m' = false
  | None => forall m, m ∈ ms -> test m = false
  end.
Proof.
  revert i0. induction ms as [|m ms IH]; intros i0; simpl.
  - intros m Hm. inversion Hm.
  - destruct (test m) eqn:Ht.
    + exists 0%nat, m. repeat split; [lia | done | lia].
    + specialize (IH (S i0)). destruct (mode_loop test ms (S i0)) as [i|].
      * destruct IH as (n & m' & -> & Hl & Ht' & Hlt).
        exists (S n), m'. repeat split; [lia | done | done |].
        intros [|j] m'' Hj Hm''; simpl in Hm''.
        -- by inversion Hm''; subst.
        -- apply (Hlt j); [lia | done].
      * intros m' Hm'. apply elem_of_cons in Hm' as [-> | Hm']; auto.
Qed.

Lemma mode_loop_first_match (P : drmModeModeInfo -> Prop)
    (test : drmModeModeInfo -> bool) (ms : list drmModeModeInfo) :
  (forall m, test m = true <-> P m) ->
  first_match P ms (mode_loop test ms 0).
Proof.
  intros HP. pose proof (mode_loop_spec test ms 0) as H.
  unfold first_match. destruct (mode_loop test ms 0) as [i|].
  - destruct H as (n & m & -> & Hl & Ht & Hlt). simpl. split.
    + exists m. split; [done | by apply HP].
    + intros j m' Hj Hm' HPm'. apply HP in HPm'.
      rewrite (Hlt j m' Hj Hm') in HPm'. discriminate.
  - intros m Hm HPm. apply HP in HPm. rewrite (H m Hm) in HPm. discriminate.
Qed.

Lemma digit_is_plain (c : ascii) (d : Z) :
  Scanf.digit_of c = Some d ->
  Scanf.isspace c = false /\ c <> "-"%char /\ c <> "+"%char /\
  Ascii.eqb c "p" = false /\ Ascii.eqb c "c" = false /\ 0 <= d.
Proof.
  destruct c as [[] [] [] [] [] [] [] []]; vm_compute; intros H;
    try discriminate; inversion H; subst;
    repeat split; try discriminate; congruence.
Qed.

Lemma scan_digits_numeral (s rest : string) (acc v : Z) :
  numeral_from acc s = Some v -> ends_numeral rest ->
  Scanf.scan_digits acc (s ++ rest)%string = (v, rest).
Proof.
  revert acc. induction s as [|c s IH]; intros acc Hv Hrest; simpl in *.
  - inversion Hv; subst. destruct rest as [|c r]; simpl in *; [done|].
    by rewrite Hrest.
  - destruct (Scanf.digit_of c); [|discriminate]. by apply IH.
Qed.

Lemma numeral_from_nonneg (s : string) (acc v : Z) :
  numeral_from acc s = Some v -> 0 <= acc -> 0 <= v.
Proof.
  revert acc. induction s as [|c s IH]; intros acc Hv Hacc; simpl in *.
  - inversion Hv; subst; done.
  - destruct (Scanf.digit_of c) as [d|] eqn:Hd; [|discriminate].
    apply digit_is_plain in Hd. apply (IH _ Hv). lia.
Qed.

Lemma numeral_nonneg (s : string) (v : Z) : numeral s = Some v -> 0 <= v.
Proof.
  destruct s; [discriminate|]. intros H.
  by apply (numeral_from_nonneg _ 0 v H).
Qed.

Lemma scan_uint_numeral (s rest : string) (v : Z) :
  numeral s = Some v -> ends_numeral rest ->
  Scanf.scan_uint (s ++ rest)%string = Some (Scanf.to_unsigned v, rest).
Proof.
  intros Hv Hrest. destruct s as [|c s]; [discriminate|].
  unfold numeral in Hv. pose proof Hv as Hv'. simpl in Hv'.
  destruct (Scanf.digit_of c) as [d|] eqn:Hd; [|discriminate].
  destruct (digit_is_plain c d Hd) as (Hsp & Hm & Hp & _).
  unfold Scanf.scan_uint. simpl Scanf.skip_space. rewrite Hsp.
  assert ((match String c (s ++ rest) with
           | String "-" r => (true, r)
           | String "+" r => (false, r)
           | _ => (false, String c (s ++ rest))
           end) = (false, String c (s ++ rest)%string)) as ->.
  { destruct c as [[] [] [] [] [] [] [] []]; try reflexivity; congruence. }
  rewrite Hd.
  change (String c (s ++ rest)) with ((String c s) ++ rest)%string.
  by rewrite (scan_digits_numeral _ _ _ _ Hv Hrest).
Qed.

Lemma to_unsigned_fits (v : Z) :
  0 <= v -> fits_unsigned v -> Scanf.to_unsigned v = v.
Proof. intros ? ?. apply Z.mod_small. unfold fits_unsigned in *. lia. Qed.

Lemma append_String (c : ascii) (s t : string) :
  (String c s ++ t)%string = String c (s ++ t)%string.
Proof. reflexivity. Qed.

Lemma append_Empty (t : string) : ("" ++ t)%string = t.
Proof. reflexivity. Qed.

Lemma append_Empty_r (s : string) : (s ++ "")%string = s.
Proof. induction s as [|c s IH]; [done|]. by rewrite append_String, IH. Qed.

(** [sscanf] on a request without a rate: two conversions. *)
Lemma sscanf_size (ws hs : string) (w h : Z) :
  numeral ws = Some w -> numeral hs = Some h ->
  Scanf.sscanf_uxu_at_u (numeric_request ws hs None) =
  (2, Scanf.to_unsigned w, Scanf.to_unsigned h, 0).
Proof.
  intros Hw Hh. unfold Scanf.sscanf_uxu_at_u, numeric_request.
  rewrite (scan_uint_numeral ws _ w Hw); [|reflexivity].
  rewrite append_String, append_Empty.
  by rewrite (scan_uint_numeral hs "" h Hh).
Qed.

(** [sscanf] on a request with a rate: three conversions. *)
Lemma sscanf_size_rate (ws hs rs : string) (w h r : Z) :
  numeral ws = Some w -> numeral hs = Some h -> numeral rs = Some r ->
  Scanf.sscanf_uxu_at_u (numeric_request ws hs (Some rs)) =
  (3, Scanf.to_unsigned w, Scanf.to_unsigned h, Scanf.to_unsigned r).
Proof.
  intros Hw Hh Hr. unfold Scanf.sscanf_uxu_at_u, numeric_request.
  rewrite (scan_uint_numeral ws _ w Hw); [|reflexivity].
  rewrite append_String, append_Empty.
  rewrite (scan_uint_numeral hs _ h Hh); [|reflexivity].
  rewrite append_String, append_Empty.
  rewrite <- (append_Empty_r rs).
  by rewrite (scan_uint_numeral rs "" r Hr).
Qed.

(** A request in the numeric form is neither of the two keywords. *)
Lemma numeric_request_not_keyword (ws hs : string) (rs : option string) (w : Z) :
  numeral ws = Some w ->
  String.eqb (numeric_request ws hs rs) "preferred" = false /\
  String.eqb (numeric_request ws hs rs) "current" = false.
Proof.
  intros Hw. destruct ws as [|c ws]; [discriminate|].
  unfold numeral in Hw. simpl in Hw.
  destruct (Scanf.digit_of c) as [d|] eqn:Hd; [|discriminate].
  destruct (digit_is_plain c d Hd) as (_ & _ & _ & Hp & Hc & _).
  unfold numeric_request. rewrite append_String.
  unfold String.eqb; fold String.eqb. by rewrite Hp, Hc.
Qed.

(** The selection of a numeric request, as the loop computes it. *)
Lemma select_mode_numeric (ms : list drmModeModeInfo)
    (old : option drmModeCrtc) (ws hs : string) (rs : option string)
    (w h : Z) (rate : option Z) :
  numeral ws = Some w -> numeral hs = Some h ->
  requested_rate rs = Some rate ->
  select_mode ms old (numeric_request ws hs rs) =
  Returns (mode_loop
             (numeric_test (Scanf.to_unsigned w) (Scanf.to_unsigned h)
                (match rate with
                 | Some r => Scanf.to_unsigned r
                 | None => 0
                 end))
             ms 0).
Proof.
  intros Hw Hh Hr. unfold select_mode.
  destruct (numeric_request_not_keyword ws hs rs w Hw) as [-> ->].
  destruct rs as [rs|]; simpl in Hr.
  - destruct (numeral rs) as [r|] eqn:Hrs; [|discriminate].
    inversion Hr; subst.
    by rewrite (sscanf_size_rate ws hs rs w h r Hw Hh Hrs).
  - inversion Hr; subst. by rewrite (sscanf_size ws hs w h Hw Hh).
Qed.

(** Sample selections. *)

Example select_mode_sample_rate :
  select_mode sample_modes None "1920x1080@30" = Returns (Some 2%nat).
Proof. vm_compute. reflexivity. Qed.

Example select_mode_sample_size :
  select_mode sample_modes None "1920x1080" = Returns (Some 0%nat).
Proof. vm_compute. reflexivity. Qed.

Example select_mode_sample_no_match :
  select_mode sample_modes None "1280x720@61" = Returns None.
Proof. vm_compute. reflexivity. Qed.

Example select_mode_sample_invalid :
  select_mode sample_modes None "widest" = Returns None.
Proof. vm_compute. reflexivity. Qed.

Example select_mode_sample_current :
  select_mode sample_modes (Some sample_crtc) "current" = Returns (Some 1%nat).
Proof. vm_compute. reflexivity. Qed.

Example select_mode_sample_current_missing :
  select_mode full_hd_60 (Some sample_crtc) "current" = AssertFails.
Proof. vm_compute. reflexivity. Qed.

Lemma numeric_test_nonzero (w h : Z) (rate : option Z) (m : drmModeModeInfo) :
  numeric_test w h (match rate with Some r => r | None => 0 end) m = true <->
  matches_request_nonzero w h rate m.
Proof.
  unfold numeric_test, matches_request_nonzero.
  rewrite !andb_true_iff, orb_true_iff, !Z.eqb_eq.
  destruct rate as [r|]; intuition.
Qed.

(** C7 (as stated): a rate that is given must be matched exactly.  This
    fails for the rate 0: the request 1920x1080@0 selects the 60 Hz mode of
    a list that has no mode with refresh rate 0. *)
Lemma numeric_selection_exact_rate_fails :
  ~ numeric_selection matches_request.
Proof.
  intros H.
  destruct (H full_hd_60 None "1920" "1080" (Some "0") 1920 1080 (Some 0))
    as (res & Hsel & Hfirst);
    try reflexivity; try discriminate.
  { intros r [= <-]. reflexivity. }
  vm_compute in Hsel. inversion Hsel; subst res.
  destruct Hfirst as [(m & Hm & _ & _ & Hrate) _].
  vm_compute in Hm. inversion Hm; subst m. discriminate Hrate.
Qed.

(** C7 (amended): for every non-empty mode list and every request
    [<width>x<height>] or [<width>x<height>@<rate>] whose numerals fit an
    unsigned, [select_mode] returns the first mode in list order whose
    width and height equal the requested ones and, when a rate other than
    zero is given, whose refresh rate equals it; without a rate, or with
    the rate 0, any refresh rate matches; it returns [NULL] when no mode
    matches. *)
Theorem select_mode_numeric_first_match
    (ms : list drmModeModeInfo) (old : option drmModeCrtc)
    (ws hs : string) (rs : option string) (w h : Z) (rate : option Z) :
  ms <> [] ->
  numeral ws = Some w -> numeral hs = Some h ->
  requested_rate rs = Some rate ->
  fits_unsigned w -> fits_unsigned h ->
  (forall r, rate = Some r -> fits_unsigned r) ->
  exists res,
    select_mode ms old (numeric_request ws hs rs) = Returns res /\
    first_match (matches_request_nonzero w h rate) ms res.
Proof.
  intros _ Hw Hh Hr Fw Fh Fr.
  eexists. split; [by apply (select_mode_numeric ms old ws hs rs w h rate)|].
  rewrite (to_unsigned_fits w), (to_unsigned_fits h);
    eauto using numeral_nonneg.
  apply mode_loop_first_match. intros m.
  rewrite <- numeric_test_nonzero.
  destruct rate as [r|]; [|done].
  rewrite (to_unsigned_fits r); [done | | by apply Fr].
  destruct rs as [rs|]; simpl in Hr; [|discriminate].
  destruct (numeral rs) as [r'|] eqn:Hrs; [|discriminate].
  inversion Hr; subst. by apply (numeral_nonneg rs).
Qed.

Lemma select_mode_numeric_first_match_witness :
  exists res,
    select_mode sample_modes None (numeric_request "1920" "1080" (Some "30"))
    = Returns res /\
    first_match (matches_request_nonzero 1920 1080 (Some 30)) sample_modes res.
Proof.
  apply (select_mode_numeric_first_match sample_modes None
           "1920" "1080" (Some "30") 1920 1080 (Some 30)).
  - discriminate.
  - reflexivity.
  - reflexivity.
  - reflexivity.
  - reflexivity.
  - reflexivity.
  - intros r Hr. inversion Hr. reflexivity.
Defined.

(** C10: a request whose rate is the numeral 0 is accepted and selects
    exactly what the request without a rate selects: the first mode with
    the requested width and height, whatever its refresh rate. *)
Theorem select_mode_rate_zero
    (ms : list drmModeModeInfo) (old : option drmModeCrtc)
    (ws hs zs : string) (w h : Z) :
  numeral ws = Some w -> numeral hs = Some h -> numeral zs = Some 0 ->
  fits_unsigned w -> fits_unsigned h ->
  select_mode ms old (numeric_request ws hs (Some zs)) =
  select_mode ms old (numeric_request ws hs None) /\
  exists res,
    select_mode ms old (numeric_request ws hs (Some zs)) = Returns res /\
    first_match (fun m => hdisplay m = w /\ vdisplay m = h) ms res.
Proof.
  intros Hw Hh Hz Fw Fh.
  assert (requested_rate (Some zs) = Some (Some 0)) as Hr.
  { simpl. by rewrite Hz. }
  rewrite (select_mode_numeric ms old ws hs (Some zs) w h (Some 0) Hw Hh Hr).
  rewrite (select_mode_numeric ms old ws hs None w h None Hw Hh eq_refl).
  split; [reflexivity|].
  eexists. split; [reflexivity|].
  rewrite (to_unsigned_fits w), (to_unsigned_fits h);
    eauto using numeral_nonneg.
  apply mode_loop_first_match. intros m.
  unfold numeric_test. change (Scanf.to_unsigned 0) with 0.
  rewrite !andb_true_iff, !Z.eqb_eq. simpl. intuition.
Qed.

Lemma select_mode_rate_zero_witness :
  select_mode sample_modes None (numeric_request "1920" "1080" (Some "0")) =
  select_mode sample_modes None (numeric_request "1920" "1080" None) /\
  exists res,
    select_mode sample_modes None (numeric_request "1920" "1080" (Some "0"))
    = Returns res /\
    first_match (fun m => hdisplay m = 1920 /\ vdisplay m = 1080)
      sample_modes res.
Proof.
  apply (select_mode_rate_zero sample_modes None "1920" "1080" "0" 1920 1080);
    reflexivity.
Defined.

(** C9: for every mode list and every optional snapshot, the request
    [preferred] returns [&modes[0]], the mode at index 0, whatever the
    list contains. *)
Theorem select_mode_preferred
    (ms : list drmModeModeInfo) (old : option drmModeCrtc) :
  select_mode ms old "preferred" = Returns (Some 0%nat) /\
  ms !! 0%nat = head ms.
Proof. split; [reflexivity | by destruct ms]. Qed.

(** C8: the request [current] without a snapshot returns [NULL]; with a
    snapshot it returns the first mode equal, member by member, to the
    snapshot's mode, and when the list has no such mode the call does not
    return a failure but stops at [assert(0)]. *)
Theorem select_mode_current (ms : list drmModeModeInfo) :
  select_mode ms None "current" = Returns None /\
  forall crtc,
    match select_mode ms (Some crtc) "current" with
    | Returns (Some i) =>
        ms !! i = Some (mode crtc) /\
        forall j, (j < i)%nat -> ms !! j <> Some (mode crtc)
    | Returns None => False
    | AssertFails => mode crtc ∉ ms
    end.
Proof.
  split; [reflexivity|]. intros crtc.
  change (select_mode ms (Some crtc) "current") with
    (match mode_loop (fun m => memcmp_mode_eq m (mode crtc)) ms 0 with
     | Some i => Returns (Some i)
     | None => AssertFails
     end).
  pose proof (mode_loop_first_match (fun m => m = mode crtc)
                (fun m => memcmp_mode_eq m (mode crtc)) ms) as H.
  destruct (mode_loop _ ms 0) as [i|]; simpl in H.
  - destruct H as [(m & Hm & ->) Hlt]; [intros; apply bool_decide_eq_true|].
    split; [done|]. intros j Hj Hjm. by apply (Hlt j (mode crtc)).
  - intros Hin. apply (H (fun m => bool_decide_eq_true _) _ Hin eq_refl).
Qed.

(** ** The display table *)

Lemma state_at_lookup (b : wlr_drm_backend) (i : nat) (d : wlr_drm_display) :
  displays b !! i = Some d -> state_at b i = state d.
Proof. unfold state_at. by intros ->. Qed.

Lemma lookup_set_display (b : wlr_drm_backend) (i j : nat)
    (d : wlr_drm_display) :
  displays (set_display i d b) !! j =
  if decide (i = j /\ (i < length (displays b))%nat) then Some d
  else displays b !! j.
Proof. apply list_lookup_insert. Qed.

Lemma lookup_set_display_eq (b : wlr_drm_backend) (i : nat)
    (d0 d : wlr_drm_display) :
  displays b !! i = Some d0 -> displays (set_display i d b) !! i = Some d.
Proof.
  intros H. simpl. apply list_lookup_insert_eq. by eapply lookup_lt_Some.
Qed.

Lemma lookup_set_display_ne (b : wlr_drm_backend) (i j : nat)
    (d : wlr_drm_display) :
  i <> j -> displays (set_display i d b) !! j = displays b !! j.
Proof. intros H. simpl. by apply list_lookup_insert_ne. Qed.

Lemma state_at_set_display_ne (b : wlr_drm_backend) (i j : nat)
    (d : wlr_drm_display) :
  i <> j -> state_at (set_display i d b) j = state_at b j.
Proof. intros H. unfold state_at. by rewrite lookup_set_display_ne. Qed.

Lemma state_at_add_event (b : wlr_drm_backend) (i j : nat)
    (ty : wlr_drm_event_type) :
  state_at (wlr_drm_add_event b i ty) j = state_at b j.
Proof. reflexivity. Qed.

(** ** Walks of the state graph *)

Lemma walk_one (s1 s2 : wlr_drm_display_state)
    (e : option wlr_drm_event_type) :
  edge s1 e s2 -> walk s1 (option_list e) s2.
Proof.
  intros H. rewrite <- (app_nil_r (option_list e)).
  eapply walk_edge; [done | apply walk_stay].
Qed.

Lemma walk_app (s1 s2 s3 : wlr_drm_display_state)
    (e1 e2 : list wlr_drm_event_type) :
  walk s1 e1 s2 -> walk s2 e2 s3 -> walk s1 (e1 ++ e2) s3.
Proof.
  induction 1 as [|s1 e s2 evs s2' He Hw IH]; intros H2; [done|].
  rewrite <- app_assoc. eapply walk_edge; [done | by apply IH].
Qed.

Lemma hotplug_events_app (i : nat) (e1 e2 : list (nat * wlr_drm_event_type)) :
  hotplug_events i (e1 ++ e2) = hotplug_events i e1 ++ hotplug_events i e2.
Proof. unfold hotplug_events. by rewrite filter_app, fmap_app. Qed.

Lemma hotplug_events_one (i j : nat) (ty : wlr_drm_event_type) :
  hotplug_events i [(j, ty)] =
  if decide (j = i /\ ty <> DRM_EV_RENDER) then [ty] else [].
Proof.
  unfold hotplug_events. rewrite filter_cons, filter_nil. simpl.
  by repeat case_decide.
Qed.

Lemma legal_step_refl (b : wlr_drm_backend) : legal_step b b.
Proof.
  exists []. split; [by rewrite app_nil_r | intros i; apply walk_stay].
Qed.

Lemma legal_step_trans (b1 b2 b3 : wlr_drm_backend) :
  legal_step b1 b2 -> legal_step b2 b3 -> legal_step b1 b3.
Proof.
  intros (e1 & He1 & H1) (e2 & He2 & H2). exists (e1 ++ e2). split.
  - by rewrite He2, He1, app_assoc.
  - intros i. rewrite hotplug_events_app. by eapply walk_app.
Qed.

Lemma quiet_step_refl (b : wlr_drm_backend) : quiet_step b b.
Proof.
  split; [exists []; split; [by rewrite app_nil_r | constructor]|].
  repeat split; eauto.
Qed.

Lemma quiet_step_trans (b1 b2 b3 : wlr_drm_backend) :
  quiet_step b1 b2 -> quiet_step b2 b3 -> quiet_step b1 b3.
Proof.
  intros ((e1 & He1 & F1) & T1 & L1 & D1) ((e2 & He2 & F2) & T2 & L2 & D2).
  split; [|repeat split; try congruence].
  - exists (e1 ++ e2). split; [by rewrite He2, He1, app_assoc|].
    by apply Forall_app.
  - intros i d Hd. destruct (D1 i d Hd) as (d1 & Hd1 & S1 & C1).
    destruct (D2 i d1 Hd1) as (d2 & Hd2 & S2 & C2).
    exists d2. repeat split; congruence.
Qed.

Lemma quiet_step_state_at (b b' : wlr_drm_backend) (i : nat) :
  quiet_step b b' -> state_at b' i = state_at b i.
Proof.
  intros (_ & _ & L & D). unfold state_at.
  destruct (displays b !! i) as [d|] eqn:Hd.
  - destruct (D i d Hd) as (d' & -> & S & _). done.
  - apply lookup_ge_None in Hd. rewrite <- L in Hd.
    apply lookup_ge_None in Hd. by rewrite Hd.
Qed.

Lemma hotplug_events_render (i : nat) (evs : list (nat * wlr_drm_event_type)) :
  Forall (fun e => snd e = DRM_EV_RENDER) evs -> hotplug_events i evs = [].
Proof.
  induction 1 as [|e evs He _ IH]; [done|].
  change (e :: evs) with ([e] ++ evs). rewrite hotplug_events_app, IH.
  destruct e as [j ty]. simpl in He. subst ty. rewrite hotplug_events_one.
  case_decide as H; [by destruct H|done].
Qed.

Lemma quiet_step_legal (b b' : wlr_drm_backend) :
  quiet_step b b' -> legal_step b b'.
Proof.
  intros Hq. pose proof Hq as ((evs & He & F) & _).
  exists evs. split; [done|]. intros i.
  rewrite (hotplug_events_render i evs F), (quiet_step_state_at b b' i Hq).
  apply walk_stay.
Qed.

(** Replacing a display by one with the same state and CRTC is quiet. *)
Lemma quiet_set_display (b : wlr_drm_backend) (i : nat)
    (d d' : wlr_drm_display) :
  displays b !! i = Some d -> state d' = state d -> crtc d' = crtc d ->
  quiet_step b (set_display i d' b).
Proof.
  intros Hd Hs Hc. split; [exists []; split; [by rewrite app_nil_r|constructor]|].
  split; [done|]. split; [apply length_insert|].
  intros j dj Hj. destruct (decide (i = j)) as [->|Hne].
  - exists d'. rewrite (lookup_set_display_eq b j d d' Hd).
    rewrite Hd in Hj. inversion Hj; subst. done.
  - exists dj. by rewrite lookup_set_display_ne.
Qed.

Lemma quiet_add_render (b : wlr_drm_backend) (i : nat) :
  quiet_step b (wlr_drm_add_event b i DRM_EV_RENDER).
Proof.
  split; [exists [(i, DRM_EV_RENDER)]; split; [done|by repeat constructor]|].
  repeat split; eauto.
Qed.

Lemma quiet_send_request (b : wlr_drm_backend) (r : drm_request) :
  quiet_step b (send_request r b).
Proof.
  split; [exists []; split; [by rewrite app_nil_r|constructor]|].
  repeat split; eauto.
Qed.

(** ** Page flips *)

Lemma pending_lookup (b : wlr_drm_backend) (i : nat) (d : wlr_drm_display) :
  displays b !! i = Some d -> pending i b = pageflip_pending d.
Proof. unfold pending. by intros ->. Qed.

(** The handler, for a display of the table: the flag it stores and the
    event it adds. *)
Lemma page_flip_handler_spec (b : wlr_drm_backend) (user : nat)
    (d : wlr_drm_display) :
  displays b !! user = Some d ->
  pending user (page_flip_handler user b) = true /\
  events (page_flip_handler user b) =
    events b ++ (if cleanup d then [] else [(user, DRM_EV_RENDER)]).
Proof.
  intros Hd. unfold page_flip_handler. rewrite Hd.
  assert (pending user (set_display user (set_pageflip_pending true d) b)
          = true) as Hp.
  { by rewrite (pending_lookup _ _ _ (lookup_set_display_eq b user d _ Hd)). }
  destruct (cleanup d); simpl; [by rewrite app_nil_r|done].
Qed.

Lemma page_flip_handler_quiet (b : wlr_drm_backend) (user : nat) :
  quiet_step b (page_flip_handler user b).
Proof.
  unfold page_flip_handler.
  destruct (displays b !! user) as [d|] eqn:Hd; [|apply quiet_step_refl].
  assert (quiet_step b (set_display user (set_pageflip_pending true d) b))
    as Hq by by apply (quiet_set_display b user d).
  destruct (cleanup d); [done|].
  eapply quiet_step_trans; [done | apply quiet_add_render].
Qed.

(** The handler never clears a flag that is set, whichever display it is
    called for. *)
Lemma page_flip_handler_keeps_pending (b : wlr_drm_backend) (user i : nat) :
  pending i b = true -> pending i (page_flip_handler user b) = true.
Proof.
  intros Hp. destruct (displays b !! user) as [d|] eqn:Hd.
  - destruct (decide (user = i)) as [->|Hne].
    + by apply (page_flip_handler_spec b i d).
    + unfold page_flip_handler. rewrite Hd.
      assert (pending i (set_display user (set_pageflip_pending true d) b)
              = true) as Hp'.
      { unfold pending in *. by rewrite lookup_set_display_ne. }
      by destruct (cleanup d).
  - unfold page_flip_handler. by rewrite Hd.
Qed.

Lemma drmHandleEvent_quiet (flips : list nat) (b : wlr_drm_backend) :
  quiet_step b (drmHandleEvent flips b).
Proof.
  unfold drmHandleEvent. revert b.
  induction flips as [|u flips IH]; intros b; simpl; [apply quiet_step_refl|].
  eapply quiet_step_trans; [apply page_flip_handler_quiet | apply IH].
Qed.

Lemma drmHandleEvent_keeps_pending (flips : list nat) (b : wlr_drm_backend)
    (i : nat) :
  pending i b = true -> pending i (drmHandleEvent flips b) = true.
Proof.
  unfold drmHandleEvent. revert b.
  induction flips as [|u flips IH]; intros b Hp; simpl; [done|].
  apply IH. by apply page_flip_handler_keeps_pending.
Qed.

Lemma wlr_drm_display_end_spec (b : wlr_drm_backend) (fb_id : Z) (i : nat)
    (d : wlr_drm_display) :
  displays b !! i = Some d ->
  pending i (wlr_drm_display_end fb_id i b) = false /\
  requests (wlr_drm_display_end fb_id i b) =
    requests b ++ [PageFlip (crtc d) fb_id i].
Proof.
  intros Hd. unfold wlr_drm_display_end. rewrite Hd. split; [|done].
  apply (pending_lookup _ i (set_pageflip_pending false d)).
  by apply (lookup_set_display_eq (send_request _ b) i d).
Qed.

Lemma wlr_drm_display_end_quiet (b : wlr_drm_backend) (fb_id : Z) (i : nat) :
  quiet_step b (wlr_drm_display_end fb_id i b).
Proof.
  unfold wlr_drm_display_end.
  destruct (displays b !! i) as [d|] eqn:Hd; [|apply quiet_step_refl].
  eapply quiet_step_trans; [apply quiet_send_request|].
  by apply (quiet_set_display (send_request _ b) i d).
Qed.

(** ** Teardown *)

(** The wait returns only with the flag cleared. *)
Lemma wait_for_flips_returns (pumps : list (list nat)) (i : nat)
    (b b' : wlr_drm_backend) :
  wait_for_flips pumps i b = Some b' -> pending i b' = false.
Proof.
  revert b. induction pumps as [|p pumps IH]; intros b; simpl;
    destruct (pending i b) eqn:Hp; try discriminate.
  - by intros [= <-].
  - apply IH.
  - by intros [= <-].
Qed.

(** With no flip pending the wait returns at once. *)
Lemma wait_for_flips_idle (pumps : list (list nat)) (i : nat)
    (b : wlr_drm_backend) :
  pending i b = false -> wait_for_flips pumps i b = Some b.
Proof. intros Hp. destruct pumps; simpl; by rewrite Hp. Qed.

(** With a flip pending the wait is still spinning after any number of
    pumps: the handler stores [true] into the flag, never [false]. *)
Lemma wait_for_flips_spins (pumps : list (list nat)) (i : nat)
    (b : wlr_drm_backend) :
  pending i b = true -> wait_for_flips pumps i b = None.
Proof.
  revert b. induction pumps as [|p pumps IH]; intros b Hp; simpl;
    rewrite Hp; [done|].
  apply IH. by apply drmHandleEvent_keeps_pending.
Qed.

Lemma wait_for_flips_quiet (pumps : list (list nat)) (i : nat)
    (b b' : wlr_drm_backend) :
  wait_for_flips pumps i b = Some b' -> quiet_step b b'.
Proof.
  revert b. induction pumps as [|p pumps IH]; intros b; simpl;
    destruct (pending i b); try discriminate.
  - intros [= <-]. apply quiet_step_refl.
  - intros H. eapply quiet_step_trans; [apply drmHandleEvent_quiet|by apply IH].
  - intros [= <-]. apply quiet_step_refl.
Qed.

Lemma wlr_drm_display_free_quiet (pumps : list (list nat)) (i : nat)
    (b b' : wlr_drm_backend) :
  wlr_drm_display_free pumps i b = Some b' -> quiet_step b b'.
Proof.
  unfold wlr_drm_display_free.
  destruct (displays b !! i) as [d|] eqn:Hd;
    [|intros [= <-]; apply quiet_step_refl].
  case_decide; [intros [= <-]; apply quiet_step_refl|].
  destruct (old_crtc d) as [c|]; [|intros [= <-]; apply quiet_step_refl].
  destruct (wait_for_flips pumps i _) as [b1|] eqn:Hw; [|discriminate].
  intros [= <-].
  apply (quiet_step_trans b (set_display i (set_cleanup true d) b));
    [by apply (quiet_set_display b i d)|].
  apply (quiet_step_trans _ b1); [by eapply wait_for_flips_quiet|].
  apply quiet_send_request.
Qed.

(** ** The sample backends are reachable *)

Lemma fresh_backend_reachable :
  run [Scan plugged; Modeset plugged 0 "preferred"] initial_backend
  = Some fresh_backend.
Proof. vm_compute. reflexivity. Qed.


Lemma restorable_backend_reachable :
  run [Scan plugged_configured; Modeset plugged_configured 0 "preferred"]
    initial_backend
  = Some restorable_backend.
Proof. vm_compute. reflexivity. Qed.

Lemma waiting_backend_reachable :
  run [Scan plugged_configured; Modeset plugged_configured 0 "preferred";
       Pump [0%nat]]
    initial_backend
  = Some waiting_backend.
Proof. vm_compute. reflexivity. Qed.

(** C1: the completion handler stores [true] into the pending-flip flag,
    where the claim has it cleared.  On the display that a scan and a
    modeset have just configured, the flag is [false] before the handler
    runs and [true] after it; the RENDER event is added, as the display is
    not being torn down. *)
Theorem page_flip_handler_sets_flag :
  pending 0 fresh_backend = false /\
  pending 0 (page_flip_handler 0 fresh_backend) = true /\
  events (page_flip_handler 0 fresh_backend) =
    events fresh_backend ++ [(0%nat, DRM_EV_RENDER)].
Proof. vm_compute. done. Qed.

(** C2: [end] stores [false] into the pending-flip flag, where the claim
    has it set.  On a display whose flag is [true], [end] submits the page
    flip and returns with the flag [false]. *)
Theorem wlr_drm_display_end_clears_flag :
  pending 0 flipped_backend = true /\
  pending 0 (wlr_drm_display_end 99 0 flipped_backend) = false /\
  last (requests (wlr_drm_display_end 99 0 flipped_backend)) =
    Some (PageFlip 40 99 0).
Proof. vm_compute. done. Qed.






(** ** Modeset *)

Lemma display_init_renderer_spec (k : drm_replies) (i : nat)
    (b : wlr_drm_backend) (d : wlr_drm_display) :
  displays b !! i = Some d ->
  exists d',
    displays (snd (display_init_renderer k i b)) = <[i := d']> (displays b) /\
    state d' = state d /\ crtc d' = crtc d /\
    taken_crtcs (snd (display_init_renderer k i b)) = taken_crtcs b /\
    events (snd (display_init_renderer k i b)) = events b.
Proof.
  intros Hd. unfold display_init_renderer. rewrite Hd.
  destruct (gbm_surface_create k); simpl.
  - destruct (create_platform_window_surface k); simpl;
      eexists; (split; [reflexivity|done]).
  - eexists; (split; [reflexivity|done]).
Qed.

Lemma old_crtc_refresh_set_modes (k : drm_replies) (conn : drmModeConnector)
    (n : nat) (v : option (list drmModeModeInfo)) (d : wlr_drm_display) :
  old_crtc (refresh_old_crtc k conn (set_modes n v d)) =
  old_crtc (refresh_old_crtc k conn d).
Proof. unfold refresh_old_crtc. by destruct (drmModeGetEncoder k _). Qed.

Lemma refresh_old_crtc_keeps (k : drm_replies) (conn : drmModeConnector)
    (d : wlr_drm_display) :
  state (refresh_old_crtc k conn d) = state d /\
  crtc (refresh_old_crtc k conn d) = crtc d.
Proof. unfold refresh_old_crtc. by destruct (drmModeGetEncoder k _). Qed.

(** What the [error:] label leaves behind. *)
Lemma modeset_error_spec (i : nat) (d0 d : wlr_drm_display)
    (b : wlr_drm_backend) :
  displays b !! i = Some d0 ->
  exists b',
    modeset_error i d b = Returns (false, b') /\
    state_at b' i = DRM_DISP_DISCONNECTED /\
    events b' = events b ++ [(i, DRM_EV_DISPLAY_REM)] /\
    taken_crtcs b' = taken_crtcs b.
Proof.
  intros Hd. eexists. split; [reflexivity|]. split; [|done].
  rewrite state_at_add_event.
  by rewrite (state_at_lookup _ i _ (lookup_set_display_eq b i d0 _ Hd)).
Qed.

(** Every reason of [modeset_failure] sends the call to the [error:]
    label. *)
Lemma modeset_failure_error (k : drm_replies) (b : wlr_drm_backend) (i : nat)
    (d : wlr_drm_display) (str : string) :
  displays b !! i = Some d -> modeset_failure k b d str ->
  exists d', wlr_drm_display_modeset k b i str = modeset_error i d' b.
Proof.
  intros Hd Hf. unfold wlr_drm_display_modeset. rewrite Hd.
  destruct Hf as [Hc | conn Hc Hn | conn Hc Hm | conn Hc Ha | conn Hc Hsel
                 | conn am Hc Hsel Hres | conn am res Hc Hsel Hres Henc];
    rewrite Hc; [by eexists|..];
    (case_decide as Hcond; [by eexists|]).
  - destruct Hcond. by left.
  - destruct Hcond. right. by rewrite Hm.
  - rewrite Ha. by eexists.
  - destruct (alloc_ok k); simpl; [|by eexists].
    rewrite old_crtc_refresh_set_modes, Hsel. by eexists.
  - destruct (alloc_ok k); simpl; [|by eexists].
    rewrite old_crtc_refresh_set_modes, Hsel.
    destruct am; [|by eexists]. rewrite Hres. by eexists.
  - destruct (alloc_ok k); simpl; [|by eexists].
    rewrite old_crtc_refresh_set_modes, Hsel.
    destruct am; [|by eexists]. rewrite Hres, Henc. by eexists.
Qed.

(** The two ways in which a modeset returns. *)
Lemma modeset_inv (k : drm_replies) (b : wlr_drm_backend) (i : nat)
    (str : string) (ok : bool) (b' : wlr_drm_backend) (d : wlr_drm_display) :
  displays b !! i = Some d ->
  wlr_drm_display_modeset k b i str = Returns (ok, b') ->
  (ok = false /\ modeset_failure k b d str /\
   exists d', modeset_error i d' b = Returns (ok, b')) \/
  (ok = true /\
   exists conn res j id d',
     drmModeGetConnector k (connector d) = Some conn /\
     drmModeGetResources k = Some res /\
     encoder_loop k (taken_crtcs b) (crtcs res) (encoders conn) = Some (j, id) /\
     displays b' = <[i := d']> (displays b) /\
     state d' = DRM_DISP_CONNECTED /\ crtc d' = id /\
     taken_crtcs b' = to_uint32 (Z.lor (taken_crtcs b) (crtc_bit j)) /\
     events b' = events b).
Proof.
  intros Hd. unfold wlr_drm_display_modeset. rewrite Hd.
  destruct (drmModeGetConnector k (connector d)) as [conn|] eqn:Hc.
  2:{ intros H. left. inversion H; subst.
      split; [done|]. split; [by apply connector_query_failed | by eexists]. }
  case_decide as Hcond.
  { intros H. left. inversion H; subst. split; [done|]. split; [|by eexists].
    destruct Hcond as [Hn|Hm].
    - by eapply connector_not_connected.
    - eapply connector_without_modes; [done|]. by destruct (conn_modes conn). }
  destruct (alloc_ok k) eqn:Ha; simpl.
  2:{ intros H. left. inversion H; subst. split; [done|]. split; [|by eexists].
      by eapply mode_list_allocation_failed. }
  rewrite old_crtc_refresh_set_modes.
  destruct (select_mode _ _ str) as [am|] eqn:Hsel; [|discriminate].
  destruct am as [a|].
  2:{ intros H. left. inversion H; subst. split; [done|]. split; [|by eexists].
      by eapply no_matching_mode. }
  destruct (drmModeGetResources k) as [res|] eqn:Hres.
  2:{ intros H. left. inversion H; subst. split; [done|]. split; [|by eexists].
      by eapply resource_query_failed. }
  destruct (encoder_loop _ _ _ _) as [[j id]|] eqn:Henc.
  2:{ intros H. left. inversion H; subst. split; [done|]. split; [|by eexists].
      by eapply no_free_crtc. }
  intros H. right. inversion H; subst ok b'. clear H. split; [done|].
  match goal with
  | |- context [display_init_renderer k i (set_display i ?d1 ?b1)] =>
      destruct (display_init_renderer_spec k i (set_display i d1 b1) d1)
        as (d' & Hds & Hst & Hcr & Htk & Hev);
        [by apply (lookup_set_display_eq _ i d)|];
      assert (state d1 = DRM_DISP_CONNECTED /\ crtc d1 = id) as [Hs1 Hc1]
        by (by destruct (active_mode_info _))
  end.
  exists conn, res, j, id, d'.
  repeat split; try done; try congruence.
  rewrite Hds. simpl. apply list_insert_insert_eq.
Qed.

(** C6: whenever a modeset fails for a recoverable reason (the connector
    query fails, the connector is not connected or has no mode, the mode
    list cannot be allocated, no mode matches the request, the resource
    query fails, or no compatible CRTC is free), the call returns failure,
    the display is left DISCONNECTED, and exactly one event, the REM event
    of that display, is added to the queue. *)
Theorem modeset_failure_rolls_back (k : drm_replies) (b : wlr_drm_backend)
    (i : nat) (d : wlr_drm_display) (str : string) :
  displays b !! i = Some d -> modeset_failure k b d str ->
  exists b',
    wlr_drm_display_modeset k b i str = Returns (false, b') /\
    state_at b' i = DRM_DISP_DISCONNECTED /\
    events b' = events b ++ [(i, DRM_EV_DISPLAY_REM)].
Proof.
  intros Hd Hf.
  destruct (modeset_failure_error k b i d str Hd Hf) as [d' ->].
  destruct (modeset_error_spec i d d' b Hd) as (b' & ? & ? & ? & _).
  by exists b'.
Qed.

Lemma modeset_failure_rolls_back_witness :
  exists b',
    wlr_drm_display_modeset plugged scanned_backend 0 "640x480"
    = Returns (false, b') /\
    state_at b' 0 = DRM_DISP_DISCONNECTED /\
    events b' = events scanned_backend ++ [(0%nat, DRM_EV_DISPLAY_REM)].
Proof.
  apply (modeset_failure_rolls_back plugged scanned_backend 0
           detected_display "640x480").
  - reflexivity.
  - apply (no_matching_mode _ _ _ _ sample_connector).
    + reflexivity.
    + vm_compute. reflexivity.
Defined.

(** ** One display moves, the others stay *)

Lemma hotplug_events_tag (i j : nat) (tys : list wlr_drm_event_type) :
  Forall (fun ty => ty <> DRM_EV_RENDER) tys ->
  hotplug_events j (tag i tys) = if decide (i = j) then tys else [].
Proof.
  induction 1 as [|ty tys Hty _ IH].
  - by case_decide.
  - change (tag i (ty :: tys)) with ([(i, ty)] ++ tag i tys).
    rewrite hotplug_events_app, IH, hotplug_events_one.
    destruct (decide (i = j)) as [->|Hne].
    + by rewrite decide_True.
    + by rewrite decide_False by (by intros [? _]).
Qed.

(** A call that replaces display [i] and adds the events [tys] for it is
    legal when the display moves along a walk with these events. *)
Lemma legal_step_one_display (b b' : wlr_drm_backend) (i : nat)
    (d0 d : wlr_drm_display) (tys : list wlr_drm_event_type) :
  displays b !! i = Some d0 ->
  displays b' = <[i := d]> (displays b) ->
  events b' = events b ++ tag i tys ->
  Forall (fun ty => ty <> DRM_EV_RENDER) tys ->
  walk (state d0) tys (state d) ->
  legal_step b b'.
Proof.
  intros Hd Hds Hev Hty Hw. exists (tag i tys). split; [done|].
  intros j. rewrite (hotplug_events_tag i j tys Hty). unfold state_at.
  rewrite Hds. case_decide as Hij.
  - subst j. rewrite list_lookup_insert_eq by by eapply lookup_lt_Some.
    by rewrite Hd.
  - rewrite list_lookup_insert_ne by done. apply walk_stay.
Qed.

Lemma releases_only_one_display (b b' : wlr_drm_backend) (i : nat)
    (d0 d : wlr_drm_display) :
  displays b !! i = Some d0 ->
  displays b' = <[i := d]> (displays b) ->
  taken_crtcs b' = taken_crtcs b ->
  (state d = DRM_DISP_CONNECTED ->
   state d0 = DRM_DISP_CONNECTED /\ crtc d0 = crtc d) ->
  releases_only b b'.
Proof.
  intros Hd Hds Htk Hst. split; [done|]. intros j d' Hj Hc.
  rewrite Hds in Hj. apply list_lookup_insert_Some in Hj
    as [(-> & -> & _) | (Hne & Hj)].
  - exists d0. destruct (Hst Hc). by repeat split.
  - by exists d'.
Qed.

Lemma releases_only_refl (b : wlr_drm_backend) : releases_only b b.
Proof. split; [done|]. intros j d' ? ?. by exists d'. Qed.

Lemma releases_only_trans (b1 b2 b3 : wlr_drm_backend) :
  releases_only b1 b2 -> releases_only b2 b3 -> releases_only b1 b3.
Proof.
  intros [T1 D1] [T2 D2]. split; [congruence|].
  intros j d3 Hj Hc. destruct (D2 j d3 Hj Hc) as (d2 & Hj2 & Hc2 & E2).
  destruct (D1 j d2 Hj2 Hc2) as (d1 & Hj1 & Hc1 & E1).
  exists d1. repeat split; congruence.
Qed.

Lemma quiet_step_releases_only (b b' : wlr_drm_backend) :
  quiet_step b b' -> releases_only b b'.
Proof.
  intros (_ & T & L & D). split; [done|]. intros j d' Hj Hc.
  destruct (displays b !! j) as [d|] eqn:Hd.
  - destruct (D j d Hd) as (d'' & Hj' & S & C).
    rewrite Hj in Hj'. inversion Hj'; subst d''.
    exists d. repeat split; congruence.
  - apply lookup_ge_None in Hd. apply lookup_lt_Some in Hj. lia.
Qed.

(** ** Scan *)

(** The loop body either leaves the backend alone or moves display [i]
    along a walk, without making it CONNECTED. *)
Lemma scan_connector_cases (k : drm_replies) (i : nat) (id : Z)
    (b : wlr_drm_backend) :
  scan_connector k i id b = b \/
  exists d0 d tys,
    displays b !! i = Some d0 /\
    displays (scan_connector k i id b) = <[i := d]> (displays b) /\
    events (scan_connector k i id b) = events b ++ tag i tys /\
    taken_crtcs (scan_connector k i id b) = taken_crtcs b /\
    Forall (fun ty => ty <> DRM_EV_RENDER) tys /\
    walk (state d0) tys (state d) /\
    crtc d = crtc d0 /\
    (state d = DRM_DISP_CONNECTED -> state d0 = DRM_DISP_CONNECTED).
Proof.
  unfold scan_connector.
  destruct (displays b !! i) as [d0|] eqn:Hd; [|by left].
  destruct (drmModeGetConnector k id) as [conn|]; [|by left].
  right. exists d0. cbv zeta.
  destruct (decide (state d0 = DRM_DISP_INVALID)) as [Hinv|Hinv].
  - (* first seen: INVALID, then DISCONNECTED, then perhaps NEEDS_MODESET *)
    destruct (decide (connection conn = DRM_MODE_CONNECTED)) as [Hc|Hc].
    + rewrite decide_True by done.
      eexists _, [DRM_EV_DISPLAY_ADD].
      repeat split; try reflexivity.
      * by repeat constructor.
      * simpl. rewrite Hinv.
        apply (walk_edge _ None _ [DRM_EV_DISPLAY_ADD] _ edge_first_seen).
        apply (walk_one _ _ _ edge_plugged).
      * discriminate.
    + rewrite decide_False by (by intros [_ ?]).
      rewrite decide_False by (simpl; intros [? _]; discriminate).
      eexists _, [].
      repeat split; try reflexivity.
      * simpl. by rewrite app_nil_r.
      * constructor.
      * simpl. rewrite Hinv. apply (walk_one _ _ _ edge_first_seen).
      * discriminate.
  - case_decide as H1; [|case_decide as H2].
    + destruct H1 as [Hs Hc].
      eexists _, [DRM_EV_DISPLAY_ADD].
      repeat split; try reflexivity.
      * by repeat constructor.
      * simpl. rewrite Hs. apply (walk_one _ _ _ edge_plugged).
      * discriminate.
    + destruct H2 as [Hs Hc].
      eexists _, [DRM_EV_DISPLAY_REM].
      repeat split; try reflexivity.
      * by repeat constructor.
      * simpl. rewrite Hs. apply (walk_one _ _ _ edge_unplugged).
      * discriminate.
    + exists d0, [].
      repeat split; try done.
      * simpl. by rewrite app_nil_r.
      * apply walk_stay.
Qed.

Lemma scan_connector_legal (k : drm_replies) (i : nat) (id : Z)
    (b : wlr_drm_backend) :
  legal_step b (scan_connector k i id b) /\
  releases_only b (scan_connector k i id b).
Proof.
  destruct (scan_connector_cases k i id b)
    as [-> | (d0 & d & tys & Hd & Hds & Hev & Htk & Hty & Hw & Hc & Hs)].
  - split; [apply legal_step_refl | apply releases_only_refl].
  - split.
    + by eapply legal_step_one_display.
    + eapply releases_only_one_display; eauto.
Qed.

Lemma scan_loop_legal (k : drm_replies) (ids : list Z) (i : nat)
    (b : wlr_drm_backend) :
  legal_step b (scan_loop k i ids b) /\
  releases_only b (scan_loop k i ids b).
Proof.
  revert i b. induction ids as [|id ids IH]; intros i b; simpl.
  - split; [apply legal_step_refl | apply releases_only_refl].
  - destruct (scan_connector_legal k i id b) as [L1 R1].
    destruct (IH (S i) (scan_connector k i id b)) as [L2 R2]. split.
    + by eapply legal_step_trans.
    + by eapply releases_only_trans.
Qed.

(** Growing the table adds slots that have never been seen. *)
Lemma grow_legal (b : wlr_drm_backend) (n : nat) :
  legal_step b (set_displays (displays b ++ replicate n new_display) b) /\
  releases_only b (set_displays (displays b ++ replicate n new_display) b).
Proof.
  split.
  - exists []. split; [simpl; by rewrite app_nil_r|].
    intros i. unfold state_at, hotplug_events. simpl.
    rewrite lookup_app. destruct (displays b !! i) as [d|]; [apply walk_stay|].
    destruct (replicate n new_display !! _) as [d|] eqn:Hr; [|apply walk_stay].
    apply lookup_replicate_1 in Hr as [-> _]. apply walk_stay.
  - split; [done|]. intros j d' Hj Hc. simpl in Hj.
    apply lookup_app_Some in Hj as [Hj | [_ Hj]]; [by exists d'|].
    apply lookup_replicate_1 in Hj as [-> _]. discriminate.
Qed.

Lemma wlr_drm_scan_connectors_legal (k : drm_replies) (b : wlr_drm_backend) :
  legal_step b (wlr_drm_scan_connectors k b) /\
  releases_only b (wlr_drm_scan_connectors k b).
Proof.
  assert (legal_step b b /\ releases_only b b) as Hrefl
    by (split; [apply legal_step_refl | apply releases_only_refl]).
  unfold wlr_drm_scan_connectors.
  destruct (drmModeGetResources k) as [res|]; [|done].
  case_decide; [|apply scan_loop_legal].
  destruct (alloc_ok k); [|done].
  match goal with
  | |- context [replicate ?n new_display] =>
      destruct (grow_legal b n) as [L1 R1]
  end.
  match goal with
  | |- context [scan_loop k 0 ?ids ?b1] =>
      destruct (scan_loop_legal k ids 0 b1) as [L2 R2]
  end.
  split; [by eapply legal_step_trans | by eapply releases_only_trans].
Qed.

(** ** The scan, slot by slot *)

Lemma backend_eta (b : wlr_drm_backend) :
  MkBackend (displays b) (taken_crtcs b) (events b) (requests b) = b.
Proof. by destruct b. Qed.

(** The loop body is [scan_slot] applied to the display of the slot. *)
Lemma scan_connector_slot (k : drm_replies) (i : nat) (id : Z)
    (b : wlr_drm_backend) (d : wlr_drm_display) :
  displays b !! i = Some d ->
  scan_connector k i id b =
  MkBackend (<[i := fst (scan_slot k id d)]> (displays b)) (taken_crtcs b)
    (events b ++ tag i (snd (scan_slot k id d))) (requests b).
Proof.
  intros Hd. unfold scan_connector, scan_slot. rewrite Hd.
  destruct (drmModeGetConnector k id) as [conn|]; simpl.
  - cbv zeta. repeat case_decide; try reflexivity.
    all: unfold set_display, wlr_drm_add_event; simpl; by rewrite ?app_nil_r.
  - by rewrite list_insert_id, app_nil_r, backend_eta.
Qed.

Lemma scan_loop_explicit (k : drm_replies) (ids : list Z) (j : nat)
    (b : wlr_drm_backend) :
  scan_loop k j ids b =
  MkBackend (scan_displays k j ids (displays b)) (taken_crtcs b)
    (events b ++ scan_events k j ids (displays b)) (requests b).
Proof.
  revert j b. induction ids as [|id ids IH]; intros j b; simpl.
  - by rewrite app_nil_r, backend_eta.
  - destruct (displays b !! j) as [d|] eqn:Hd.
    + rewrite (scan_connector_slot k j id b d Hd), IH. simpl.
      by rewrite app_assoc.
    + unfold scan_connector. rewrite Hd. apply IH.
Qed.

Lemma scan_displays_length (k : drm_replies) (ids : list Z) (j : nat)
    (ds : list wlr_drm_display) :
  length (scan_displays k j ids ds) = length ds.
Proof.
  revert j ds. induction ids as [|id ids IH]; intros j ds; simpl; [done|].
  rewrite IH. destruct (ds !! j); [apply length_insert | done].
Qed.

(** The loop from index [j] leaves the slots below [j] alone. *)
Lemma scan_displays_below (k : drm_replies) (ids : list Z) (j i : nat)
    (ds : list wlr_drm_display) :
  (i < j)%nat -> scan_displays k j ids ds !! i = ds !! i.
Proof.
  revert j ds. induction ids as [|id ids IH]; intros j ds Hi; simpl; [done|].
  rewrite IH by lia. destruct (ds !! j); [|done].
  apply list_lookup_insert_ne. lia.
Qed.

(** The slot of the [p]-th connector id holds what [scan_slot] gives. *)
Lemma scan_displays_at (k : drm_replies) (ids : list Z) (j p : nat) (id : Z)
    (ds : list wlr_drm_display) (d : wlr_drm_display) :
  ids !! p = Some id -> ds !! (j + p)%nat = Some d ->
  scan_displays k j ids ds !! (j + p)%nat = Some (fst (scan_slot k id d)).
Proof.
  revert j p ds. induction ids as [|id0 ids IH]; intros j p ds Hp Hd; [done|].
  destruct p as [|p]; simpl in *.
  - inversion Hp; subst id0. rewrite Nat.add_0_r in *.
    rewrite scan_displays_below by lia. rewrite Hd.
    apply list_lookup_insert_eq. by eapply lookup_lt_Some.
  - replace (j + S p)%nat with (S j + p)%nat in * by lia.
    apply IH; [done|]. destruct (ds !! j); [|done].
    rewrite list_lookup_insert_ne by lia. done.
Qed.

(** The slots past the connector ids are left alone too. *)
Lemma scan_displays_above (k : drm_replies) (ids : list Z) (j i : nat)
    (ds : list wlr_drm_display) :
  (j + length ids <= i)%nat -> scan_displays k j ids ds !! i = ds !! i.
Proof.
  revert j ds. induction ids as [|id ids IH]; intros j ds Hi; simpl in *;
    [done|].
  rewrite IH by lia. destruct (ds !! j); [|done].
  apply list_lookup_insert_ne. lia.
Qed.

Lemma scan_slot_events_plain (k : drm_replies) (id : Z) (d : wlr_drm_display) :
  Forall (fun ty => ty <> DRM_EV_RENDER) (snd (scan_slot k id d)).
Proof.
  unfold scan_slot. destruct (drmModeGetConnector k id); simpl; [|constructor].
  cbv zeta. repeat case_decide; simpl; by repeat constructor.
Qed.

Lemma scan_events_below (k : drm_replies) (ids : list Z) (j i : nat)
    (ds : list wlr_drm_display) :
  (i < j)%nat -> hotplug_events i (scan_events k j ids ds) = [].
Proof.
  revert j ds. induction ids as [|id ids IH]; intros j ds Hi; simpl; [done|].
  destruct (ds !! j) as [d|]; [|by apply IH; lia].
  rewrite hotplug_events_app, IH by lia.
  rewrite hotplug_events_tag by apply scan_slot_events_plain.
  rewrite decide_False by lia. done.
Qed.

Lemma scan_events_at (k : drm_replies) (ids : list Z) (j p : nat) (id : Z)
    (ds : list wlr_drm_display) (d : wlr_drm_display) :
  ids !! p = Some id -> ds !! (j + p)%nat = Some d ->
  hotplug_events (j + p) (scan_events k j ids ds) = snd (scan_slot k id d).
Proof.
  revert j p ds. induction ids as [|id0 ids IH]; intros j p ds Hp Hd; [done|].
  destruct p as [|p]; simpl in *.
  - inversion Hp; subst id0. rewrite Nat.add_0_r in *. rewrite Hd.
    rewrite hotplug_events_app, scan_events_below by lia.
    rewrite hotplug_events_tag by apply scan_slot_events_plain.
    rewrite decide_True by done. by rewrite app_nil_r.
  - replace (j + S p)%nat with (S j + p)%nat in * by lia.
    destruct (ds !! j) as [d0|] eqn:Hd0.
    + rewrite hotplug_events_app.
      rewrite hotplug_events_tag by apply scan_slot_events_plain.
      rewrite decide_False by lia. rewrite app_nil_l.
      apply (IH (S j) p); [done|]. rewrite list_lookup_insert_ne by lia. done.
    + by apply (IH (S j) p).
Qed.

(** The state and the events of [scan_slot] are the move of the state
    machine. *)
Lemma scan_slot_transition (k : drm_replies) (id : Z) (d : wlr_drm_display)
    (conn : drmModeConnector) :
  drmModeGetConnector k id = Some conn ->
  (state (fst (scan_slot k id d)), snd (scan_slot k id d)) =
  hotplug_transition (state d) (connection conn).
Proof.
  intros Hc. unfold scan_slot, hotplug_transition. rewrite Hc. cbv zeta.
  destruct (state d) eqn:Hs; simpl;
    destruct (decide (connection conn = DRM_MODE_CONNECTED)) as [Hcn|Hcn];
    repeat (case_decide; simpl); try rewrite Hs; try reflexivity;
    try (exfalso; intuition congruence).
Qed.

Lemma grown_table_length (b : wlr_drm_backend) (res : drmModeRes) :
  length (grown_table b res) =
  (length (displays b) `max` length (connectors res))%nat.
Proof. unfold grown_table. rewrite length_app, length_replicate. lia. Qed.

Lemma grown_table_state (b : wlr_drm_backend) (res : drmModeRes) (i : nat) :
  match grown_table b res !! i with
  | Some d => state d
  | None => DRM_DISP_INVALID
  end = state_at b i.
Proof.
  unfold grown_table, state_at. rewrite lookup_app.
  destruct (displays b !! i) as [d|]; [done|].
  destruct (replicate _ new_display !! _) as [d|] eqn:Hr; [|done].
  by apply lookup_replicate_1 in Hr as [-> _].
Qed.

(** A scan that proceeds is its connector loop on the grown table. *)
Lemma scan_explicit (k : drm_replies) (b : wlr_drm_backend) (res : drmModeRes) :
  scan_proceeds k b res ->
  wlr_drm_scan_connectors k b =
  MkBackend (scan_displays k 0 (connectors res) (grown_table b res))
    (taken_crtcs b)
    (events b ++ scan_events k 0 (connectors res) (grown_table b res))
    (requests b).
Proof.
  intros [Hres Hok]. unfold wlr_drm_scan_connectors, grown_table.
  rewrite Hres. cbv zeta. case_decide as Hlt.
  - destruct Hok as [Hle | ->]; [lia|]. by rewrite scan_loop_explicit.
  - replace (length (connectors res) - length (displays b))%nat with 0%nat
      by lia.
    simpl. rewrite app_nil_r. apply scan_loop_explicit.
Qed.

(** A scan that does not proceed changes nothing. *)
Lemma scan_stops (k : drm_replies) (b : wlr_drm_backend) :
  (forall res, ~ scan_proceeds k b res) -> wlr_drm_scan_connectors k b = b.
Proof.
  intros Hno. unfold wlr_drm_scan_connectors.
  destruct (drmModeGetResources k) as [res|] eqn:Hres; [|done].
  cbv zeta. case_decide as Hlt.
  - destruct (alloc_ok k) eqn:Ha; [|done].
    destruct (Hno res). split; [done | by right].
  - destruct (Hno res). split; [done | left; lia].
Qed.

Lemma scan_proceeds_dec (k : drm_replies) (b : wlr_drm_backend) :
  (exists res, scan_proceeds k b res) \/ (forall res, ~ scan_proceeds k b res).
Proof.
  unfold scan_proceeds.
  destruct (drmModeGetResources k) as [res|]; [|right; by intros res [? _]].
  destruct (decide (length (connectors res) <= length (displays b))%nat).
  { left. exists res. split; [done | by left]. }
  destruct (alloc_ok k); [left; exists res; split; [done | by right]|].
  right. intros res' [[= <-] [?|?]]; [lia | done].
Qed.

(** ** Every call is a legal step *)

Lemma state_at_is_Some (b : wlr_drm_backend) (i : nat) :
  state_at b i <> DRM_DISP_INVALID ->
  exists d, displays b !! i = Some d /\ state d = state_at b i.
Proof.
  unfold state_at. destruct (displays b !! i) as [d|]; [|done]. by exists d.
Qed.

Lemma modeset_legal (k : drm_replies) (b : wlr_drm_backend) (i : nat)
    (str : string) (ok : bool) (b' : wlr_drm_backend) :
  state_at b i = DRM_DISP_NEEDS_MODESET ->
  wlr_drm_display_modeset k b i str = Returns (ok, b') ->
  legal_step b b'.
Proof.
  intros Hs Hm. destruct (state_at_is_Some b i) as (d & Hd & Hsd);
    [by rewrite Hs|].
  rewrite Hs in Hsd.
  destruct (modeset_inv k b i str ok b' d Hd Hm)
    as [(_ & _ & d' & He)
       | (_ & conn & res & j & id & d' & _ & _ & _ & Hds & Hst & _ & _ & Hev)].
  - inversion He; subst b'.
    apply (legal_step_one_display b _ i d (set_state DRM_DISP_DISCONNECTED d')
             [DRM_EV_DISPLAY_REM]); try done.
    + by repeat constructor.
    + rewrite Hsd. apply (walk_one _ _ _ edge_modeset_failed).
  - apply (legal_step_one_display b b' i d d' []); try done.
    + simpl. by rewrite app_nil_r.
    + rewrite Hsd, Hst. apply (walk_one _ _ _ edge_modeset_done).
Qed.

Lemma step_legal (o : op) (b b' : wlr_drm_backend) :
  match o with
  | Modeset _ i _ => state_at b i = DRM_DISP_NEEDS_MODESET
  | _ => True
  end ->
  step o b = Some b' -> legal_step b b'.
Proof.
  destruct o as [k | k i str | pumps i | flips | fb_id i]; simpl; intros Hg Hs.
  - inversion Hs; subst. apply wlr_drm_scan_connectors_legal.
  - destruct (wlr_drm_display_modeset k b i str) as [[ok b1]|] eqn:Hm;
      [|discriminate].
    inversion Hs; subst. by eapply modeset_legal.
  - apply quiet_step_legal. by eapply wlr_drm_display_free_quiet.
  - inversion Hs; subst. apply quiet_step_legal, drmHandleEvent_quiet.
  - inversion Hs; subst. apply quiet_step_legal, wlr_drm_display_end_quiet.
Qed.

Lemma sample_steps :
  step (Scan plugged) initial_backend = Some scanned_backend /\
  step (Modeset plugged 0 "640x480") scanned_backend = Some rejected_backend /\
  step (Modeset plugged 0 "preferred") rejected_backend = Some retried_backend.
Proof. repeat split; vm_compute; reflexivity. Qed.

(** ** Every call stays on the edges *)

Lemma call_move_walk (s s' : wlr_drm_display_state)
    (tys : list wlr_drm_event_type) :
  call_move s tys s' -> walk s tys s'.
Proof.
  intros [s0 | s0 e s1 He | s0 e s1 He1 He2].
  - apply walk_stay.
  - by apply walk_one.
  - apply (walk_edge _ None _ _ _ He1). by apply walk_one.
Qed.

Lemma on_edges_refl (b : wlr_drm_backend) : on_edges b b.
Proof.
  exists []. split; [by rewrite app_nil_r|]. intros i. apply move_none.
Qed.

Lemma quiet_step_on_edges (b b' : wlr_drm_backend) :
  quiet_step b b' -> on_edges b b'.
Proof.
  intros Hq. pose proof Hq as ((evs & He & F) & _).
  exists evs. split; [done|]. intros i.
  rewrite (hotplug_events_render i evs F), (quiet_step_state_at b b' i Hq).
  apply move_none.
Qed.

(** A call that replaces display [i] and adds the events [tys] for it. *)
Lemma on_edges_one_display (b b' : wlr_drm_backend) (i : nat)
    (d0 d : wlr_drm_display) (tys : list wlr_drm_event_type) :
  displays b !! i = Some d0 ->
  displays b' = <[i := d]> (displays b) ->
  events b' = events b ++ tag i tys ->
  Forall (fun ty => ty <> DRM_EV_RENDER) tys ->
  call_move (state d0) tys (state d) ->
  on_edges b b'.
Proof.
  intros Hd Hds Hev Hty Hw. exists (tag i tys). split; [done|].
  intros j. rewrite (hotplug_events_tag i j tys Hty). unfold state_at.
  rewrite Hds. case_decide as Hij.
  - subst j. rewrite list_lookup_insert_eq by by eapply lookup_lt_Some.
    by rewrite Hd.
  - rewrite list_lookup_insert_ne by done. apply move_none.
Qed.

(** The move of the hotplug state machine is a move along the edges. *)
Lemma hotplug_transition_move (s : wlr_drm_display_state)
    (c : drmModeConnection) :
  call_move s (snd (hotplug_transition s c)) (fst (hotplug_transition s c)).
Proof.
  unfold hotplug_transition. destruct s; try case_decide; simpl.
  - apply (move_first_seen _ (Some DRM_EV_DISPLAY_ADD) _ edge_first_seen
             edge_plugged).
  - apply (move_edge _ None _ edge_first_seen).
  - apply (move_edge _ (Some DRM_EV_DISPLAY_ADD) _ edge_plugged).
  - apply move_none.
  - apply move_none.
  - apply move_none.
  - apply (move_edge _ (Some DRM_EV_DISPLAY_REM) _ edge_unplugged).
Qed.

Lemma scan_events_above (k : drm_replies) (ids : list Z) (j i : nat)
    (ds : list wlr_drm_display) :
  (j + length ids <= i)%nat -> hotplug_events i (scan_events k j ids ds) = [].
Proof.
  revert j ds. induction ids as [|id ids IH]; intros j ds Hi; simpl in *;
    [done|].
  destruct (ds !! j) as [d|]; [|by apply IH; lia].
  rewrite hotplug_events_app, IH by lia.
  rewrite hotplug_events_tag by apply scan_slot_events_plain.
  rewrite decide_False by lia. done.
Qed.

Lemma wlr_drm_scan_connectors_on_edges (k : drm_replies)
    (b : wlr_drm_backend) :
  on_edges b (wlr_drm_scan_connectors k b).
Proof.
  destruct (scan_proceeds_dec k b) as [[res Hp] | Hno];
    [|rewrite (scan_stops k b Hno); apply on_edges_refl].
  rewrite (scan_explicit k b res Hp).
  eexists. split; [reflexivity|]. intros i. unfold state_at at 2. simpl.
  pose proof (grown_table_state b res i) as Hst.
  destruct (connectors res !! i) as [id|] eqn:Hi.
  - assert (is_Some (grown_table b res !! i)) as [d Hd].
    { apply lookup_lt_is_Some. rewrite grown_table_length.
      apply lookup_lt_Some in Hi. lia. }
    rewrite Hd in Hst.
    pose proof (scan_displays_at k _ 0 i id _ d Hi Hd) as Hat.
    pose proof (scan_events_at k _ 0 i id _ d Hi Hd) as Hev.
    change (0 + i)%nat with i in Hat, Hev. rewrite Hat, Hev, <- Hst.
    destruct (drmModeGetConnector k id) as [conn|] eqn:Hc.
    + pose proof (scan_slot_transition k id d conn Hc) as Ht.
      pose proof (hotplug_transition_move (state d) (connection conn)) as Hm.
      rewrite <- Ht in Hm. exact Hm.
    + unfold scan_slot. rewrite Hc. apply move_none.
  - apply lookup_ge_None in Hi.
    rewrite scan_displays_above, scan_events_above by (simpl; lia).
    rewrite Hst. apply move_none.
Qed.

(** A modeset of a display that is NEEDS_MODESET or CONNECTED. *)
Lemma wlr_drm_display_modeset_on_edges (k : drm_replies) (b : wlr_drm_backend)
    (i : nat) (str : string) (ok : bool) (b' : wlr_drm_backend) :
  announced (state_at b i) = true ->
  wlr_drm_display_modeset k b i str = Returns (ok, b') ->
  on_edges b b'.
Proof.
  intros Hs Hm. destruct (state_at_is_Some b i) as (d & Hd & Hsd);
    [by destruct (state_at b i)|].
  rewrite <- Hsd in Hs.
  destruct (modeset_inv k b i str ok b' d Hd Hm)
    as [(_ & _ & d' & He)
       | (_ & conn & res & j & id & d' & _ & _ & _ & Hds & Hst & _ & _ & Hev)].
  - inversion He; subst b'.
    apply (on_edges_one_display b _ i d (set_state DRM_DISP_DISCONNECTED d')
             [DRM_EV_DISPLAY_REM]); try done.
    + by repeat constructor.
    + simpl. destruct (state d); try discriminate.
      * apply (move_edge _ (Some DRM_EV_DISPLAY_REM) _ edge_modeset_failed).
      * apply (move_edge _ (Some DRM_EV_DISPLAY_REM) _ edge_unplugged).
  - apply (on_edges_one_display b b' i d d' []); try done.
    + simpl. by rewrite app_nil_r.
    + rewrite Hst. destruct (state d); try discriminate.
      * apply (move_edge _ None _ edge_modeset_done).
      * apply move_none.
Qed.

(** From INVALID or DISCONNECTED the moves add no event or one ADD, and
    none of them ends in CONNECTED. *)
Lemma call_move_unannounced (s s' : wlr_drm_display_state)
    (tys : list wlr_drm_event_type) :
  call_move s tys s' -> announced s = false ->
  (tys = [] /\ (s' = s \/ s' = DRM_DISP_DISCONNECTED)) \/
  (tys = [DRM_EV_DISPLAY_ADD] /\ s' = DRM_DISP_NEEDS_MODESET).
Proof.
  intros [s0 | s0 e s1 He | s0 e s1 He1 He2] Hs.
  - left. split; [done | by left].
  - destruct He; try discriminate; [left | right]; split; auto.
  - inversion He1; subst. inversion He2; subst. by right.
Qed.

(** A modeset of a display of the table that is INVALID or DISCONNECTED
    leaves the edges whenever it returns: it makes the display CONNECTED,
    or adds a REM for a display that no ADD has announced. *)
Lemma wlr_drm_display_modeset_off_edges (k : drm_replies)
    (b : wlr_drm_backend) (i : nat) (str : string) (ok : bool)
    (b' : wlr_drm_backend) (d : wlr_drm_display) :
  displays b !! i = Some d -> announced (state d) = false ->
  wlr_drm_display_modeset k b i str = Returns (ok, b') ->
  ~ on_edges b b'.
Proof.
  intros Hd Hs Hm (evs & Hev & Hmv). specialize (Hmv i).
  unfold state_at in Hmv. rewrite Hd in Hmv.
  apply call_move_unannounced in Hmv; [|done].
  destruct (modeset_inv k b i str ok b' d Hd Hm)
    as [(_ & _ & d' & He)
       | (_ & conn & res & j & id & d' & _ & _ & _ & Hds & Hst & _ & _ & Hev')].
  - inversion He; subst b'. simpl in Hev.
    apply app_inv_head in Hev. subst evs.
    rewrite (hotplug_events_one i i DRM_EV_DISPLAY_REM) in Hmv.
    rewrite decide_True in Hmv by done.
    destruct Hmv as [[? _] | [? _]]; discriminate.
  - rewrite Hds in Hmv.
    rewrite list_lookup_insert_eq in Hmv by by eapply lookup_lt_Some.
    rewrite Hst in Hmv.
    destruct Hmv as [[_ [Hc | Hc]] | [_ Hc]]; try discriminate.
    rewrite <- Hc in Hs. discriminate.
Qed.

Lemma step_on_edges (o : op) (b b' : wlr_drm_backend) :
  match o with
  | Modeset _ i _ => announced (state_at b i) = true
  | _ => True
  end ->
  step o b = Some b' -> on_edges b b'.
Proof.
  destruct o as [k | k i str | pumps i | flips | fb_id i]; simpl; intros Hg Hs.
  - inversion Hs; subst. apply wlr_drm_scan_connectors_on_edges.
  - destruct (wlr_drm_display_modeset k b i str) as [[ok b1]|] eqn:Hm;
      [|discriminate].
    inversion Hs; subst. by eapply wlr_drm_display_modeset_on_edges.
  - apply quiet_step_on_edges. by eapply wlr_drm_display_free_quiet.
  - inversion Hs; subst. apply quiet_step_on_edges, drmHandleEvent_quiet.
  - inversion Hs; subst. apply quiet_step_on_edges, wlr_drm_display_end_quiet.
Qed.

(** C5 (as stated): every sequence of scans and modesets moves the
    displays along the five edges only.  This fails when a modeset is
    asked for a display that is DISCONNECTED: after a refused modeset has
    left the display DISCONNECTED, a second modeset takes it from
    DISCONNECTED to CONNECTED. *)
Lemma modeset_retry_leaves_graph : ~ scans_and_modesets_legal.
Proof.
  intros H.
  specialize (H [Scan plugged; Modeset plugged 0%nat "640x480";
                 Modeset plugged 0%nat "preferred"]).
  destruct sample_steps as (S1 & S2 & S3).
  cbn [all_steps_on_edges] in H. rewrite S1, S2, S3 in H.
  destruct H as (_ & _ & (evs & Hev & Hmv) & _); [by repeat constructor|].
  assert (evs = []) as ->.
  { simpl in Hev. by inversion Hev. }
  specialize (Hmv 0%nat). vm_compute in Hmv.
  apply call_move_unannounced in Hmv; [|done].
  destruct Hmv as [[_ [Hc | Hc]] | [Hc _]]; discriminate.
Qed.

(** C5 (amended): in every sequence of calls in which each modeset is
    asked for a display that is in state NEEDS_MODESET or CONNECTED, every
    call moves every display along the edges INVALID to DISCONNECTED,
    DISCONNECTED to NEEDS_MODESET (with ADD), NEEDS_MODESET to CONNECTED,
    NEEDS_MODESET to DISCONNECTED (with REM) and CONNECTED to DISCONNECTED
    (with REM) only: the call leaves the display's state alone and adds no
    ADD or REM for it, or takes one of these edges and adds the event of
    that edge and no other, or (the scan that first sees a connector, and
    finds it connected) takes the edge from INVALID to DISCONNECTED and
    then the edge to NEEDS_MODESET, adding the one ADD. *)
Theorem guarded_steps_legal (ops : list op) (b : wlr_drm_backend) :
  modesets_when_announced b ops -> all_steps_on_edges b ops.
Proof.
  revert b. induction ops as [|o ops IH]; intros b; simpl; [done|].
  intros [Hg Hrest]. destruct (step o b) as [b'|] eqn:Hs; [|done].
  split; [by apply (step_on_edges o) | by apply IH].
Qed.

Lemma guarded_steps_legal_witness :
  all_steps_on_edges initial_backend
    [Scan plugged; Modeset plugged 0 "preferred";
     Modeset plugged 0 "preferred"; Scan unplugged].
Proof.
  apply (guarded_steps_legal
           [Scan plugged; Modeset plugged 0 "preferred";
            Modeset plugged 0 "preferred"; Scan unplugged]
           initial_backend).
  vm_compute. repeat split.
Defined.

(** ** The CRTC mask *)

Lemma crtc_bit_pow (j : nat) : crtc_bit j = 2 ^ Z.of_nat j.
Proof. unfold crtc_bit. apply Z.shiftl_1_l. Qed.

Lemma crtc_bit_testbit (j n : nat) :
  Z.testbit (crtc_bit j) (Z.of_nat n) = bool_decide (j = n).
Proof.
  rewrite crtc_bit_pow, Z.pow2_bits_eqb by lia.
  case_bool_decide; [apply Z.eqb_eq | apply Z.eqb_neq]; lia.
Qed.

(** The test [(taken & (1 << j)) == 0] says that bit [j] is clear. *)
Lemma land_crtc_bit_zero (taken : Z) (j : nat) :
  (Z.land taken (crtc_bit j) =? 0) = true ->
  Z.testbit taken (Z.of_nat j) = false.
Proof.
  intros H. apply Z.eqb_eq in H.
  assert (Z.testbit (Z.land taken (crtc_bit j)) (Z.of_nat j) = false) as Hb
    by (rewrite H; apply Z.bits_0).
  rewrite Z.land_spec, crtc_bit_testbit, bool_decide_eq_true_2 in Hb by done.
  by rewrite andb_true_r in Hb.
Qed.

(** The mask after [taken_crtcs |= 1 << j], read below bit 32. *)
Lemma take_crtc_testbit (taken : Z) (j n : nat) :
  (n < 32)%nat ->
  Z.testbit (to_uint32 (Z.lor taken (crtc_bit j))) (Z.of_nat n) =
  Z.testbit taken (Z.of_nat n) || bool_decide (j = n).
Proof.
  intros Hn. unfold to_uint32.
  rewrite Z.mod_pow2_bits_low by lia.
  by rewrite Z.lor_spec, crtc_bit_testbit.
Qed.

Lemma count_bits_take (taken : Z) (j n : nat) :
  (n <= 32)%nat ->
  Z.testbit taken (Z.of_nat j) = false ->
  count_bits (to_uint32 (Z.lor taken (crtc_bit j))) n =
  ((if decide (j < n)%nat then 1 else 0) + count_bits taken n)%nat.
Proof.
  intros Hn Hj. induction n as [|n IH]; [done|].
  cbn [count_bits]. rewrite IH by lia. rewrite take_crtc_testbit by lia.
  destruct (decide (j = n)) as [->|Hne].
  - rewrite Hj, bool_decide_eq_true_2 by done.
    destruct (decide (n < n)%nat), (decide (n < S n)%nat); simpl; lia.
  - rewrite bool_decide_eq_false_2, orb_false_r by done.
    destruct (decide (j < n)%nat), (decide (j < S n)%nat); simpl; lia.
Qed.

(** Taking a free CRTC below bit 32 adds exactly one set bit. *)
Lemma popcount32_take (taken : Z) (j : nat) :
  (j < 32)%nat ->
  Z.testbit taken (Z.of_nat j) = false ->
  popcount32 (to_uint32 (Z.lor taken (crtc_bit j))) = S (popcount32 taken).
Proof.
  intros Hj Hb. unfold popcount32.
  rewrite count_bits_take by (done || lia). by rewrite decide_True by lia.
Qed.

(** The inner loop breaks at an index of the CRTC list whose bit is
    clear. *)
Lemma crtc_loop_spec (possible taken : Z) (ids : list Z) (j0 j : nat) (id : Z) :
  crtc_loop possible taken j0 ids = Some (j, id) ->
  exists n, j = (j0 + n)%nat /\ ids !! n = Some id /\
            Z.testbit taken (Z.of_nat j) = false.
Proof.
  revert j0. induction ids as [|c ids IH]; intros j0; simpl; [done|].
  destruct (Z.land possible (crtc_bit j0) =? 0).
  - intros H. destruct (IH _ H) as (n & -> & Hn & Hb).
    exists (S n). repeat split; [lia | done |].
    by replace (j0 + S n)%nat with (S j0 + n)%nat by lia.
  - destruct (Z.land taken (crtc_bit j0) =? 0) eqn:Ht.
    + intros [= <- <-]. exists 0%nat.
      rewrite Nat.add_0_r. repeat split. by apply land_crtc_bit_zero.
    + intros H. destruct (IH _ H) as (n & -> & Hn & Hb).
      exists (S n). repeat split; [lia | done |].
      by replace (j0 + S n)%nat with (S j0 + n)%nat by lia.
Qed.

Lemma encoder_loop_spec (k : drm_replies) (taken : Z) (ids encs : list Z)
    (j : nat) (id : Z) :
  encoder_loop k taken ids encs = Some (j, id) ->
  ids !! j = Some id /\ Z.testbit taken (Z.of_nat j) = false.
Proof.
  induction encs as [|e encs IH]; simpl; [done|].
  destruct (drmModeGetEncoder k e) as [enc|]; [|done].
  destruct (crtc_loop (possible_crtcs enc) taken 0 ids) as [r|] eqn:Hl; [|done].
  intros [= ->]. by destruct (crtc_loop_spec _ _ _ _ _ _ Hl) as (n & -> & ? & ?).
Qed.

(** ** Counting the CONNECTED displays *)

Lemma filter_length_pointwise {A : Type} (P : A -> Prop)
    `{!forall x, Decision (P x)} (l' l : list A) :
  (forall i x', l' !! i = Some x' -> P x' ->
     exists x, l !! i = Some x /\ P x) ->
  (length (filter P l') <= length (filter P l))%nat.
Proof.
  revert l. induction l' as [|x' l' IH]; intros l Hpt; [simpl; lia|].
  rewrite filter_cons. destruct l as [|x l].
  - rewrite decide_False.
    + rewrite (IH []); [done|]. intros i y' Hi Hy'.
      destruct (Hpt (S i) y' Hi Hy') as (y & Hy & _). done.
    + intros HP. destruct (Hpt 0%nat x' eq_refl HP) as (y & Hy & _). done.
  - rewrite filter_cons.
    assert (length (filter P l') <= length (filter P l))%nat as Hle.
    { apply IH. intros i y' Hi Hy'. apply (Hpt (S i) y' Hi Hy'). }
    destruct (decide (P x')) as [HP|HP]; [|case_decide; simpl; lia].
    destruct (Hpt 0%nat x' eq_refl HP) as (y & [= <-] & Hy).
    rewrite decide_True by done. simpl. lia.
Qed.

Lemma connected_count_releases_only (b b' : wlr_drm_backend) :
  releases_only b b' -> (connected_count b' <= connected_count b)%nat.
Proof.
  intros [_ D]. apply filter_length_pointwise.
  intros i d' Hi Hc. destruct (D i d' Hi Hc) as (d & ? & ? & _). by exists d.
Qed.

Lemma filter_length_insert {A : Type} (P : A -> Prop)
    `{!forall x, Decision (P x)} (l : list A) (i : nat) (x : A) :
  (length (filter P (<[i := x]> l)) <= S (length (filter P l)))%nat.
Proof.
  revert i. induction l as [|y l IH]; intros i; [simpl; lia|].
  destruct i as [|i]; simpl; rewrite !filter_cons.
  - repeat case_decide; simpl; lia.
  - specialize (IH i). case_decide; simpl; lia.
Qed.

(** ** The allocation invariant *)

Lemma allocation_invariant_releases_only (ids : list Z)
    (b b' : wlr_drm_backend) :
  releases_only b b' ->
  allocation_invariant ids b -> allocation_invariant ids b'.
Proof.
  intros Hr (Hcount & Hown & Hex). pose proof Hr as [Htk D].
  split; [|split].
  - rewrite Htk. pose proof (connected_count_releases_only b b' Hr). lia.
  - intros i d' Hi Hc. destruct (D i d' Hi Hc) as (d & Hd & Hcd & Hcr).
    destruct (Hown i d Hd Hcd) as (j & Hj & Hb).
    exists j. rewrite Htk, <- Hcr. done.
  - intros i j di dj Hne Hi Hj Hci Hcj.
    destruct (D i di Hi Hci) as (di0 & Hi0 & Hci0 & <-).
    destruct (D j dj Hj Hcj) as (dj0 & Hj0 & Hcj0 & <-).
    by apply (Hex i j).
Qed.

(** A successful modeset keeps the invariant: the CRTC it takes was free,
    so its bit is new and no CONNECTED display holds it. *)
Lemma allocation_invariant_take (ids : list Z) (b b' : wlr_drm_backend)
    (i j : nat) (d' : wlr_drm_display) :
  NoDup ids -> (length ids <= 31)%nat ->
  ids !! j = Some (crtc d') ->
  Z.testbit (taken_crtcs b) (Z.of_nat j) = false ->
  displays b' = <[i := d']> (displays b) ->
  taken_crtcs b' = to_uint32 (Z.lor (taken_crtcs b) (crtc_bit j)) ->
  allocation_invariant ids b -> allocation_invariant ids b'.
Proof.
  intros Hnd Hlen Hj Hfree Hds Htk (Hcount & Hown & Hex).
  assert (j < 32)%nat as Hj32 by (apply lookup_lt_Some in Hj; lia).
  assert (forall n, (n < 32)%nat ->
            Z.testbit (taken_crtcs b) (Z.of_nat n) = true ->
            Z.testbit (taken_crtcs b') (Z.of_nat n) = true) as Hmono.
  { intros n Hn Hb. by rewrite Htk, take_crtc_testbit, Hb. }
  assert (forall m d, m <> i -> displays b' !! m = Some d ->
            state d = DRM_DISP_CONNECTED ->
            displays b !! m = Some d /\
            exists j', ids !! j' = Some (crtc d) /\ j' <> j /\
              Z.testbit (taken_crtcs b) (Z.of_nat j') = true) as Hother.
  { intros m d Hne Hm Hc. rewrite Hds, list_lookup_insert_ne in Hm by done.
    split; [done|]. destruct (Hown m d Hm Hc) as (j' & Hj' & Hb).
    exists j'. repeat split; try done. intros ->. congruence. }
  split; [|split].
  - rewrite Htk, popcount32_take by done.
    unfold connected_count in *. rewrite Hds.
    pose proof (filter_length_insert
                  (fun d => state d = DRM_DISP_CONNECTED) (displays b) i d').
    lia.
  - intros m d Hm Hc. destruct (decide (m = i)) as [->|Hne].
    + rewrite Hds in Hm. apply list_lookup_insert_Some in Hm
        as [(_ & <- & _) | (? & _)]; [|done].
      exists j. split; [done|].
      by rewrite Htk, take_crtc_testbit, bool_decide_eq_true_2, orb_true_r.
    + destruct (Hother m d Hne Hm Hc) as (_ & j' & Hj' & _ & Hb).
      exists j'. split; [done|]. apply Hmono; [|done].
      apply lookup_lt_Some in Hj'. lia.
  - intros m n dm dn Hmn Hm Hn Hcm Hcn Heq.
    assert (forall m d, displays b' !! m = Some d -> m = i -> d = d') as Hat.
    { intros m0 d0 Hm0 ->. rewrite Hds in Hm0.
      apply list_lookup_insert_Some in Hm0 as [(_ & <- & _) | (? & _)]; done. }
    destruct (decide (m = i)) as [Hmi|Hmi];
      destruct (decide (n = i)) as [Hni|Hni].
    + congruence.
    + rewrite (Hat m dm Hm Hmi) in Heq.
      destruct (Hother n dn Hni Hn Hcn) as (_ & j' & Hj' & Hne & _).
      rewrite <- Heq in Hj'. by pose proof (NoDup_lookup ids j j' _ Hnd Hj Hj').
    + rewrite (Hat n dn Hn Hni) in Heq.
      destruct (Hother m dm Hmi Hm Hcm) as (_ & j' & Hj' & Hne & _).
      rewrite Heq in Hj'. by pose proof (NoDup_lookup ids j j' _ Hnd Hj Hj').
    + destruct (Hother m dm Hmi Hm Hcm) as (Hm0 & _).
      destruct (Hother n dn Hni Hn Hcn) as (Hn0 & _).
      by apply (Hex m n dm dn).
Qed.

Lemma allocation_invariant_step (ids : list Z) (o : op)
    (b b' : wlr_drm_backend) :
  NoDup ids -> (length ids <= 31)%nat ->
  reports_crtcs ids o ->
  step o b = Some b' ->
  allocation_invariant ids b -> allocation_invariant ids b'.
Proof.
  intros Hnd Hlen Hrep.
  destruct o as [k | k i str | pumps i | flips | fb_id i]; simpl; intros Hs.
  - inversion Hs; subst. apply allocation_invariant_releases_only.
    apply wlr_drm_scan_connectors_legal.
  - destruct (wlr_drm_display_modeset k b i str) as [[ok b1]|] eqn:Hm;
      [|discriminate].
    inversion Hs; subst b'. clear Hs.
    destruct (displays b !! i) as [d|] eqn:Hd.
    + destruct (modeset_inv k b i str ok b1 d Hd Hm)
        as [(_ & _ & d' & He)
           | (_ & conn & res & j & id & d' & _ & Hres & Henc & Hds & Hst & Hcr
              & Htk & _)].
      * inversion He; subst b1. apply allocation_invariant_releases_only.
        by apply (releases_only_one_display b _ i d
                    (set_state DRM_DISP_DISCONNECTED d')).
      * rewrite (Hrep k res eq_refl Hres) in Henc.
        apply encoder_loop_spec in Henc as [Hj Hfree].
        apply (allocation_invariant_take ids b b1 i j d'); try done.
        by rewrite Hcr.
    + unfold wlr_drm_display_modeset in Hm. rewrite Hd in Hm.
      by inversion Hm; subst.
  - apply allocation_invariant_releases_only, quiet_step_releases_only.
    by eapply wlr_drm_display_free_quiet.
  - inversion Hs; subst.
    apply allocation_invariant_releases_only, quiet_step_releases_only.
    apply drmHandleEvent_quiet.
  - inversion Hs; subst.
    apply allocation_invariant_releases_only, quiet_step_releases_only.
    apply wlr_drm_display_end_quiet.
Qed.

Lemma allocation_invariant_run (ids : list Z) (ops : list op)
    (b b' : wlr_drm_backend) :
  NoDup ids -> (length ids <= 31)%nat ->
  Forall (reports_crtcs ids) ops ->
  run ops b = Some b' ->
  allocation_invariant ids b -> allocation_invariant ids b'.
Proof.
  intros Hnd Hlen Hrep. revert b.
  induction Hrep as [|o ops Ho _ IH]; intros b; simpl.
  - by intros [= <-].
  - destruct (step o b) as [b1|] eqn:Hs; [|discriminate].
    intros Hrun Hinv. apply (IH b1 Hrun).
    by apply (allocation_invariant_step ids o b b1).
Qed.

Lemma allocation_invariant_initial (ids : list Z) :
  allocation_invariant ids initial_backend.
Proof.
  split; [|split].
  - vm_compute. lia.
  - intros i d Hi. done.
  - intros i j di dj _ Hi. done.
Qed.

Lemma released_backend_reachable :
  run [Scan plugged; Modeset plugged 0 "preferred"; Scan unplugged]
    initial_backend
  = Some released_backend.
Proof. vm_compute. reflexivity. Qed.

(** C3 (as stated): in every reachable backend the mask has as many set
    bits as there are CONNECTED displays.  This fails once a display is
    unplugged: its state becomes DISCONNECTED and the bit of its CRTC stays
    set. *)
Lemma unplug_keeps_crtc_bit : ~ mask_counts_connected.
Proof.
  intros H.
  destruct (H _ released_backend released_backend_reachable) as [Hc _].
  vm_compute in Hc. discriminate Hc.
Qed.

(** C3 (amended): on a device whose resource queries report one list of
    at most 31 distinct CRTCs, in every backend reached by any sequence of
    scan, modeset, free, event-pump and end calls, the number of set bits
    of the CRTC mask is at least the number of CONNECTED displays (a bit is
    set by a successful modeset and never cleared), and no CRTC is assigned
    to two CONNECTED displays. *)
Theorem crtc_mask_covers_connected (ids : list Z) (ops : list op)
    (b : wlr_drm_backend) :
  NoDup ids -> (length ids <= 31)%nat ->
  Forall (reports_crtcs ids) ops ->
  run ops initial_backend = Some b ->
  (connected_count b <= popcount32 (taken_crtcs b))%nat /\
  crtcs_exclusive b.
Proof.
  intros Hnd Hlen Hrep Hrun.
  destruct (allocation_invariant_run ids ops initial_backend b
              Hnd Hlen Hrep Hrun (allocation_invariant_initial ids))
    as (? & _ & ?).
  done.
Qed.

Lemma crtc_mask_covers_connected_witness :
  (connected_count fresh_backend <= popcount32 (taken_crtcs fresh_backend))%nat
  /\ crtcs_exclusive fresh_backend.
Proof.
  apply (crtc_mask_covers_connected [40; 41]
           [Scan plugged; Modeset plugged 0 "preferred"] fresh_backend).
  - apply (bool_decide_unpack _). vm_compute. exact I.
  - simpl. lia.
  - repeat constructor; intros k res Hk Hres;
      inversion Hk; subst k; inversion Hres; reflexivity.
  - vm_compute. reflexivity.
Defined.

(** * Further properties of the code *)

(** ** The scan, slot by slot: the moves *)

(** X1: in a scan that reaches its connector loop, the slot of every
    connector that can be queried makes exactly the move of the hotplug
    state machine for its state and the reported connection (INVALID or
    DISCONNECTED go to NEEDS_MODESET with one ADD when connected and to
    DISCONNECTED otherwise; NEEDS_MODESET stays; CONNECTED goes to
    DISCONNECTED with one REM when no longer connected), and these are all
    the ADD and REM events the scan adds for it; a slot whose connector
    cannot be queried keeps its state and gets no event. *)
Theorem wlr_drm_scan_connectors_slot (k : drm_replies) (b : wlr_drm_backend)
    (res : drmModeRes) (i : nat) (id : Z) :
  scan_proceeds k b res ->
  connectors res !! i = Some id ->
  exists evs,
    events (wlr_drm_scan_connectors k b) = events b ++ evs /\
    (state_at (wlr_drm_scan_connectors k b) i, hotplug_events i evs) =
    match drmModeGetConnector k id with
    | Some conn => hotplug_transition (state_at b i) (connection conn)
    | None => (state_at b i, [])
    end.
Proof.
  intros Hp Hi. rewrite (scan_explicit k b res Hp).
  eexists. split; [reflexivity|]. unfold state_at at 1. simpl.
  assert (is_Some (grown_table b res !! i)) as [d Hd].
  { apply lookup_lt_is_Some. rewrite grown_table_length.
    apply lookup_lt_Some in Hi. lia. }
  pose proof (grown_table_state b res i) as Hst. rewrite Hd in Hst.
  pose proof (scan_displays_at k _ 0 i id _ d Hi Hd) as Hat.
  pose proof (scan_events_at k _ 0 i id _ d Hi Hd) as Hev.
  change (0 + i)%nat with i in Hat, Hev. rewrite Hat, Hev.
  destruct (drmModeGetConnector k id) as [conn|] eqn:Hc.
  - rewrite <- Hst. by apply scan_slot_transition.
  - unfold scan_slot. rewrite Hc. simpl. by rewrite Hst.
Qed.

Lemma wlr_drm_scan_connectors_slot_witness :
  exists evs,
    events (wlr_drm_scan_connectors unplugged fresh_backend) =
      events fresh_backend ++ evs /\
    (state_at (wlr_drm_scan_connectors unplugged fresh_backend) 0,
     hotplug_events 0 evs) =
    (DRM_DISP_DISCONNECTED, [DRM_EV_DISPLAY_REM]).
Proof.
  apply (wlr_drm_scan_connectors_slot unplugged fresh_backend
           (MkRes [20] [40; 41]) 0 20).
  - split; [reflexivity | left; simpl; lia].
  - reflexivity.
Defined.

(** *** A second scan of unchanged hardware *)

Lemma scan_slot_idem (k : drm_replies) (id : Z) (d : wlr_drm_display) :
  scan_slot k id (fst (scan_slot k id d)) = (fst (scan_slot k id d), []).
Proof.
  unfold scan_slot. destruct (drmModeGetConnector k id) as [conn|]; [|done].
  cbv zeta.
  destruct (state d) eqn:Hs;
    destruct (decide (connection conn = DRM_MODE_CONNECTED)) as [Hcn|Hcn];
    repeat (case_decide; simpl in * );
    try reflexivity; try congruence; try (exfalso; intuition congruence).
Qed.

Lemma scan_displays_idem (k : drm_replies) (ids : list Z) (j : nat)
    (ds : list wlr_drm_display) :
  scan_displays k j ids (scan_displays k j ids ds) = scan_displays k j ids ds /\
  scan_events k j ids (scan_displays k j ids ds) = [].
Proof.
  revert j ds. induction ids as [|id ids IH]; intros j ds; [done|].
  cbn [scan_displays scan_events].
  set (ds1 := match ds !! j with
              | Some d => <[j := fst (scan_slot k id d)]> ds
              | None => ds
              end).
  assert (scan_displays k (S j) ids ds1 !! j = ds1 !! j) as Hj
    by (apply scan_displays_below; lia).
  destruct (IH (S j) ds1) as [IHd IHe].
  destruct (ds !! j) as [d|] eqn:Hd; subst ds1.
  - rewrite list_lookup_insert_eq in Hj by by eapply lookup_lt_Some.
    rewrite Hj, scan_slot_idem. simpl.
    rewrite (list_insert_id _ j _ Hj). done.
  - rewrite Hd in Hj. by rewrite Hj.
Qed.

(** X2: a second scan that gets the same replies as the first changes
    nothing: it leaves the backend, display for display, as the first scan
    left it, and adds no event. *)
Theorem wlr_drm_scan_connectors_twice (k : drm_replies) (b : wlr_drm_backend) :
  wlr_drm_scan_connectors k (wlr_drm_scan_connectors k b) =
  wlr_drm_scan_connectors k b.
Proof.
  destruct (scan_proceeds_dec k b) as [[res Hp] | Hno].
  - rewrite (scan_explicit k b res Hp).
    match goal with |- wlr_drm_scan_connectors k ?b1 = _ => set (b1' := b1) end.
    assert (scan_proceeds k b1' res) as Hp1.
    { destruct Hp as [Hres _]. split; [done|]. left. unfold b1'. simpl.
      rewrite scan_displays_length, grown_table_length. lia. }
    rewrite (scan_explicit k b1' res Hp1).
    assert (grown_table b1' res = displays b1') as ->.
    { unfold grown_table.
      replace (length (connectors res) - length (displays b1'))%nat
        with 0%nat; [by rewrite app_nil_r|].
      unfold b1'. simpl. rewrite scan_displays_length, grown_table_length.
      lia. }
    unfold b1'. simpl.
    destruct (scan_displays_idem k (connectors res) 0 (grown_table b res))
      as [-> ->].
    by rewrite app_nil_r.
  - by rewrite !(scan_stops k b Hno).
Qed.

(** X3: a scan never shrinks the table; when it reaches its connector loop
    the table has as many slots as the larger of its old length and the
    connector count, and the slots at and past the connector count are
    those it had. *)
Theorem wlr_drm_scan_connectors_table (k : drm_replies) (b : wlr_drm_backend) :
  (length (displays b) <= length (displays (wlr_drm_scan_connectors k b)))%nat
  /\
  forall res, scan_proceeds k b res ->
    length (displays (wlr_drm_scan_connectors k b)) =
      (length (displays b) `max` length (connectors res))%nat /\
    forall i, (length (connectors res) <= i)%nat ->
      displays (wlr_drm_scan_connectors k b) !! i = displays b !! i.
Proof.
  assert (forall res, scan_proceeds k b res ->
    length (displays (wlr_drm_scan_connectors k b)) =
      (length (displays b) `max` length (connectors res))%nat /\
    forall i, (length (connectors res) <= i)%nat ->
      displays (wlr_drm_scan_connectors k b) !! i = displays b !! i) as H.
  { intros res Hp. rewrite (scan_explicit k b res Hp). simpl. split.
    - by rewrite scan_displays_length, grown_table_length.
    - intros i Hi. rewrite scan_displays_above by (simpl; lia).
      unfold grown_table. rewrite lookup_app.
      destruct (displays b !! i) as [d|] eqn:Hd; [done|].
      apply lookup_ge_None in Hd. apply lookup_ge_None.
      rewrite length_replicate. lia. }
  split; [|done].
  destruct (scan_proceeds_dec k b) as [[res Hp] | Hno].
  - destruct (H res Hp) as [-> _]. lia.
  - by rewrite (scan_stops k b Hno).
Qed.

Lemma scan_slot_connected (k : drm_replies) (id : Z) (d : wlr_drm_display) :
  state (fst (scan_slot k id d)) = DRM_DISP_CONNECTED ->
  fst (scan_slot k id d) = d.
Proof.
  unfold scan_slot. destruct (drmModeGetConnector k id) as [conn|]; [|done].
  cbv zeta. repeat (case_decide; simpl); try done; try discriminate.
  all: intros; exfalso; intuition congruence.
Qed.

(** X4: a scan takes no CRTC and releases none, sends no request to the
    device, and no display is CONNECTED after it that was not CONNECTED
    before; a display that is still CONNECTED is exactly as it was. *)
Theorem wlr_drm_scan_connectors_frame (k : drm_replies) (b : wlr_drm_backend) :
  taken_crtcs (wlr_drm_scan_connectors k b) = taken_crtcs b /\
  requests (wlr_drm_scan_connectors k b) = requests b /\
  forall i d,
    displays (wlr_drm_scan_connectors k b) !! i = Some d ->
    state d = DRM_DISP_CONNECTED ->
    displays b !! i = Some d.
Proof.
  destruct (scan_proceeds_dec k b) as [[res Hp] | Hno];
    [|by rewrite (scan_stops k b Hno)].
  rewrite (scan_explicit k b res Hp). simpl. repeat split.
  intros i d Hi Hc.
  assert (grown_table b res !! i = Some d) as Hg.
  { destruct (decide (i < length (connectors res))%nat) as [Hlt|Hge].
    - destruct (lookup_lt_is_Some_2 (connectors res) i Hlt) as [id Hid].
      assert (is_Some (grown_table b res !! i)) as [d0 Hd0].
      { apply lookup_lt_is_Some. rewrite grown_table_length. lia. }
      pose proof (scan_displays_at k _ 0 i id _ d0 Hid Hd0) as Hat.
      change (0 + i)%nat with i in Hat. rewrite Hat in Hi.
      inversion Hi; subst d. by rewrite scan_slot_connected.
    - by rewrite scan_displays_above in Hi by (simpl; lia). }
  unfold grown_table in Hg. apply lookup_app_Some in Hg as [Hg | [_ Hg]];
    [done|].
  apply lookup_replicate_1 in Hg as [-> _]. discriminate.
Qed.

(** ** Modeset, in full *)

Lemma display_init_renderer_display (k : drm_replies) (i : nat)
    (b : wlr_drm_backend) (d : wlr_drm_display) :
  displays b !! i = Some d ->
  exists g e,
    displays (snd (display_init_renderer k i b)) =
      <[i := set_egl e (set_gbm g d)]> (displays b) /\
    taken_crtcs (snd (display_init_renderer k i b)) = taken_crtcs b /\
    events (snd (display_init_renderer k i b)) = events b.
Proof.
  intros Hd. unfold display_init_renderer. rewrite Hd.
  destruct (gbm_surface_create k) eqn:Hg; simpl.
  - destruct (create_platform_window_surface k) eqn:He; simpl.
    + by exists true, true.
    + by exists true, false.
  - by exists false, (egl d).
Qed.

(** The index that [select_mode] returns is an index of the list. *)
Lemma select_mode_in_bounds (ms : list drmModeModeInfo)
    (old : option drmModeCrtc) (str : string) (i : nat) :
  ms <> [] -> select_mode ms old str = Returns (Some i) ->
  is_Some (ms !! i).
Proof.
  intros Hne. unfold select_mode.
  assert (forall test i, mode_loop test ms 0 = Some i -> is_Some (ms !! i))
    as Hloop.
  { intros test j Hj. pose proof (mode_loop_spec test ms 0) as H.
    rewrite Hj in H. destruct H as (n & m & -> & Hm & _). by exists m. }
  destruct (String.eqb str "preferred").
  { intros [= <-]. destruct ms; [done | by eexists]. }
  destruct (String.eqb str "current").
  { destruct old as [crtc|]; [|discriminate].
    destruct (mode_loop _ ms 0) as [j|] eqn:Hj; [|discriminate].
    intros [= <-]. by eapply Hloop. }
  destruct (Scanf.sscanf_uxu_at_u str) as [[[ret w] h] r].
  destruct (negb (ret =? 2) && negb (ret =? 3)); [discriminate|].
  intros [= Hj]. by eapply Hloop.
Qed.

(** The modeset that returns true. *)
Lemma modeset_success (k : drm_replies) (b b' : wlr_drm_backend) (i : nat)
    (str : string) (d : wlr_drm_display) :
  displays b !! i = Some d ->
  wlr_drm_display_modeset k b i str = Returns (true, b') ->
  exists conn a m res j d',
    drmModeGetConnector k (connector d) = Some conn /\
    connection conn = DRM_MODE_CONNECTED /\
    alloc_ok k = true /\
    select_mode (conn_modes conn)
      (old_crtc (refresh_old_crtc k conn d)) str = Returns (Some a) /\
    conn_modes conn !! a = Some m /\
    drmModeGetResources k = Some res /\
    encoder_loop k (taken_crtcs b) (crtcs res) (encoders conn)
      = Some (j, crtc d') /\
    displays b' = <[i := d']> (displays b) /\
    taken_crtcs b' = to_uint32 (Z.lor (taken_crtcs b) (crtc_bit j)) /\
    events b' = events b /\
    state d' = DRM_DISP_CONNECTED /\
    modes d' = Some (conn_modes conn) /\
    num_modes d' = length (conn_modes conn) /\
    active_mode d' = Some a /\
    width d' = hdisplay m /\ height d' = vdisplay m /\
    old_crtc d' = old_crtc (refresh_old_crtc k conn d) /\
    connector d' = connector d /\ name d' = name d /\
    pageflip_pending d' = pageflip_pending d /\ cleanup d' = cleanup d.
Proof.
  intros Hd. unfold wlr_drm_display_modeset, modeset_error. rewrite Hd.
  destruct (drmModeGetConnector k (connector d)) as [conn|] eqn:Hc;
    [|discriminate].
  case_decide as Hcond; [discriminate|].
  destruct (alloc_ok k) eqn:Ha; simpl; [|discriminate].
  rewrite old_crtc_refresh_set_modes.
  destruct (select_mode _ _ str) as [[a|]|] eqn:Hsel; try discriminate.
  destruct (drmModeGetResources k) as [res|] eqn:Hres; [|discriminate].
  destruct (encoder_loop _ _ _ _) as [[j id]|] eqn:Henc; [|discriminate].
  assert (conn_modes conn <> []) as Hne.
  { intros Hnil. apply Hcond. right. by rewrite Hnil. }
  destruct (select_mode_in_bounds _ _ _ _ Hne Hsel) as [m Hm].
  assert (connection conn = DRM_MODE_CONNECTED) as Hcn.
  { destruct (decide (connection conn = DRM_MODE_CONNECTED)); [done|].
    destruct Hcond. by left. }
  assert (forall d0, state (refresh_old_crtc k conn d0) = state d0 /\
            connector (refresh_old_crtc k conn d0) = connector d0 /\
            name (refresh_old_crtc k conn d0) = name d0 /\
            modes (refresh_old_crtc k conn d0) = modes d0 /\
            num_modes (refresh_old_crtc k conn d0) = num_modes d0 /\
            pageflip_pending (refresh_old_crtc k conn d0)
              = pageflip_pending d0 /\
            cleanup (refresh_old_crtc k conn d0) = cleanup d0) as Hrf.
  { intros d0. unfold refresh_old_crtc.
    by destruct (drmModeGetEncoder k (encoder_id conn)). }
  match goal with
  | |- context [display_init_renderer k i (set_display i ?d1 ?b1)] =>
      set (D := d1); set (B := b1)
  end.
  assert (active_mode_info
            (set_state DRM_DISP_CONNECTED
               (set_crtc id
                  (set_active_mode (Some a)
                     (refresh_old_crtc k conn
                        (set_modes (length (conn_modes conn))
                           (Some (conn_modes conn)) d))))) = Some m) as Hinfo.
  { unfold active_mode_info. simpl.
    destruct (Hrf (set_modes (length (conn_modes conn))
                     (Some (conn_modes conn)) d))
      as (_ & _ & _ & -> & _). done. }
  subst D. rewrite Hinfo.
  match goal with
  | |- context [display_init_renderer k i (set_display i ?d1 B)] =>
      set (D := d1)
  end.
  destruct (display_init_renderer_display k i (set_display i D B) D)
    as (g & e & Hds & Htk & Hev);
    [by apply (lookup_set_display_eq _ i d)|].
  intros [= <-].
  exists conn, a, m, res, j, (set_egl e (set_gbm g D)).
  destruct (Hrf (set_modes (length (conn_modes conn))
                   (Some (conn_modes conn)) d))
    as (_ & Hcon & Hnm & Hmd & Hnum & Hpf & Hcl).
  rewrite Hds. subst D B. simpl.
  rewrite list_insert_insert_eq, old_crtc_refresh_set_modes.
  rewrite Hmd, Hnum, Hcon, Hnm, Hpf, Hcl. simpl.
  repeat split; try done.
Qed.

(** X5: a modeset that returns true leaves the display CONNECTED with the
    mode list of its connector, the mode that [select_mode] chose as active
    mode and that mode's size as width and height; the CRTC it holds is the
    one at an index of the resource list whose bit was clear, that bit is
    the only bit of the mask below bit 32 that changes, no event is added
    and no other display is touched. *)
Theorem wlr_drm_display_modeset_configures (k : drm_replies)
    (b b' : wlr_drm_backend) (i : nat) (str : string) (d : wlr_drm_display) :
  displays b !! i = Some d ->
  wlr_drm_display_modeset k b i str = Returns (true, b') ->
  exists conn a m res j d',
    drmModeGetConnector k (connector d) = Some conn /\
    select_mode (conn_modes conn)
      (old_crtc (refresh_old_crtc k conn d)) str = Returns (Some a) /\
    conn_modes conn !! a = Some m /\
    drmModeGetResources k = Some res /\
    crtcs res !! j = Some (crtc d') /\
    Z.testbit (taken_crtcs b) (Z.of_nat j) = false /\
    (forall n, (n < 32)%nat ->
       Z.testbit (taken_crtcs b') (Z.of_nat n) =
       Z.testbit (taken_crtcs b) (Z.of_nat n) || bool_decide (j = n)) /\
    displays b' = <[i := d']> (displays b) /\
    events b' = events b /\
    state d' = DRM_DISP_CONNECTED /\
    modes d' = Some (conn_modes conn) /\
    active_mode d' = Some a /\
    width d' = hdisplay m /\ height d' = vdisplay m.
Proof.
  intros Hd Hm.
  destruct (modeset_success k b b' i str d Hd Hm)
    as (conn & a & m & res & j & d' & Hc & _ & _ & Hsel & Ha & Hres & Henc
        & Hds & Htk & Hev & Hst & Hmd & _ & Ham & Hw & Hh & _).
  destruct (encoder_loop_spec _ _ _ _ _ _ Henc) as [Hj Hfree].
  exists conn, a, m, res, j, d'. repeat split; try done.
  intros n Hn. rewrite Htk. by apply take_crtc_testbit.
Qed.

Lemma wlr_drm_display_modeset_configures_witness :
  exists conn a m res j d',
    drmModeGetConnector plugged (connector detected_display) = Some conn /\
    select_mode (conn_modes conn)
      (old_crtc (refresh_old_crtc plugged conn detected_display)) "preferred"
      = Returns (Some a) /\
    conn_modes conn !! a = Some m /\
    drmModeGetResources plugged = Some res /\
    crtcs res !! j = Some (crtc d') /\
    Z.testbit (taken_crtcs scanned_backend) (Z.of_nat j) = false /\
    (forall n, (n < 32)%nat ->
       Z.testbit (taken_crtcs fresh_backend) (Z.of_nat n) =
       Z.testbit (taken_crtcs scanned_backend) (Z.of_nat n)
       || bool_decide (j = n)) /\
    displays fresh_backend = <[0%nat := d']> (displays scanned_backend) /\
    events fresh_backend = events scanned_backend /\
    state d' = DRM_DISP_CONNECTED /\
    modes d' = Some (conn_modes conn) /\
    active_mode d' = Some a /\
    width d' = hdisplay m /\ height d' = vdisplay m.
Proof.
  apply (wlr_drm_display_modeset_configures plugged scanned_backend
           fresh_backend 0 "preferred" detected_display).
  - reflexivity.
  - vm_compute. reflexivity.
Defined.

(** X6: a modeset that returns false takes no CRTC, sends no request to
    the device and leaves every other display as it was. *)
Theorem wlr_drm_display_modeset_failure_frame (k : drm_replies)
    (b b' : wlr_drm_backend) (i : nat) (str : string) (d : wlr_drm_display) :
  displays b !! i = Some d ->
  wlr_drm_display_modeset k b i str = Returns (false, b') ->
  taken_crtcs b' = taken_crtcs b /\
  requests b' = requests b /\
  forall i', i' <> i -> displays b' !! i' = displays b !! i'.
Proof.
  intros Hd Hm.
  destruct (modeset_inv k b i str false b' d Hd Hm)
    as [(_ & _ & d' & He) | (Hok & _)]; [|discriminate].
  inversion He; subst b'. repeat split.
  intros i' Hne. simpl. by apply list_lookup_insert_ne.
Qed.

Lemma wlr_drm_display_modeset_failure_frame_witness :
  taken_crtcs rejected_backend = taken_crtcs scanned_backend /\
  requests rejected_backend = requests scanned_backend /\
  forall i', i' <> 0%nat ->
    displays rejected_backend !! i' = displays scanned_backend !! i'.
Proof.
  apply (wlr_drm_display_modeset_failure_frame plugged scanned_backend
           rejected_backend 0 "640x480" detected_display).
  - reflexivity.
  - vm_compute. reflexivity.
Defined.

(** ** The CRTC allocator *)

Lemma crtc_loop_first (possible taken : Z) (ids : list Z) (j0 : nat) :
  match crtc_loop possible taken j0 ids with
  | Some (j, id) =>
      exists n, j = (j0 + n)%nat /\ ids !! n = Some id /\
        Z.land possible (crtc_bit j) <> 0 /\ Z.land taken (crtc_bit j) = 0 /\
        forall n', (n' < n)%nat ->
          ~ (Z.land possible (crtc_bit (j0 + n')) <> 0 /\
             Z.land taken (crtc_bit (j0 + n')) = 0)
  | None =>
      forall n, (n < length ids)%nat ->
        ~ (Z.land possible (crtc_bit (j0 + n)) <> 0 /\
           Z.land taken (crtc_bit (j0 + n)) = 0)
  end.
Proof.
  revert j0. induction ids as [|c ids IH]; intros j0; simpl.
  { intros n Hn. lia. }
  assert (~ (Z.land possible (crtc_bit j0) <> 0 /\
             Z.land taken (crtc_bit j0) = 0) ->
          match crtc_loop possible taken (S j0) ids with
          | Some (j, id) =>
              exists n, j = (j0 + n)%nat /\ (c :: ids) !! n = Some id /\
                Z.land possible (crtc_bit j) <> 0 /\
                Z.land taken (crtc_bit j) = 0 /\
                forall n', (n' < n)%nat ->
                  ~ (Z.land possible (crtc_bit (j0 + n')) <> 0 /\
                     Z.land taken (crtc_bit (j0 + n')) = 0)
          | None =>
              forall n, (n < S (length ids))%nat ->
                ~ (Z.land possible (crtc_bit (j0 + n)) <> 0 /\
                   Z.land taken (crtc_bit (j0 + n)) = 0)
          end) as Hskip.
  { intros Hno. specialize (IH (S j0)).
    destruct (crtc_loop possible taken (S j0) ids) as [[j id]|].
    - destruct IH as (n & -> & Hn & Hc & Hf & Hlt).
      exists (S n). replace (j0 + S n)%nat with (S j0 + n)%nat by lia.
      split; [done|]. split; [done|]. split; [done|]. split; [done|].
      intros [|n'] Hn'.
      + by rewrite Nat.add_0_r.
      + replace (j0 + S n')%nat with (S j0 + n')%nat by lia. apply Hlt. lia.
    - intros [|n] Hn.
      + by rewrite Nat.add_0_r.
      + replace (j0 + S n)%nat with (S j0 + n)%nat by lia. apply IH. lia. }
  destruct (Z.land possible (crtc_bit j0) =? 0) eqn:Hp.
  - apply Z.eqb_eq in Hp. apply Hskip. by intros [? _].
  - apply Z.eqb_neq in Hp.
    destruct (Z.land taken (crtc_bit j0) =? 0) eqn:Ht.
    + apply Z.eqb_eq in Ht. exists 0%nat. rewrite Nat.add_0_r.
      split; [done|]. split; [done|]. split; [done|]. split; [done|].
      intros n' Hn'. lia.
    + apply Z.eqb_neq in Ht. apply Hskip. by intros [_ ?].
Qed.

(** X7: the allocator takes the first free CRTC of the first encoder that
    has one: the result is the lowest index of the CRTC list that the
    encoder can drive and whose bit is clear, for the first encoder of the
    connector that can be fetched and has such an index; it fails exactly
    when no encoder that can be fetched has one. *)
Theorem encoder_loop_first_free (k : drm_replies) (taken : Z)
    (ids encs : list Z) :
  match encoder_loop k taken ids encs with
  | Some (j, id) =>
      ids !! j = Some id /\ crtc_free taken j /\
      exists p e enc,
        encs !! p = Some e /\ drmModeGetEncoder k e = Some enc /\
        crtc_compatible enc j /\
        (forall j', (j' < j)%nat ->
           ~ (crtc_compatible enc j' /\ crtc_free taken j')) /\
        (forall p' e' enc', (p' < p)%nat ->
           encs !! p' = Some e' -> drmModeGetEncoder k e' = Some enc' ->
           ~ encoder_can_take enc' taken (length ids))
  | None =>
      forall e enc, e ∈ encs -> drmModeGetEncoder k e = Some enc ->
        ~ encoder_can_take enc taken (length ids)
  end.
Proof.
  unfold encoder_can_take, crtc_free, crtc_compatible.
  induction encs as [|e encs IH]; simpl.
  { intros e enc He. inversion He. }
  assert ((forall enc0,
            drmModeGetEncoder k e = Some enc0 ->
            ~ (exists j, (j < length ids)%nat /\
                 Z.land (possible_crtcs enc0) (crtc_bit j) <> 0 /\
                 Z.land taken (crtc_bit j) = 0)) ->
          match encoder_loop k taken ids encs with
          | Some (j, id) =>
              ids !! j = Some id /\ Z.land taken (crtc_bit j) = 0 /\
              exists p e0 enc,
                (e :: encs) !! p = Some e0 /\
                drmModeGetEncoder k e0 = Some enc /\
                Z.land (possible_crtcs enc) (crtc_bit j) <> 0 /\
                (forall j', (j' < j)%nat ->
                   ~ (Z.land (possible_crtcs enc) (crtc_bit j') <> 0 /\
                      Z.land taken (crtc_bit j') = 0)) /\
                (forall p' e' enc', (p' < p)%nat ->
                   (e :: encs) !! p' = Some e' ->
                   drmModeGetEncoder k e' = Some enc' ->
                   ~ (exists j0, (j0 < length ids)%nat /\
                        Z.land (possible_crtcs enc') (crtc_bit j0) <> 0 /\
                        Z.land taken (crtc_bit j0) = 0))
          | None =>
              forall e0 enc, e0 ∈ e :: encs ->
                drmModeGetEncoder k e0 = Some enc ->
                ~ (exists j0, (j0 < length ids)%nat /\
                     Z.land (possible_crtcs enc) (crtc_bit j0) <> 0 /\
                     Z.land taken (crtc_bit j0) = 0)
          end) as Hskip.
  { intros Hno. destruct (encoder_loop k taken ids encs) as [[j id]|].
    - destruct IH as (Hj & Hf & p & e1 & enc1 & Hp & He1 & Hc & Hlow & Hprev).
      split; [done|]. split; [done|].
      exists (S p), e1, enc1.
      split; [done|]. split; [done|]. split; [done|]. split; [done|].
      intros [|p'] e' enc' Hp' Hl' He'; simpl in Hl'.
      + inversion Hl'; subst e'. by apply Hno.
      + apply (Hprev p' e' enc'); [lia | done | done].
    - intros e' enc' Hin He'. apply elem_of_cons in Hin as [-> | Hin].
      + by apply Hno.
      + by apply (IH e' enc'). }
  destruct (drmModeGetEncoder k e) as [enc|] eqn:He; [|by apply Hskip].
  pose proof (crtc_loop_first (possible_crtcs enc) taken ids 0) as Hl.
  destruct (crtc_loop (possible_crtcs enc) taken 0 ids) as [[j id]|].
  - destruct Hl as (n & -> & Hn & Hc & Hf & Hlt). simpl.
    split; [done|]. split; [done|].
    exists 0%nat, e, enc.
    split; [done|]. split; [done|]. split; [done|]. split.
    + intros j' Hj'. apply (Hlt j' Hj').
    + intros p' e' enc' Hp'. lia.
  - apply Hskip. intros enc0 [= <-] (j' & Hj' & Hcf). by apply (Hl j' Hj').
Qed.

(** ** The mask only grows *)

Lemma step_taken_monotone (o : op) (b b' : wlr_drm_backend) (n : nat) :
  step o b = Some b' -> (n < 32)%nat ->
  Z.testbit (taken_crtcs b) (Z.of_nat n) = true ->
  Z.testbit (taken_crtcs b') (Z.of_nat n) = true.
Proof.
  intros Hs Hn Hb.
  destruct o as [k | k i str | pumps i | flips | fb_id i]; simpl in Hs.
  - inversion Hs; subst.
    destruct (wlr_drm_scan_connectors_legal k b) as [_ [-> _]]. done.
  - destruct (wlr_drm_display_modeset k b i str) as [[ok b1]|] eqn:Hm;
      [|discriminate].
    inversion Hs; subst b'. clear Hs.
    destruct (displays b !! i) as [d|] eqn:Hd.
    + destruct (modeset_inv k b i str ok b1 d Hd Hm)
        as [(_ & _ & d' & He)
           | (_ & conn & res & j & id & d' & _ & _ & _ & _ & _ & _ & Htk & _)].
      * by inversion He; subst b1.
      * by rewrite Htk, take_crtc_testbit, Hb.
    + unfold wlr_drm_display_modeset in Hm. rewrite Hd in Hm.
      by inversion Hm; subst.
  - destruct (wlr_drm_display_free_quiet pumps i b b' Hs) as (_ & -> & _).
    done.
  - inversion Hs; subst.
    destruct (drmHandleEvent_quiet flips b) as (_ & Ht & _).
    unfold wlr_drm_event. by rewrite Ht.
  - inversion Hs; subst.
    destruct (wlr_drm_display_end_quiet b fb_id i) as (_ & -> & _). done.
Qed.

Lemma count_bits_mono (v v' : Z) (n : nat) :
  (forall m, (m < n)%nat ->
     Z.testbit v (Z.of_nat m) = true -> Z.testbit v' (Z.of_nat m) = true) ->
  (count_bits v n <= count_bits v' n)%nat.
Proof.
  induction n as [|n IH]; intros H; simpl; [lia|].
  assert (count_bits v n <= count_bits v' n)%nat
    by (apply IH; intros m Hm; apply H; lia).
  specialize (H n). destruct (Z.testbit v (Z.of_nat n)).
  - rewrite H by (done || lia). lia.
  - destruct (Z.testbit v' (Z.of_nat n)); lia.
Qed.

(** X8: no sequence of calls ever clears a bit of the CRTC mask: a bit
    below bit 32 that is set stays set through every scan, modeset, free,
    event pump and end, also when the display that took the CRTC is
    unplugged or freed; the number of set bits never decreases. *)
Theorem taken_crtcs_never_cleared (ops : list op) (b b' : wlr_drm_backend) :
  run ops b = Some b' ->
  (forall n, (n < 32)%nat ->
     Z.testbit (taken_crtcs b) (Z.of_nat n) = true ->
     Z.testbit (taken_crtcs b') (Z.of_nat n) = true) /\
  (popcount32 (taken_crtcs b) <= popcount32 (taken_crtcs b'))%nat.
Proof.
  intros Hrun.
  assert (forall n, (n < 32)%nat ->
            Z.testbit (taken_crtcs b) (Z.of_nat n) = true ->
            Z.testbit (taken_crtcs b') (Z.of_nat n) = true) as Hbits.
  { revert b Hrun. induction ops as [|o ops IH]; intros b; simpl.
    - by intros [= <-].
    - destruct (step o b) as [b1|] eqn:Hs; [|discriminate].
      intros Hrun n Hn Hb. apply (IH b1 Hrun n Hn).
      by apply (step_taken_monotone o b b1). }
  split; [done|]. apply count_bits_mono. intros m Hm. by apply Hbits.
Qed.

Lemma taken_crtcs_never_cleared_witness :
  (forall n, (n < 32)%nat ->
     Z.testbit (taken_crtcs fresh_backend) (Z.of_nat n) = true ->
     Z.testbit (taken_crtcs released_backend) (Z.of_nat n) = true) /\
  (popcount32 (taken_crtcs fresh_backend)
   <= popcount32 (taken_crtcs released_backend))%nat.
Proof.
  apply (taken_crtcs_never_cleared [Scan unplugged]
           fresh_backend released_backend).
  vm_compute. reflexivity.
Defined.

(** ** The wait of the teardown *)

Lemma wait_for_flips_ignores_pumps (pumps : list (list nat)) (i : nat)
    (b : wlr_drm_backend) :
  wait_for_flips pumps i b = wait_for_flips [] i b.
Proof.
  destruct (pending i b) eqn:Hp.
  - by rewrite !wait_for_flips_spins.
  - by rewrite !wait_for_flips_idle.
Qed.



(** ** RENDER events and the cleanup flag *)

Lemma mute_step_refl (b : wlr_drm_backend) : mute_step b b.
Proof.
  split; [done|]. exists []. split; [by rewrite app_nil_r|].
  intros i _ Hin. inversion Hin.
Qed.

Lemma mute_step_trans (b1 b2 b3 : wlr_drm_backend) :
  mute_step b1 b2 -> mute_step b2 b3 -> mute_step b1 b3.
Proof.
  intros [T1 (e1 & He1 & N1)] [T2 (e2 & He2 & N2)]. split; [by auto|].
  exists (e1 ++ e2). split; [by rewrite He2, He1, app_assoc|].
  intros i Ht Hin. apply elem_of_app in Hin as [Hin|Hin].
  - by apply (N1 i).
  - by apply (N2 i (T1 i Ht)).
Qed.

(** Replacing a display by one that keeps a set cleanup flag. *)
Lemma mute_set_display (b : wlr_drm_backend) (i : nat)
    (d d' : wlr_drm_display) :
  displays b !! i = Some d -> (cleanup d = true -> cleanup d' = true) ->
  mute_step b (set_display i d' b).
Proof.
  intros Hd Hc. split.
  - intros j (dj & Hj & Hcj). destruct (decide (i = j)) as [->|Hne].
    + exists d'. rewrite (lookup_set_display_eq b j d d' Hd).
      split; [done|]. apply Hc. congruence.
    + exists dj. by rewrite lookup_set_display_ne.
  - exists []. split; [simpl; by rewrite app_nil_r|].
    intros j _ Hin. inversion Hin.
Qed.

Lemma mute_add_event (b : wlr_drm_backend) (i : nat)
    (ty : wlr_drm_event_type) :
  (ty = DRM_EV_RENDER -> ~ tearing_down i b) ->
  mute_step b (wlr_drm_add_event b i ty).
Proof.
  intros Hty. split; [done|]. exists [(i, ty)]. split; [done|].
  intros j Ht Hin. apply list_elem_of_singleton in Hin. inversion Hin; subst.
  by apply Hty.
Qed.

Lemma mute_same_displays (b b' : wlr_drm_backend) :
  displays b' = displays b -> events b' = events b -> mute_step b b'.
Proof.
  intros Hd He. split.
  - intros i. unfold tearing_down. by rewrite Hd.
  - exists []. split; [by rewrite app_nil_r|]. intros i _ Hin. inversion Hin.
Qed.

Lemma page_flip_handler_mute (user : nat) (b : wlr_drm_backend) :
  mute_step b (page_flip_handler user b).
Proof.
  unfold page_flip_handler.
  destruct (displays b !! user) as [d|] eqn:Hd; [|apply mute_step_refl].
  assert (mute_step b (set_display user (set_pageflip_pending true d) b))
    as Hm by by apply (mute_set_display b user d).
  destruct (cleanup d) eqn:Hc; [done|].
  eapply mute_step_trans; [done|]. apply mute_add_event.
  intros _ (d' & Hd' & Hc').
  rewrite (lookup_set_display_eq b user d _ Hd) in Hd'.
  inversion Hd'; subst d'. simpl in Hc'. congruence.
Qed.

Lemma drmHandleEvent_mute (flips : list nat) (b : wlr_drm_backend) :
  mute_step b (drmHandleEvent flips b).
Proof.
  unfold drmHandleEvent. revert b.
  induction flips as [|u flips IH]; intros b; simpl; [apply mute_step_refl|].
  eapply mute_step_trans; [apply page_flip_handler_mute | apply IH].
Qed.

Lemma wait_for_flips_mute (pumps : list (list nat)) (i : nat)
    (b b' : wlr_drm_backend) :
  wait_for_flips pumps i b = Some b' -> mute_step b b'.
Proof.
  rewrite wait_for_flips_ignores_pumps. simpl.
  destruct (pending i b); [discriminate|]. intros [= <-]. apply mute_step_refl.
Qed.

Lemma wlr_drm_display_free_mute (pumps : list (list nat)) (i : nat)
    (b b' : wlr_drm_backend) :
  wlr_drm_display_free pumps i b = Some b' -> mute_step b b'.
Proof.
  unfold wlr_drm_display_free.
  destruct (displays b !! i) as [d|] eqn:Hd;
    [|intros [= <-]; apply mute_step_refl].
  case_decide; [intros [= <-]; apply mute_step_refl|].
  destruct (old_crtc d) as [c|]; [|intros [= <-]; apply mute_step_refl].
  destruct (wait_for_flips pumps i _) as [b1|] eqn:Hw; [|discriminate].
  intros [= <-].
  apply (mute_step_trans b (set_display i (set_cleanup true d) b));
    [by apply (mute_set_display b i d)|].
  apply (mute_step_trans _ b1); [by eapply wait_for_flips_mute|].
  by apply mute_same_displays.
Qed.

Lemma wlr_drm_display_end_mute (b : wlr_drm_backend) (fb_id : Z) (i : nat) :
  mute_step b (wlr_drm_display_end fb_id i b).
Proof.
  unfold wlr_drm_display_end.
  destruct (displays b !! i) as [d|] eqn:Hd; [|apply mute_step_refl].
  apply (mute_step_trans _ (send_request (PageFlip (crtc d) fb_id i) b));
    [by apply mute_same_displays|].
  by apply (mute_set_display (send_request _ b) i d).
Qed.

Lemma scan_connector_mute (k : drm_replies) (i : nat) (id : Z)
    (b : wlr_drm_backend) :
  mute_step b (scan_connector k i id b).
Proof.
  unfold scan_connector.
  destruct (displays b !! i) as [d0|] eqn:Hd; [|apply mute_step_refl].
  destruct (drmModeGetConnector k id) as [conn|]; [|apply mute_step_refl].
  cbv zeta.
  repeat case_decide;
    repeat first
      [ apply (mute_set_display b i d0); [done | by simpl]
      | eapply mute_step_trans;
          [| apply mute_add_event; discriminate] ].
Qed.

Lemma scan_loop_mute (k : drm_replies) (ids : list Z) (i : nat)
    (b : wlr_drm_backend) :
  mute_step b (scan_loop k i ids b).
Proof.
  revert i b. induction ids as [|id ids IH]; intros i b; simpl;
    [apply mute_step_refl|].
  eapply mute_step_trans; [apply scan_connector_mute | apply IH].
Qed.

Lemma wlr_drm_scan_connectors_mute (k : drm_replies) (b : wlr_drm_backend) :
  mute_step b (wlr_drm_scan_connectors k b).
Proof.
  unfold wlr_drm_scan_connectors.
  destruct (drmModeGetResources k) as [res|]; [|apply mute_step_refl].
  cbv zeta. case_decide; [|apply scan_loop_mute].
  destruct (alloc_ok k); [|apply mute_step_refl].
  eapply mute_step_trans; [|apply scan_loop_mute].
  split.
  - intros i (d & Hd & Hc). exists d. split; [|done].
    simpl. by apply lookup_app_l_Some.
  - exists []. split; [simpl; by rewrite app_nil_r|].
    intros i _ Hin. inversion Hin.
Qed.

Lemma modeset_error_mute (i : nat) (d d' : wlr_drm_display)
    (b b' : wlr_drm_backend) (ok : bool) :
  displays b !! i = Some d -> cleanup d' = cleanup d ->
  modeset_error i d' b = Returns (ok, b') -> mute_step b b'.
Proof.
  intros Hd Hc [= _ <-].
  eapply mute_step_trans; [|apply mute_add_event; discriminate].
  apply (mute_set_display b i d); [done|]. simpl. congruence.
Qed.

Lemma wlr_drm_display_modeset_mute (k : drm_replies) (b b' : wlr_drm_backend)
    (i : nat) (str : string) (ok : bool) :
  wlr_drm_display_modeset k b i str = Returns (ok, b') -> mute_step b b'.
Proof.
  destruct (displays b !! i) as [d|] eqn:Hd.
  2:{ unfold wlr_drm_display_modeset. rewrite Hd. intros [= _ <-].
      apply mute_step_refl. }
  destruct ok.
  - intros Hm.
    destruct (modeset_success k b b' i str d Hd Hm)
      as (conn & a & m & res & j & d' & _ & _ & _ & _ & _ & _ & _ & Hds & _
          & Hev & _ & _ & _ & _ & _ & _ & _ & _ & _ & _ & Hcl).
    split.
    + intros i' (di & Hi & Hc). unfold tearing_down. rewrite Hds.
      destruct (decide (i = i')) as [<-|Hne].
      * exists d'. rewrite list_lookup_insert_eq by by eapply lookup_lt_Some.
        split; [done|]. congruence.
      * exists di. by rewrite list_lookup_insert_ne.
    + exists []. split; [by rewrite app_nil_r|]. intros ? _ Hin. inversion Hin.
  - unfold wlr_drm_display_modeset. rewrite Hd.
    destruct (drmModeGetConnector k (connector d)) as [conn|];
      [|by apply (modeset_error_mute i d)].
    case_decide; [by apply (modeset_error_mute i d)|].
    destruct (alloc_ok k); simpl; [|by apply (modeset_error_mute i d)].
    assert (forall d0, cleanup (refresh_old_crtc k conn d0) = cleanup d0)
      as Hrf.
    { intros d0. unfold refresh_old_crtc.
      by destruct (drmModeGetEncoder k (encoder_id conn)). }
    destruct (select_mode _ _ str) as [[a|]|]; [| |discriminate].
    + destruct (drmModeGetResources k) as [res|].
      * destruct (encoder_loop _ _ _ _) as [[j id]|]; [discriminate|].
        apply (modeset_error_mute i d); [done|]. simpl. by rewrite Hrf.
      * apply (modeset_error_mute i d); [done|]. simpl. by rewrite Hrf.
    + apply (modeset_error_mute i d); [done|]. simpl. by rewrite Hrf.
Qed.

Lemma step_mute (o : op) (b b' : wlr_drm_backend) :
  step o b = Some b' -> mute_step b b'.
Proof.
  destruct o as [k | k i str | pumps i | flips | fb_id i]; simpl; intros Hs.
  - inversion Hs; subst. apply wlr_drm_scan_connectors_mute.
  - destruct (wlr_drm_display_modeset k b i str) as [[ok b1]|] eqn:Hm;
      [|discriminate].
    inversion Hs; subst. by eapply wlr_drm_display_modeset_mute.
  - by eapply wlr_drm_display_free_mute.
  - inversion Hs; subst. apply drmHandleEvent_mute.
  - inversion Hs; subst. apply wlr_drm_display_end_mute.
Qed.

Lemma run_mute (ops : list op) (b b' : wlr_drm_backend) :
  run ops b = Some b' -> mute_step b b'.
Proof.
  revert b. induction ops as [|o ops IH]; intros b; simpl.
  - intros [= <-]. apply mute_step_refl.
  - destruct (step o b) as [b1|] eqn:Hs; [|discriminate].
    intros Hrun. eapply mute_step_trans; [by eapply step_mute | by apply IH].
Qed.

(** X10: the cleanup flag that [free] sets is never reset.  Once a
    CONNECTED display that has a snapshot has been freed, no later sequence
    of calls adds a RENDER event for it, whatever flips complete and also
    after the display is plugged in and configured again. *)
Theorem freed_display_never_renders (pumps : list (list nat)) (i : nat)
    (b b1 b2 : wlr_drm_backend) (d : wlr_drm_display) (ops : list op) :
  displays b !! i = Some d -> state d = DRM_DISP_CONNECTED ->
  is_Some (old_crtc d) ->
  wlr_drm_display_free pumps i b = Some b1 ->
  run ops b1 = Some b2 ->
  tearing_down i b2 /\
  exists evs,
    events b2 = events b1 ++ evs /\ (i, DRM_EV_RENDER) ∉ evs.
Proof.
  intros Hd Hs [c Hc] Hfree Hrun.
  assert (tearing_down i b1) as Ht.
  { unfold wlr_drm_display_free in Hfree. rewrite Hd, Hc in Hfree.
    rewrite decide_False in Hfree by (by intros ?).
    destruct (wait_for_flips pumps i _) as [b0|] eqn:Hw; [|discriminate].
    inversion Hfree; subst b1.
    destruct (wait_for_flips_mute _ _ _ _ Hw) as [Hkeep _].
    destruct (Hkeep i) as (d' & Hd' & Hc').
    - exists (set_cleanup true d). split; [|done].
      by apply (lookup_set_display_eq b i d).
    - by exists d'. }
  destruct (run_mute ops b1 b2 Hrun) as [Hkeep (evs & Hev & Hno)].
  split; [by apply Hkeep|]. exists evs. split; [done | by apply Hno].
Qed.

Lemma freed_display_never_renders_witness :
  tearing_down 0 (drmHandleEvent [0%nat] restored_backend) /\
  exists evs,
    events (drmHandleEvent [0%nat] restored_backend) =
      events restored_backend ++ evs /\
    (0%nat, DRM_EV_RENDER) ∉ evs.
Proof.
  apply (freed_display_never_renders [] 0 restorable_backend
           restored_backend _
           (sample_display (Some sample_crtc) false false) [Pump [0%nat]]).
  - reflexivity.
  - reflexivity.
  - by eexists.
  - reflexivity.
  - reflexivity.
Defined.

Lemma renders_page_flip_handler (b : wlr_drm_backend) (user u : nat) :
  renders (page_flip_handler user b) u <-> renders b u.
Proof.
  unfold page_flip_handler, renders.
  destruct (displays b !! user) as [d|] eqn:Hd; [|done].
  assert (match displays (set_display user (set_pageflip_pending true d) b)
                  !! u with
          | Some d0 => cleanup d0 = false
          | None => False
          end <->
          match displays b !! u with
          | Some d0 => cleanup d0 = false
          | None => False
          end) as H.
  { destruct (decide (user = u)) as [<-|Hne].
    - by rewrite (lookup_set_display_eq b user d _ Hd), Hd.
    - by rewrite lookup_set_display_ne. }
  by destruct (cleanup d).
Qed.

Lemma page_flip_handler_events (b : wlr_drm_backend) (user : nat) :
  events (page_flip_handler user b) =
  events b ++ if decide (renders b user) then [(user, DRM_EV_RENDER)] else [].
Proof.
  destruct (decide (renders b user)) as [Hr|Hr];
    unfold renders in Hr; unfold page_flip_handler;
    destruct (displays b !! user) as [d|] eqn:Hd; try done.
  - by rewrite Hr.
  - destruct (cleanup d); [|done]. simpl. by rewrite app_nil_r.
  - by rewrite app_nil_r.
Qed.

(** X11: one call of the event pump adds to the queue exactly one RENDER
    event for every flip completion it delivers whose display exists and
    is not being torn down, in the order of delivery, and nothing else; no
    display changes state. *)
Theorem drmHandleEvent_renders (flips : list nat) (b : wlr_drm_backend) :
  events (drmHandleEvent flips b) =
    events b ++ ((fun u => (u, DRM_EV_RENDER)) <$> filter (renders b) flips) /\
  forall i, state_at (drmHandleEvent flips b) i = state_at b i.
Proof.
  split; [|intros i; apply quiet_step_state_at, drmHandleEvent_quiet].
  unfold drmHandleEvent. revert b.
  induction flips as [|u flips IH]; intros b; simpl.
  - by rewrite app_nil_r.
  - rewrite IH, page_flip_handler_events, filter_cons.
    rewrite (list_filter_iff (renders (page_flip_handler u b)) (renders b))
      by (intros; apply renders_page_flip_handler).
    destruct (decide (renders b u)); simpl; by rewrite <- app_assoc.
Qed.

(** ** More on mode selection *)

(** X12: a pointer that [select_mode] returns points into the mode list,
    with one exception: for the request [preferred] on an empty list it
    returns [&modes[0]], one past the end (the caller excludes the empty
    list before it calls). *)
Theorem select_mode_index (ms : list drmModeModeInfo)
    (old : option drmModeCrtc) (str : string) (i : nat) :
  select_mode ms old str = Returns (Some i) ->
  is_Some (ms !! i) \/ (ms = [] /\ str = "preferred" /\ i = 0%nat).
Proof.
  destruct ms as [|m ms].
  - unfold select_mode. destruct (String.eqb str "preferred") eqn:Hp.
    + apply String.eqb_eq in Hp. intros [= <-]. by right.
    + destruct (String.eqb str "current").
      * by destruct old.
      * destruct (Scanf.sscanf_uxu_at_u str) as [[[ret w] h] r].
        by destruct (negb (ret =? 2) && negb (ret =? 3)).
  - intros H. left. by apply (select_mode_in_bounds (m :: ms) old str).
Qed.

Lemma select_mode_index_witness :
  is_Some (sample_modes !! 2%nat) \/
  (sample_modes = [] /\ "1920x1080@30" = "preferred" /\ 2%nat = 0%nat).
Proof.
  apply (select_mode_index sample_modes None "1920x1080@30" 2).
  vm_compute. reflexivity.
Defined.

(** X13: a request that is neither keyword and does not start, after
    white space, with a digit or a sign is refused: [select_mode] returns
    [NULL] for every mode list. *)
Theorem select_mode_rejects_text (ms : list drmModeModeInfo)
    (old : option drmModeCrtc) (str : string) :
  str <> "preferred" -> str <> "current" ->
  match Scanf.skip_space str with
  | EmptyString => True
  | String c _ =>
      Scanf.digit_of c = None /\ c <> "-"%char /\ c <> "+"%char
  end ->
  select_mode ms old str = Returns None.
Proof.
  intros Hp Hc Hs. unfold select_mode.
  apply String.eqb_neq in Hp, Hc. rewrite Hp, Hc.
  assert (Scanf.scan_uint str = None) as Hscan.
  { unfold Scanf.scan_uint. destruct (Scanf.skip_space str) as [|c s]; [done|].
    destruct Hs as (Hd & Hm & Hpl).
    assert ((match String c s with
             | String "-" r => (true, r)
             | String "+" r => (false, r)
             | _ => (false, String c s)
             end) = (false, String c s)) as ->.
    { destruct c as [[] [] [] [] [] [] [] []]; try reflexivity; congruence. }
    by rewrite Hd. }
  unfold Scanf.sscanf_uxu_at_u. rewrite Hscan.
  by destruct (Scanf.skip_space str).
Qed.

Lemma select_mode_rejects_text_witness :
  select_mode sample_modes None "widest" = Returns None.
Proof.
  apply (select_mode_rejects_text sample_modes None "widest").
  - discriminate.
  - discriminate.
  - vm_compute. repeat split; discriminate.
Defined.

Lemma string_append_assoc (a b c : string) :
  ((a ++ b) ++ c)%string = (a ++ (b ++ c))%string.
Proof.
  induction a as [|x a IH]; [done|]. by rewrite !append_String, IH.
Qed.

Lemma digit_first_not_keyword (c : ascii) (s : string) (d : Z) :
  Scanf.digit_of c = Some d ->
  String.eqb (String c s) "preferred" = false /\
  String.eqb (String c s) "current" = false.
Proof.
  intros Hd. destruct (digit_is_plain c d Hd) as (_ & _ & _ & Hp & Hc & _).
  unfold String.eqb; fold String.eqb. by rewrite Hp, Hc.
Qed.

(** [sscanf] on two numerals joined by an x, whatever follows. *)
Lemma sscanf_two_numerals (ws hs tail : string) (w h : Z) :
  numeral ws = Some w -> numeral hs = Some h -> ends_numeral tail ->
  Scanf.sscanf_uxu_at_u (ws ++ "x" ++ hs ++ tail) =
  match tail with
  | String "@" s4 =>
      match Scanf.scan_uint s4 with
      | None => (2, Scanf.to_unsigned w, Scanf.to_unsigned h, 0)
      | Some (r, _) => (3, Scanf.to_unsigned w, Scanf.to_unsigned h, r)
      end
  | _ => (2, Scanf.to_unsigned w, Scanf.to_unsigned h, 0)
  end.
Proof.
  intros Hw Hh Ht. unfold Scanf.sscanf_uxu_at_u.
  rewrite (scan_uint_numeral ws _ w Hw); [|reflexivity].
  rewrite append_String, append_Empty.
  by rewrite (scan_uint_numeral hs tail h Hh Ht).
Qed.

(** X14: text after a numeric request is ignored.  A request
    [<width>x<height>@<rate>] followed by anything that does not continue
    the rate numeral, and a request [<width>x<height>] followed by anything
    that neither continues the height numeral nor is an [@] with a number,
    select what the request alone selects. *)
Theorem select_mode_ignores_trailing_text (ms : list drmModeModeInfo)
    (old : option drmModeCrtc) (ws hs : string) (rs : option string)
    (rest : string) (w h : Z) (rate : option Z) :
  numeral ws = Some w -> numeral hs = Some h ->
  requested_rate rs = Some rate ->
  ends_numeral rest ->
  (rs = None ->
   forall r', rest = String "@" r' -> Scanf.scan_uint r' = None) ->
  select_mode ms old (numeric_request ws hs rs ++ rest) =
  select_mode ms old (numeric_request ws hs rs).
Proof.
  intros Hw Hh Hr Hrest Hat.
  rewrite (select_mode_numeric ms old ws hs rs w h rate Hw Hh Hr).
  unfold select_mode.
  assert (exists c s d, (numeric_request ws hs rs ++ rest)%string = String c s
                        /\ Scanf.digit_of c = Some d) as (c & s & d & Hcs & Hd).
  { destruct ws as [|c ws']; [discriminate|]. unfold numeral in Hw.
    simpl in Hw. destruct (Scanf.digit_of c) as [d|] eqn:Hd; [|discriminate].
    unfold numeric_request. rewrite !append_String. by eexists _, _, d. }
  rewrite Hcs. destruct (digit_first_not_keyword c s d Hd) as [-> ->].
  rewrite <- Hcs. unfold numeric_request.
  rewrite !string_append_assoc.
  destruct rs as [rs|]; simpl in Hr.
  - destruct (numeral rs) as [r|] eqn:Hrs; [|discriminate].
    inversion Hr; subst rate.
    rewrite (sscanf_two_numerals ws hs _ w h Hw Hh); [|reflexivity].
    rewrite string_append_assoc, append_String, append_Empty. cbv beta iota.
    by rewrite (scan_uint_numeral rs rest r Hrs Hrest).
  - inversion Hr; subst rate. rewrite append_Empty.
    rewrite (sscanf_two_numerals ws hs rest w h Hw Hh Hrest).
    destruct rest as [|c0 r']; [done|].
    destruct (Ascii.eqb_spec c0 "@") as [->|Hne].
    + by rewrite (Hat eq_refl r' eq_refl).
    + destruct c0 as [[] [] [] [] [] [] [] []]; try done.
Qed.

Lemma select_mode_ignores_trailing_text_witness :
  select_mode sample_modes None
    (numeric_request "1920" "1080" (Some "30") ++ "Hz") =
  select_mode sample_modes None (numeric_request "1920" "1080" (Some "30")).
Proof.
  apply (select_mode_ignores_trailing_text sample_modes None
           "1920" "1080" (Some "30") "Hz" 1920 1080 (Some 30)).
  - reflexivity.
  - reflexivity.
  - reflexivity.
  - reflexivity.
  - discriminate.
Defined.

(** ** The renderer *)

Lemma release_here (x : Renderer.resource) (held : list Renderer.resource) :
  Renderer.release x (x :: held) = Renderer.release x held.
Proof. unfold Renderer.release. rewrite filter_cons. by rewrite decide_False by (by intros ?). Qed.

Lemma release_other (x y : Renderer.resource) (held : list Renderer.resource) :
  y <> x ->
  Renderer.release x (y :: held) = y :: Renderer.release x held.
Proof. intros H. unfold Renderer.release. rewrite filter_cons. by rewrite decide_True. Qed.

Lemma release_nil (x : Renderer.resource) : Renderer.release x [] = [].
Proof. reflexivity. Qed.

Ltac held_simpl :=
  unfold Renderer.held_after; simpl;
  repeat first
    [ rewrite release_here
    | rewrite release_other by discriminate
    | rewrite release_nil ];
  try reflexivity.

(** X15: when the initialisation of the renderer fails, at whatever step,
    everything it has created by then has been released again when it
    returns: no device, display or context is held; the descriptor and the
    back pointer are not stored. *)
Theorem wlr_drm_renderer_init_failure (k : Renderer.egl_replies)
    (r r' : Renderer.wlr_drm_renderer) (descriptor : Z)
    (log : list Renderer.renderer_call) :
  Renderer.wlr_drm_renderer_init k r descriptor = (false, r', log) ->
  Renderer.held_after log = [] /\
  Renderer.fd r' = Renderer.fd r /\ Renderer.backend r' = Renderer.backend r.
Proof.
  unfold Renderer.wlr_drm_renderer_init, Renderer.error_egl, Renderer.error_gbm.
  destruct (Renderer.egl_exts k); simpl; [|by intros [= <- <-]].
  destruct (Renderer.gbm_create_device k) as [dev|]; [|by intros [= <- <-]].
  destruct (Renderer.eglBindAPI k); simpl;
    [|intros [= <- <-]; split; [held_simpl | done]].
  destruct (Renderer.get_platform_display k) as [disp|]; simpl;
    [|intros [= <- <-]; split; [held_simpl | done]].
  destruct (Renderer.eglInitialize k); simpl;
    [|intros [= <- <-]; split; [held_simpl | done]].
  destruct (Renderer.egl_get_config k) as [conf|]; simpl;
    [|intros [= <- <-]; split; [held_simpl | done]].
  destruct (Renderer.eglCreateContext k) as [ctx|]; simpl; [discriminate|].
  intros [= <- <-]; split; [held_simpl | done].
Qed.

Lemma wlr_drm_renderer_init_failure_witness :
  Renderer.held_after
    [Renderer.GbmCreateDevice 1; Renderer.EglGetPlatformDisplay 2;
     Renderer.EglTerminate (Some 2); Renderer.EglReleaseThread;
     Renderer.EglMakeCurrentNone; Renderer.GbmDeviceDestroy (Some 1)] = [] /\
  Renderer.fd (Renderer.MkRenderer None (Some 1) (Some 2) (Some 11) None false)
    = Renderer.fd Renderer.blank /\
  Renderer.backend
    (Renderer.MkRenderer None (Some 1) (Some 2) (Some 11) None false)
    = Renderer.backend Renderer.blank.
Proof.
  apply (wlr_drm_renderer_init_failure Renderer.no_context Renderer.blank _ 5).
  vm_compute. reflexivity.
Defined.

(** X16: when the initialisation succeeds, every step has succeeded (both
    entry points resolved, the device was created, the API bound, the
    display obtained and initialised, a configuration found and the context
    created), the renderer holds the device, the display, the configuration
    that [egl_get_config] chose, the context, the descriptor and the back
    pointer, and exactly these three objects are held; freeing that
    renderer releases them all. *)
Theorem wlr_drm_renderer_init_then_free (k : Renderer.egl_replies)
    (r r' : Renderer.wlr_drm_renderer) (descriptor : Z)
    (log : list Renderer.renderer_call) :
  Renderer.wlr_drm_renderer_init k r descriptor = (true, r', log) ->
  (Renderer.eglGetProcAddress k "eglGetPlatformDisplayEXT" = true /\
   Renderer.eglGetProcAddress k "eglCreatePlatformWindowSurfaceEXT" = true /\
   Renderer.eglBindAPI k = true /\
   Renderer.eglInitialize k = true) /\
  (exists dev disp conf ctx,
     Renderer.gbm_create_device k = Some dev /\
     Renderer.get_platform_display k = Some disp /\
     Renderer.egl_get_config k = Some conf /\
     Renderer.eglCreateContext k = Some ctx /\
     r' = Renderer.MkRenderer (Some descriptor) (Some dev) (Some disp)
            (Some conf) (Some ctx) true /\
     Renderer.held_after log =
       [Renderer.Device dev; Renderer.Display disp; Renderer.Context ctx]) /\
  Renderer.held_after (log ++ Renderer.wlr_drm_renderer_free (Some r')) = [].
Proof.
  unfold Renderer.wlr_drm_renderer_init, Renderer.error_egl, Renderer.error_gbm.
  destruct (Renderer.egl_exts k) eqn:Hexts; simpl; [|discriminate].
  apply andb_true_iff in Hexts as [Hx1 Hx2].
  destruct (Renderer.gbm_create_device k) as [dev|]; [|discriminate].
  destruct (Renderer.eglBindAPI k); simpl; [|discriminate].
  destruct (Renderer.get_platform_display k) as [disp|]; simpl; [|discriminate].
  destruct (Renderer.eglInitialize k); simpl; [|discriminate].
  destruct (Renderer.egl_get_config k) as [conf|]; simpl; [|discriminate].
  destruct (Renderer.eglCreateContext k) as [ctx|]; simpl; [|discriminate].
  intros [= <- <-]. split; [done|]. split.
  - by exists dev, disp, conf, ctx.
  - held_simpl.
Qed.

Lemma wlr_drm_renderer_init_then_free_witness :
  (Renderer.eglGetProcAddress Renderer.all_fine "eglGetPlatformDisplayEXT"
   = true /\
   Renderer.eglGetProcAddress Renderer.all_fine
     "eglCreatePlatformWindowSurfaceEXT" = true /\
   Renderer.eglBindAPI Renderer.all_fine = true /\
   Renderer.eglInitialize Renderer.all_fine = true) /\
  (exists dev disp conf ctx,
     Renderer.gbm_create_device Renderer.all_fine = Some dev /\
     Renderer.get_platform_display Renderer.all_fine = Some disp /\
     Renderer.egl_get_config Renderer.all_fine = Some conf /\
     Renderer.eglCreateContext Renderer.all_fine = Some ctx /\
     Renderer.MkRenderer (Some 5) (Some 1) (Some 2) (Some 11) (Some 4) true =
       Renderer.MkRenderer (Some 5) (Some dev) (Some disp)
         (Some conf) (Some ctx) true /\
     Renderer.held_after
       [Renderer.GbmCreateDevice 1; Renderer.EglGetPlatformDisplay 2;
        Renderer.EglCreateContext (Some 2) 4] =
       [Renderer.Device dev; Renderer.Display disp; Renderer.Context ctx]) /\
  Renderer.held_after
    ([Renderer.GbmCreateDevice 1; Renderer.EglGetPlatformDisplay 2;
      Renderer.EglCreateContext (Some 2) 4] ++
     Renderer.wlr_drm_renderer_free
       (Some (Renderer.MkRenderer (Some 5) (Some 1) (Some 2) (Some 11)
                (Some 4) true))) = [].
Proof.
  apply (wlr_drm_renderer_init_then_free Renderer.all_fine Renderer.blank _ 5).
  vm_compute. reflexivity.
Defined.

Lemma config_loop_first (k : Renderer.egl_replies) (configs : list Z) :
  match Renderer.config_loop k configs with
  | Some c =>
      exists n, configs !! n = Some c /\
        Renderer.eglGetConfigAttrib k c = Some Renderer.GBM_FORMAT_XRGB8888 /\
        forall m c', (m < n)%nat -> configs !! m = Some c' ->
          Renderer.eglGetConfigAttrib k c'
          <> Some Renderer.GBM_FORMAT_XRGB8888
  | None =>
      forall c, c ∈ configs ->
        Renderer.eglGetConfigAttrib k c <> Some Renderer.GBM_FORMAT_XRGB8888
  end.
Proof.
  induction configs as [|c configs IH]; simpl.
  { intros c Hc. inversion Hc. }
  assert (Renderer.eglGetConfigAttrib k c
          <> Some Renderer.GBM_FORMAT_XRGB8888 ->
          match Renderer.config_loop k configs with
          | Some c0 =>
              exists n, (c :: configs) !! n = Some c0 /\
                Renderer.eglGetConfigAttrib k c0
                = Some Renderer.GBM_FORMAT_XRGB8888 /\
                forall m c', (m < n)%nat -> (c :: configs) !! m = Some c' ->
                  Renderer.eglGetConfigAttrib k c'
                  <> Some Renderer.GBM_FORMAT_XRGB8888
          | None =>
              forall c0, c0 ∈ c :: configs ->
                Renderer.eglGetConfigAttrib k c0
                <> Some Renderer.GBM_FORMAT_XRGB8888
          end) as Hskip.
  { intros Hno. destruct (Renderer.config_loop k configs) as [c0|].
    - destruct IH as (n & Hn & Hf & Hlt). exists (S n).
      split; [done|]. split; [done|].
      intros [|m] c' Hm Hc'; simpl in Hc'.
      + by inversion Hc'; subst.
      + apply (Hlt m); [lia | done].
    - intros c0 Hin. apply elem_of_cons in Hin as [-> | Hin]; auto. }
  destruct (Renderer.eglGetConfigAttrib k c) as [fmt|] eqn:Hfmt;
    [|by apply Hskip].
  destruct (fmt =? Renderer.GBM_FORMAT_XRGB8888) eqn:Heq.
  - apply Z.eqb_eq in Heq. subst fmt. exists 0%nat.
    split; [done|]. split; [done|]. intros m c' Hm. lia.
  - apply Z.eqb_neq in Heq. apply Hskip. congruence.
Qed.

(** X17: [egl_get_config] returns the first configuration, among the
    [count] first that [eglChooseConfig] offers, whose native visual id can
    be read and is XRGB8888; it fails when there is none, when there are no
    configurations at all, and when either query fails. *)
Theorem egl_get_config_first (k : Renderer.egl_replies) :
  match Renderer.egl_get_config k with
  | Some c =>
      exists count configs n,
        Renderer.eglGetConfigs k = Some count /\
        Renderer.eglChooseConfig k = Some configs /\
        (n < count)%nat /\ configs !! n = Some c /\
        Renderer.eglGetConfigAttrib k c = Some Renderer.GBM_FORMAT_XRGB8888 /\
        forall m c', (m < n)%nat -> configs !! m = Some c' ->
          Renderer.eglGetConfigAttrib k c'
          <> Some Renderer.GBM_FORMAT_XRGB8888
  | None =>
      Renderer.eglGetConfigs k = None \/
      Renderer.eglGetConfigs k = Some 0%nat \/
      Renderer.eglChooseConfig k = None \/
      exists count configs,
        Renderer.eglGetConfigs k = Some count /\
        Renderer.eglChooseConfig k = Some configs /\
        forall m c, (m < count)%nat -> configs !! m = Some c ->
          Renderer.eglGetConfigAttrib k c
          <> Some Renderer.GBM_FORMAT_XRGB8888
  end.
Proof.
  unfold Renderer.egl_get_config.
  destruct (Renderer.eglGetConfigs k) as [count|]; [|by left].
  case_decide as Hz; [subst; by right; left|].
  destruct (Renderer.eglChooseConfig k) as [configs|]; [|by right; right; left].
  pose proof (config_loop_first k (take count configs)) as H.
  destruct (Renderer.config_loop k (take count configs)) as [c|].
  - destruct H as (n & Hn & Hf & Hlt).
    apply lookup_take_Some in Hn as [Hn Hlen].
    exists count, configs, n. repeat split; try done.
    intros m c' Hm Hc'. apply (Hlt m c' Hm).
    apply lookup_take_Some. split; [done | lia].
  - right; right; right. exists count, configs. repeat split.
    intros m c Hm Hc. apply H. apply list_elem_of_lookup. exists m.
    apply lookup_take_Some. by split.
Qed.

(** ** Framebuffers of buffer objects *)

(** X18: the framebuffer id of a buffer object is looked up once.  After a
    call of [get_fb_for_bo] that found or stored user data, every later
    call for the same buffer object returns the same id and changes
    nothing, whatever the device would answer: no second framebuffer is
    registered, and an id of 0 left by a failed registration is not tried
    again. *)
Theorem get_fb_for_bo_cached (k k' : Framebuffer.fb_replies) (bo : nat)
    (s s1 : Framebuffer.fb_state) (id : Z) :
  Framebuffer.get_fb_for_bo k bo s = (id, s1) ->
  Framebuffer.calloc_ok k = true \/ is_Some (Framebuffer.user_data s !! bo) ->
  Framebuffer.get_fb_for_bo k' bo s1 = (id, s1).
Proof.
  unfold Framebuffer.get_fb_for_bo at 1.
  destruct (Framebuffer.user_data s !! bo) as [id0|] eqn:Hbo.
  - intros [= <- <-] _. unfold Framebuffer.get_fb_for_bo. by rewrite Hbo.
  - intros H [Hc | [? ?]]; [|done]. rewrite Hc in H. simpl in H.
    inversion H; subst. unfold Framebuffer.get_fb_for_bo. simpl.
    by rewrite lookup_insert_eq.
Qed.

Lemma get_fb_for_bo_cached_witness :
  Framebuffer.get_fb_for_bo (Framebuffer.MkFbReplies true (Some 7)) 3
    (snd (Framebuffer.get_fb_for_bo (Framebuffer.MkFbReplies true (Some 99)) 3
            Framebuffer.no_buffers))
  = (99,
     snd (Framebuffer.get_fb_for_bo (Framebuffer.MkFbReplies true (Some 99)) 3
            Framebuffer.no_buffers)).
Proof.
  apply (get_fb_for_bo_cached (Framebuffer.MkFbReplies true (Some 99))
           (Framebuffer.MkFbReplies true (Some 7)) 3 Framebuffer.no_buffers).
  - reflexivity.
  - left. reflexivity.
Defined.






(** ** Modeset and the surfaces *)

Lemma display_init_renderer_requests (k : drm_replies) (i : nat)
    (b : wlr_drm_backend) (d : wlr_drm_display) :
  displays b !! i = Some d ->
  requests (snd (display_init_renderer k i b)) =
  requests b ++
  if gbm_surface_create k && create_platform_window_surface k
  then [SetCrtc (crtc d) (get_fb_for_bo k) 0 0 [connector d]
          (active_mode_info d);
        PageFlip (crtc d) (get_fb_for_bo k) i]
  else [].
Proof.
  intros Hd. unfold display_init_renderer. rewrite Hd.
  destruct (gbm_surface_create k); simpl.
  - destruct (create_platform_window_surface k); simpl.
    + by rewrite <- app_assoc.
    + by rewrite app_nil_r.
  - by rewrite app_nil_r.
Qed.

Lemma display_init_renderer_surfaces (k : drm_replies) (i : nat)
    (b : wlr_drm_backend) (d : wlr_drm_display) :
  displays b !! i = Some d ->
  displays (snd (display_init_renderer k i b)) =
  <[i := set_egl (if gbm_surface_create k
                  then create_platform_window_surface k else egl d)
           (set_gbm (gbm_surface_create k) d)]> (displays b).
Proof.
  intros Hd. unfold display_init_renderer. rewrite Hd.
  destruct (gbm_surface_create k); simpl; [|done].
  by destruct (create_platform_window_surface k).
Qed.

Lemma display_init_renderer_result (k : drm_replies) (i : nat)
    (b : wlr_drm_backend) (d : wlr_drm_display) :
  displays b !! i = Some d ->
  fst (display_init_renderer k i b) =
  gbm_surface_create k && create_platform_window_surface k.
Proof.
  intros Hd. unfold display_init_renderer. rewrite Hd.
  destruct (gbm_surface_create k); simpl; [|done].
  by destruct (create_platform_window_surface k).
Qed.

(** X20: the result of [display_init_renderer] is not looked at.  When a
    modeset returns true, it returns true as well with any other outcome
    of the two surface creations, all other replies being the same: its
    call of [display_init_renderer] returns true only when both surfaces
    could be created, and the modeset returns true and leaves the display
    CONNECTED whether it does or not.  The device has been sent the two
    requests of the first frame (a [drmModeSetCrtc] of the display's CRTC
    and connector with the active mode, then a page flip tagged with the
    display) when both surfaces could be created, and no request at all
    when one of them could not. *)
Theorem wlr_drm_display_modeset_requests (k : drm_replies)
    (b b' : wlr_drm_backend) (i : nat) (str : string) (d : wlr_drm_display)
    (g w : bool) :
  displays b !! i = Some d ->
  wlr_drm_display_modeset k b i str = Returns (true, b') ->
  exists b0 b'' d',
    wlr_drm_display_modeset (with_surfaces g w k) b i str
    = Returns (true, b'') /\
    display_init_renderer (with_surfaces g w k) i b0 = (g && w, b'') /\
    displays b'' !! i = Some d' /\ state d' = DRM_DISP_CONNECTED /\
    gbm d' = g /\
    requests b'' =
    requests b ++
    if g && w
    then [SetCrtc (crtc d') (get_fb_for_bo k) 0 0 [connector d']
            (active_mode_info d');
          PageFlip (crtc d') (get_fb_for_bo k) i]
    else [].
Proof.
  intros Hd. unfold wlr_drm_display_modeset, modeset_error. rewrite Hd.
  unfold refresh_old_crtc.
  change (drmModeGetConnector (with_surfaces g w k))
    with (drmModeGetConnector k).
  change (drmModeGetEncoder (with_surfaces g w k)) with (drmModeGetEncoder k).
  change (drmModeGetCrtc (with_surfaces g w k)) with (drmModeGetCrtc k).
  change (drmModeGetResources (with_surfaces g w k))
    with (drmModeGetResources k).
  change (alloc_ok (with_surfaces g w k)) with (alloc_ok k).
  destruct (drmModeGetConnector k (connector d)) as [conn|]; [|discriminate].
  case_decide; [discriminate|].
  destruct (alloc_ok k); simpl; [|discriminate].
  destruct (select_mode _ _ str) as [[a|]|]; try discriminate.
  destruct (drmModeGetResources k) as [res|]; [|discriminate].
  assert (forall t c e, encoder_loop (with_surfaces g w k) t c e
                        = encoder_loop k t c e) as Henc.
  { intros t c e. induction e as [|x e IH]; simpl; [done|]. by rewrite IH. }
  rewrite Henc.
  destruct (encoder_loop _ _ _ _) as [[j id]|]; [|discriminate].
  intros _.
  match goal with
  | |- context [display_init_renderer _ i (set_display i ?d1 ?b1)] =>
      set (D := d1); set (B := b1)
  end.
  assert (state D = DRM_DISP_CONNECTED) as HsD
    by (subst D; by destruct (active_mode_info _)).
  assert (displays (set_display i D B) !! i = Some D) as HD
    by by apply (lookup_set_display_eq B i d).
  exists (set_display i D B). eexists _, _. split; [reflexivity|].
  split.
  { pose proof (display_init_renderer_result (with_surfaces g w k) i _ D HD)
      as Hr.
    change (gbm_surface_create (with_surfaces g w k)) with g in Hr.
    change (create_platform_window_surface (with_surfaces g w k)) with w in Hr.
    rewrite <- Hr. by destruct (display_init_renderer _ i _). }
  rewrite (display_init_renderer_requests _ i _ D HD).
  rewrite (display_init_renderer_surfaces _ i _ D HD).
  split; [|split; [|split]].
  - apply list_lookup_insert_eq. simpl. rewrite length_insert.
    by eapply lookup_lt_Some.
  - exact HsD.
  - reflexivity.
  - reflexivity.
Qed.

Lemma wlr_drm_display_modeset_requests_witness :
  exists b0 b'' d',
    wlr_drm_display_modeset (with_surfaces false true plugged)
      scanned_backend 0 "preferred"
    = Returns (true, b'') /\
    display_init_renderer (with_surfaces false true plugged) 0 b0
    = (false, b'') /\
    displays b'' !! 0%nat = Some d' /\ state d' = DRM_DISP_CONNECTED /\
    gbm d' = false /\
    requests b'' = requests scanned_backend ++ [].
Proof.
  apply (wlr_drm_display_modeset_requests plugged scanned_backend
           fresh_backend 0 "preferred" detected_display false true).
  - reflexivity.
  - vm_compute. reflexivity.
Defined.

(** ** Plugging, configuring, unplugging *)

Lemma scan_move (k : drm_replies) (b : wlr_drm_backend) (res : drmModeRes)
    (i : nat) (id : Z) (conn : drmModeConnector) :
  scan_proceeds k b res ->
  connectors res !! i = Some id ->
  drmModeGetConnector k id = Some conn ->
  exists evs,
    events (wlr_drm_scan_connectors k b) = events b ++ evs /\
    (state_at (wlr_drm_scan_connectors k b) i, hotplug_events i evs) =
    hotplug_transition (state_at b i) (connection conn).
Proof.
  intros Hp Hi Hc. rewrite (scan_explicit k b res Hp).
  eexists. split; [reflexivity|]. unfold state_at at 1. simpl.
  assert (is_Some (grown_table b res !! i)) as [d Hd].
  { apply lookup_lt_is_Some. rewrite grown_table_length.
    apply lookup_lt_Some in Hi. lia. }
  pose proof (grown_table_state b res i) as Hst. rewrite Hd in Hst.
  pose proof (scan_displays_at k _ 0 i id _ d Hi Hd) as Hat.
  pose proof (scan_events_at k _ 0 i id _ d Hi Hd) as Hev.
  change (0 + i)%nat with i in Hat, Hev. rewrite Hat, Hev.
  rewrite <- Hst. by apply scan_slot_transition.
Qed.

(** X21: a display that is plugged in, configured and unplugged is
    reported once each way.  When a scan finds the connector of an INVALID
    or DISCONNECTED slot connected, a modeset of the slot then returns
    true, and a later scan finds the connector no longer connected, the
    slot ends DISCONNECTED and the ADD and REM events added for it over the
    three calls are one ADD followed by one REM. *)
Theorem plug_modeset_unplug (k1 k2 k3 : drm_replies) (b b2 : wlr_drm_backend)
    (i : nat) (str : string) (res1 res3 : drmModeRes) (id1 id3 : Z)
    (conn1 conn3 : drmModeConnector) :
  state_at b i = DRM_DISP_INVALID \/ state_at b i = DRM_DISP_DISCONNECTED ->
  scan_proceeds k1 b res1 -> connectors res1 !! i = Some id1 ->
  drmModeGetConnector k1 id1 = Some conn1 ->
  connection conn1 = DRM_MODE_CONNECTED ->
  wlr_drm_display_modeset k2 (wlr_drm_scan_connectors k1 b) i str
    = Returns (true, b2) ->
  scan_proceeds k3 b2 res3 -> connectors res3 !! i = Some id3 ->
  drmModeGetConnector k3 id3 = Some conn3 ->
  connection conn3 <> DRM_MODE_CONNECTED ->
  state_at (wlr_drm_scan_connectors k3 b2) i = DRM_DISP_DISCONNECTED /\
  exists evs,
    events (wlr_drm_scan_connectors k3 b2) = events b ++ evs /\
    hotplug_events i evs = [DRM_EV_DISPLAY_ADD; DRM_EV_DISPLAY_REM].
Proof.
  intros Hs Hp1 Hi1 Hc1 Hcn1 Hm Hp3 Hi3 Hc3 Hcn3.
  destruct (scan_move k1 b res1 i id1 conn1 Hp1 Hi1 Hc1) as (e1 & He1 & Hmv1).
  assert (hotplug_transition (state_at b i) (connection conn1) =
          (DRM_DISP_NEEDS_MODESET, [DRM_EV_DISPLAY_ADD])) as Ht1.
  { unfold hotplug_transition. rewrite Hcn1.
    destruct Hs as [-> | ->]; by rewrite decide_True. }
  rewrite Ht1 in Hmv1. inversion Hmv1 as [[Hst1 Hev1]].
  destruct (state_at_is_Some (wlr_drm_scan_connectors k1 b) i)
    as (d1 & Hd1 & _); [by rewrite Hst1|].
  destruct (modeset_success k2 _ b2 i str d1 Hd1 Hm)
    as (conn & a & m & res & j & d' & _ & _ & _ & _ & _ & _ & _ & Hds & _
        & Hev2 & Hst2 & _).
  assert (state_at b2 i = DRM_DISP_CONNECTED) as Hs2.
  { unfold state_at. rewrite Hds, list_lookup_insert_eq; [done|].
    by eapply lookup_lt_Some. }
  destruct (scan_move k3 b2 res3 i id3 conn3 Hp3 Hi3 Hc3) as (e3 & He3 & Hmv3).
  rewrite Hs2 in Hmv3. unfold hotplug_transition in Hmv3.
  rewrite decide_False in Hmv3 by done. inversion Hmv3 as [[Hst3 Hev3]].
  split; [done|]. exists (e1 ++ e3). split.
  - by rewrite He3, Hev2, He1, app_assoc.
  - by rewrite hotplug_events_app, Hev1, Hev3.
Qed.

Lemma plug_modeset_unplug_witness :
  state_at (wlr_drm_scan_connectors unplugged fresh_backend) 0
    = DRM_DISP_DISCONNECTED /\
  exists evs,
    events (wlr_drm_scan_connectors unplugged fresh_backend) =
      events initial_backend ++ evs /\
    hotplug_events 0 evs = [DRM_EV_DISPLAY_ADD; DRM_EV_DISPLAY_REM].
Proof.
  apply (plug_modeset_unplug plugged plugged unplugged initial_backend
           fresh_backend 0 "preferred" (MkRes [20] [40; 41])
           (MkRes [20] [40; 41]) 20 20 sample_connector
           (MkConnector 0 11 1 DRM_MODE_DISCONNECTED [] [7])).
  - left. reflexivity.
  - split; [reflexivity | right; reflexivity].
  - reflexivity.
  - reflexivity.
  - reflexivity.
  - vm_compute. reflexivity.
  - split; [reflexivity | left; simpl; lia].
  - reflexivity.
  - reflexivity.
  - discriminate.
Defined.

(** ** ADD and REM take turns *)

Lemma alternates_app (a : bool) (e1 e2 : list wlr_drm_event_type) :
  alternates a (e1 ++ e2) =
  match alternates a e1 with
  | Some a' => alternates a' e2
  | None => None
  end.
Proof.
  revert a. induction e1 as [|ty e1 IH]; intros a; simpl; [done|].
  destruct ty, a; simpl; by rewrite ?IH.
Qed.

Lemma walk_alternates (s s' : wlr_drm_display_state)
    (tys : list wlr_drm_event_type) :
  walk s tys s' -> alternates (announced s) tys = Some (announced s').
Proof.
  induction 1 as [|s1 e s2 evs s3 He _ IH]; [done|].
  rewrite alternates_app. by destruct He; simpl; rewrite ?IH.
Qed.

(** X22: the ADD and REM events of a display take turns.  Over any
    sequence of calls in which each modeset is asked for a display in state
    NEEDS_MODESET, the events added for a display are ADD and REM
    alternately, beginning with ADD when the display was INVALID or
    DISCONNECTED and with REM when it was NEEDS_MODESET or CONNECTED, and
    the display is NEEDS_MODESET or CONNECTED at the end exactly when the
    last of them is an ADD (or there is none and it was so before). *)
Theorem hotplug_events_alternate (ops : list op) (b b' : wlr_drm_backend) :
  modesets_when_needed b ops -> run ops b = Some b' ->
  exists evs,
    events b' = events b ++ evs /\
    forall i,
      alternates (announced (state_at b i)) (hotplug_events i evs)
      = Some (announced (state_at b' i)).
Proof.
  revert b. induction ops as [|o ops IH]; intros b; simpl.
  - intros _ [= <-]. exists []. split; [by rewrite app_nil_r | done].
  - intros [Hg Hrest]. destruct (step o b) as [b1|] eqn:Hs; [|discriminate].
    intros Hrun.
    destruct (step_legal o b b1 Hg Hs) as (e1 & He1 & Hw1).
    destruct (IH b1 Hrest Hrun) as (e2 & He2 & Ha2).
    exists (e1 ++ e2). split; [by rewrite He2, He1, app_assoc|].
    intros i. rewrite hotplug_events_app, alternates_app.
    by rewrite (walk_alternates _ _ _ (Hw1 i)).
Qed.

Lemma hotplug_events_alternate_witness :
  exists evs,
    events released_backend = events initial_backend ++ evs /\
    forall i,
      alternates (announced (state_at initial_backend i))
        (hotplug_events i evs)
      = Some (announced (state_at released_backend i)).
Proof.
  apply (hotplug_events_alternate
           [Scan plugged; Modeset plugged 0 "preferred"; Scan unplugged]
           initial_backend released_backend).
  - vm_compute. repeat split.
  - vm_compute. reflexivity.
Defined.

(** ** The printed mode as a request *)

Lemma numeral_from_of_uint_acc (d : Decimal.uint) (acc : positive) :
  numeral_from (Z.pos acc) (NilEmpty.string_of_uint d) =
  Some (Z.pos (Pos.of_uint_acc d acc)).
Proof.
  revert acc. induction d; intros acc;
    cbn [NilEmpty.string_of_uint numeral_from Pos.of_uint_acc];
    [reflexivity|..];
    (match goal with
     | |- context [Scanf.digit_of ?c] =>
         let v := eval vm_compute in (Scanf.digit_of c) in
         change (Scanf.digit_of c) with v
     end);
    cbv beta iota; rewrite <- IHd; f_equal; lia.
Qed.

Lemma numeral_from_of_uint (d : Decimal.uint) :
  numeral_from 0 (NilEmpty.string_of_uint d) = Some (Z.of_N (Pos.of_uint d)).
Proof.
  induction d;
    cbn [NilEmpty.string_of_uint numeral_from Pos.of_uint];
    [reflexivity|..];
    (match goal with
     | |- context [Scanf.digit_of ?c] =>
         let v := eval vm_compute in (Scanf.digit_of c) in
         change (Scanf.digit_of c) with v
     end);
    cbv beta iota;
    first [ exact IHd
          | match goal with
            | |- numeral_from ?a _ = _ =>
                let p := eval vm_compute in a in change a with p
            end;
            apply numeral_from_of_uint_acc ].
Qed.

(** What [%u] prints is read back by [%u]. *)
Lemma numeral_decimal (v : Z) : 0 <= v -> numeral (decimal v) = Some v.
Proof.
  intros Hv. unfold decimal.
  assert (N.to_uint (Z.to_N v) <> Decimal.Nil) as Hnn.
  { destruct (Z.to_N v); simpl; [done | apply Unsigned.to_uint_nonnil]. }
  assert (numeral (NilZero.string_of_uint (N.to_uint (Z.to_N v))) =
          numeral_from 0 (NilEmpty.string_of_uint (N.to_uint (Z.to_N v))))
    as ->.
  { by destruct (N.to_uint (Z.to_N v)). }
  rewrite numeral_from_of_uint.
  change (Pos.of_uint (N.to_uint (Z.to_N v)))
    with (N.of_uint (N.to_uint (Z.to_N v))).
  rewrite DecimalN.Unsigned.of_to. f_equal. lia.
Qed.

(** X24: the mode that a modeset prints in its message can be given back
    as a request.  For a mode of the list whose width, height and refresh
    rate fit an unsigned, the text [<width>x<height>@<rate>] that the
    message contains is accepted by [select_mode], which returns the first
    mode of the list with that width and height and, unless the rate is 0,
    that refresh rate; it never returns [NULL] for it. *)
Theorem select_mode_accepts_printed_mode (ms : list drmModeModeInfo)
    (old : option drmModeCrtc) (m : drmModeModeInfo) :
  m ∈ ms -> printable m ->
  exists i m',
    select_mode ms old (mode_text m) = Returns (Some i) /\
    ms !! i = Some m' /\
    hdisplay m' = hdisplay m /\ vdisplay m' = vdisplay m /\
    (vrefresh m = 0 \/ vrefresh m' = vrefresh m) /\
    forall j mj, (j < i)%nat -> ms !! j = Some mj ->
      ~ (hdisplay mj = hdisplay m /\ vdisplay mj = vdisplay m /\
         (vrefresh m = 0 \/ vrefresh mj = vrefresh m)).
Proof.
  intros Hin (Hw & Hh & Hr).
  assert (requested_rate (Some (decimal (vrefresh m)))
          = Some (Some (vrefresh m))) as Hrate.
  { simpl. by rewrite numeral_decimal by lia. }
  change (mode_text m) with
    (numeric_request (decimal (hdisplay m)) (decimal (vdisplay m))
       (Some (decimal (vrefresh m)))).
  rewrite (select_mode_numeric ms old _ _ _ (hdisplay m) (vdisplay m)
             (Some (vrefresh m)))
    by (try apply numeral_decimal; (done || lia)).
  rewrite !to_unsigned_fits by (unfold fits_unsigned; lia).
  pose proof (mode_loop_first_match
                (matches_request_nonzero (hdisplay m) (vdisplay m)
                   (Some (vrefresh m)))
                (numeric_test (hdisplay m) (vdisplay m) (vrefresh m)) ms) as H.
  destruct (mode_loop _ ms 0) as [i|].
  - destruct H as [(m' & Hm' & Hw' & Hh' & Hr') Hlt].
    { intros m0. apply (numeric_test_nonzero _ _ (Some (vrefresh m))). }
    exists i, m'. split; [done|]. split; [done|]. split; [done|].
    split; [done|]. split; [done|].
    intros j mj Hj Hmj Hmatch. by apply (Hlt j mj Hj Hmj).
  - exfalso. apply (H (fun m0 => numeric_test_nonzero _ _
                                   (Some (vrefresh m)) m0) m Hin).
    repeat split. by right.
Qed.

Lemma select_mode_accepts_printed_mode_witness :
  exists i m',
    select_mode sample_modes None (mode_text (plain_mode 1920 1080 30))
    = Returns (Some i) /\
    sample_modes !! i = Some m' /\
    hdisplay m' = hdisplay (plain_mode 1920 1080 30) /\
    vdisplay m' = vdisplay (plain_mode 1920 1080 30) /\
    (vrefresh (plain_mode 1920 1080 30) = 0 \/
     vrefresh m' = vrefresh (plain_mode 1920 1080 30)) /\
    forall j mj, (j < i)%nat -> sample_modes !! j = Some mj ->
      ~ (hdisplay mj = hdisplay (plain_mode 1920 1080 30) /\
         vdisplay mj = vdisplay (plain_mode 1920 1080 30) /\
         (vrefresh (plain_mode 1920 1080 30) = 0 \/
          vrefresh mj = vrefresh (plain_mode 1920 1080 30))).
Proof.
  apply (select_mode_accepts_printed_mode sample_modes None
           (plain_mode 1920 1080 30)).
  - apply list_elem_of_lookup. exists 2%nat. reflexivity.
  - unfold printable. simpl. lia.
Defined.
